(** * Heatmiser -> MQTT bridge: command scheduling and transport arbitration

    A shallow embedding of [bridge.py] (class [HeatmiserMqttBridge]) and of
    the parts of [heatmiserv3/connection.py] it relies on.

    - Python objects that the bridge mutates ([hm_lock], [hm_conn],
      [task_queue], [_counter], [_poll_pending]) are fields of one record,
      [bridge], threaded through a small state-and-exception monad [M].
    - A computation either returns, raises a Python exception, or blocks
      for ever on a lock that will never be released ([Block]).
    - Closures handed to the queue ([func], [args], [callback]) are tagged
      data ([operation], [completion]); running them consults a script of
      hub replies, because the thermostat driver ([heatmiserv3/heatmiser.py])
      is an external collaborator of the bridge.
    - Everything observable (lock traffic, device exchanges, sleeps, log
      lines, MQTT publishes) is appended to a trace of [event]s.
    - A [str] is a [string] holding its UTF-8 bytes; the [str] methods
      are modelled on ASCII text (see [ascii_text]).  Durations are in
      milliseconds. *)

From Stdlib Require Import ZArith List String Ascii Bool Arith Lia.
From Stdlib Require Import Permutation Sorted DecimalString.
Import ListNotations.
Open Scope string_scope.
Open Scope list_scope.

Set Implicit Arguments.

(* ------------------------------------------------------------------ *)
(** ** Python values, exceptions                                        *)
(* ------------------------------------------------------------------ *)

(** A Python [float]: a finite binary value [m * 2^e], an infinity or a
    NaN. *)
Inductive pyfloat :=
| Finite (m e : Z)
| Inf (negative : bool)
| NaN.

(** The exceptions the bridge distinguishes.  All of them are subclasses
    of [Exception]; [serial.SerialException] and socket errors are
    [OSError]s. *)
Inductive exn :=
| OSError (msg : string)
| TimeoutError (msg : string)
| ValueError (msg : string)
| OverflowError (msg : string)
| AttributeError (msg : string)
| KeyError (key : string)
| Exception (msg : string).

(** [except (OSError, TimeoutError)] in [with_lock]. *)
Definition is_transport_error (e : exn) : bool :=
  match e with
  | OSError _ | TimeoutError _ => true
  | _ => false
  end.

(** [except ValueError] in [on_message]. *)
Definition is_ValueError (e : exn) : bool :=
  match e with
  | ValueError _ => true
  | _ => false
  end.

(** An insertion-ordered [dict] with string keys. *)
Definition dict (V : Type) := list (string * V).

Fixpoint dict_get {V} (d : dict V) (k : string) : option V :=
  match d with
  | [] => None
  | (k', v) :: d' => if String.eqb k' k then Some v else dict_get d' k
  end.

(** [d[k] = v]: an existing key keeps its position, a new key goes last. *)
Fixpoint dict_set {V} (d : dict V) (k : string) (v : V) : dict V :=
  match d with
  | [] => [(k, v)]
  | (k', v') :: d' =>
      if String.eqb k' k then (k', v) :: d' else (k', v') :: dict_set d' k v
  end.

(** [d.update(other)]. *)
Definition dict_update {V} (d other : dict V) : dict V :=
  fold_left (fun acc kv => dict_set acc (fst kv) (snd kv)) other d.

Inductive pyval :=
| VNone
| VInt (z : Z)
| VFloat (x : pyfloat)
| VStr (s : string).

(** What a task's [func] returns: [None] from the setters, the [results]
    dict from [poll_all]. *)
Inductive result :=
| RNone
| RDict (results : dict (dict pyval)).

(** [isinstance(result, dict)]. *)
Definition is_dict (r : result) : bool :=
  match r with
  | RDict _ => true
  | RNone => false
  end.

(* ------------------------------------------------------------------ *)
(** ** The hub, as the bridge sees it                                   *)
(* ------------------------------------------------------------------ *)

(** What the getters of one [HeatmiserThermostat] return. *)
Record reading := {
  air_temp : pyval;
  floor_temp : pyval;
  target_temp : pyval;
  run_mode : string;          (* get_run_mode() *)
  current_state : bool;       (* truth value of get_current_state() *)
  hotwater_state : string     (* get_hotwater_state() *)
}.

(** One exchange with the hub: it fails, or it yields what every
    thermostat reads at that moment. *)
Inductive reply :=
| Fails (e : exn)
| Reads (snapshot : string -> reading).

(** [connection.HeatmiserUH1]: only [status] matters to the bridge;
    [serial_no] tells successive connection objects apart. *)
Record HeatmiserUH1 := {
  status : bool;
  serial_no : nat
}.

(* ------------------------------------------------------------------ *)
(** ** Tasks                                                            *)
(* ------------------------------------------------------------------ *)

Inductive HotWaterWriteState := HW_ON | HW_OFF.

(** [func] together with [args], as enqueued by the producers. *)
Inductive operation :=
| set_hotwater_state (thermo : string) (st : HotWaterWriteState)
| set_target_temp (thermo : string) (val : Z)
| set_frost_protect_mode (thermo : string) (frost : bool)
| poll_all.

(** The [callback] lambdas of [on_message]. *)
Inductive completion :=
| cb_publish_hotwater_state (cmd : string)
| cb_publish_single_state (name : string) (expected_copy : dict pyval).

Record task := {
  func : operation;
  desc : string;
  is_poll : bool;
  callback : option completion
}.

(** A queue entry [(priority, count, (func, args, desc, is_poll, callback))]. *)
Record entry := {
  priority : Z;
  count : nat;
  body : task
}.

(* ------------------------------------------------------------------ *)
(** ** Events                                                           *)
(* ------------------------------------------------------------------ *)

Inductive level := DEBUG | INFO | WARNING | ERROR.

(** The [time.sleep] call sites. *)
Inductive sleep_site :=
| retry_delay          (* with_lock: time.sleep(delay) *)
| reconnect_pause      (* reconnect: time.sleep(1) *)
| worker_throttle      (* worker_thread: time.sleep(0.25 / 0.5) *)
| poll_zone_gap        (* poll_all: time.sleep(0.05) *)
| hotwater_settle.     (* _publish_hotwater_state: time.sleep(0.5) *)

(** [held] in [EvSleep], [EvReconnect] and [EvCall] is the number of
    acquisitions of [hm_lock] outstanding at that moment. *)
Inductive event :=
| EvAcquire
| EvRelease
| EvCall (op : operation) (nth : nat) (held : nat)
| EvSleep (site : sleep_site) (ms : nat) (held : nat)
| EvReconnect (held : nat)
| EvLog (lvl : level) (msg : string)
| EvPublish (topic : string) (value : pyval) (retain : bool)
| EvTaskDone.

(* ------------------------------------------------------------------ *)
(** ** The bridge object                                                *)
(* ------------------------------------------------------------------ *)

(** A lock.  The bridge's [hm_lock] is a [threading.Lock()], which is
    not reentrant ([__init__] builds no other); [reentrant] is kept so
    that the lemmas on [with hm_lock:] say what they owe to that.
    [depth] counts outstanding acquisitions (by the worker thread, the
    only thread that ever takes [hm_lock]). *)
Record lock := {
  reentrant : bool;
  depth : nat
}.

Definition threading_Lock : lock := {| reentrant := false; depth := 0 |}.

Record zone := {
  zone_id : Z;
  zone_type : string;
  sensor_type : option string     (* zone.get("sensor_type") *)
}.

Record hotwater_cfg := {
  hw_zone_id : Z
}.

Record bridge := {
  (* configuration, fixed by __init__ *)
  zones : dict zone;
  hotwater : option hotwater_cfg;          (* None when falsy *)
  hotwaterThermostat : option string;
  (* shared mutable state *)
  hm_lock : lock;
  hm_conn : HeatmiserUH1;
  task_queue : list entry;
  _counter : nat;
  _poll_pending : bool;
  (* the environment *)
  uh1_script : nat -> reply;      (* reply to the n-th exchange *)
  uh1_calls : nat;                (* exchanges so far *)
  port_opens : nat -> bool;       (* does the n-th connection open? *)
  (* what has happened so far, oldest first *)
  trace : list event
}.

Definition set_hm_lock (l : lock) (b : bridge) : bridge :=
  {| zones := zones b; hotwater := hotwater b;
     hotwaterThermostat := hotwaterThermostat b;
     hm_lock := l; hm_conn := hm_conn b; task_queue := task_queue b;
     _counter := _counter b; _poll_pending := _poll_pending b;
     uh1_script := uh1_script b; uh1_calls := uh1_calls b;
     port_opens := port_opens b; trace := trace b |}.

Definition set_hm_conn (c : HeatmiserUH1) (b : bridge) : bridge :=
  {| zones := zones b; hotwater := hotwater b;
     hotwaterThermostat := hotwaterThermostat b;
     hm_lock := hm_lock b; hm_conn := c; task_queue := task_queue b;
     _counter := _counter b; _poll_pending := _poll_pending b;
     uh1_script := uh1_script b; uh1_calls := uh1_calls b;
     port_opens := port_opens b; trace := trace b |}.

Definition set_task_queue (q : list entry) (b : bridge) : bridge :=
  {| zones := zones b; hotwater := hotwater b;
     hotwaterThermostat := hotwaterThermostat b;
     hm_lock := hm_lock b; hm_conn := hm_conn b; task_queue := q;
     _counter := _counter b; _poll_pending := _poll_pending b;
     uh1_script := uh1_script b; uh1_calls := uh1_calls b;
     port_opens := port_opens b; trace := trace b |}.

Definition set_counter (n : nat) (b : bridge) : bridge :=
  {| zones := zones b; hotwater := hotwater b;
     hotwaterThermostat := hotwaterThermostat b;
     hm_lock := hm_lock b; hm_conn := hm_conn b; task_queue := task_queue b;
     _counter := n; _poll_pending := _poll_pending b;
     uh1_script := uh1_script b; uh1_calls := uh1_calls b;
     port_opens := port_opens b; trace := trace b |}.

Definition set_poll_pending (p : bool) (b : bridge) : bridge :=
  {| zones := zones b; hotwater := hotwater b;
     hotwaterThermostat := hotwaterThermostat b;
     hm_lock := hm_lock b; hm_conn := hm_conn b; task_queue := task_queue b;
     _counter := _counter b; _poll_pending := p;
     uh1_script := uh1_script b; uh1_calls := uh1_calls b;
     port_opens := port_opens b; trace := trace b |}.

Definition set_uh1_calls (n : nat) (b : bridge) : bridge :=
  {| zones := zones b; hotwater := hotwater b;
     hotwaterThermostat := hotwaterThermostat b;
     hm_lock := hm_lock b; hm_conn := hm_conn b; task_queue := task_queue b;
     _counter := _counter b; _poll_pending := _poll_pending b;
     uh1_script := uh1_script b; uh1_calls := n;
     port_opens := port_opens b; trace := trace b |}.

Definition set_trace (t : list event) (b : bridge) : bridge :=
  {| zones := zones b; hotwater := hotwater b;
     hotwaterThermostat := hotwaterThermostat b;
     hm_lock := hm_lock b; hm_conn := hm_conn b; task_queue := task_queue b;
     _counter := _counter b; _poll_pending := _poll_pending b;
     uh1_script := uh1_script b; uh1_calls := uh1_calls b;
     port_opens := port_opens b; trace := t |}.

(* ------------------------------------------------------------------ *)
(** ** The monad                                                        *)
(* ------------------------------------------------------------------ *)

Inductive res (A : Type) :=
| Ret (a : A)           (* normal completion *)
| Raise (e : exn)       (* an exception is propagating *)
| Block.                (* parked for ever in Lock.acquire() *)

Arguments Ret {A} a.
Arguments Raise {A} e.
Arguments Block {A}.

Definition M (A : Type) := bridge -> res A * bridge.

Definition ret {A} (a : A) : M A := fun b => (Ret a, b).
Definition raise {A} (e : exn) : M A := fun b => (Raise e, b).

Definition bind {A B} (m : M A) (k : A -> M B) : M B :=
  fun b =>
    match m b with
    | (Ret a, b') => k a b'
    | (Raise e, b') => (Raise e, b')
    | (Block, b') => (Block, b')
    end.

Declare Scope py_scope.
Delimit Scope py_scope with py.
Notation "x <- m ;; k" := (bind m (fun x => k))
  (at level 61, m at next level, right associativity) : py_scope.
Notation "m ;; k" := (bind m (fun _ => k))
  (at level 61, right associativity) : py_scope.
Open Scope py_scope.

(** [try: m  except <filter> as e: h e]. *)
Definition try_except {A} (m : M A) (catches : exn -> bool) (h : exn -> M A)
  : M A :=
  fun b =>
    match m b with
    | (Raise e, b') => if catches e then h e b' else (Raise e, b')
    | r => r
    end.

(** [except Exception]: every [exn] of the model is an [Exception]. *)
Definition any_Exception (e : exn) : bool := true.

(** [try: m  finally: f]. *)
Definition try_finally {A} (m : M A) (f : M unit) : M A :=
  fun b =>
    match m b with
    | (Ret a, b') => (f ;; ret a) b'
    | (Raise e, b') => (f ;; raise e) b'
    | (Block, b') => (Block, b')
    end.

Definition get {A} (proj : bridge -> A) : M A := fun b => (Ret (proj b), b).
Definition modify (f : bridge -> bridge) : M unit := fun b => (Ret tt, f b).

Definition emit (ev : event) : M unit :=
  modify (fun b => set_trace (trace b ++ [ev]) b).

Definition LOG (lvl : level) (msg : string) : M unit := emit (EvLog lvl msg).

Definition time_sleep (site : sleep_site) (ms : nat) : M unit :=
  held <- get (fun b => depth (hm_lock b)) ;;
  emit (EvSleep site ms held).

(* ------------------------------------------------------------------ *)
(** ** [threading.Lock] as a context manager                            *)
(* ------------------------------------------------------------------ *)

(** [acquire()]: a free lock is taken; a held reentrant lock is taken
    once more; a held plain lock parks the caller, and since the caller is
    the only thread that would release it, for ever. *)
Definition acquire : M unit :=
  fun b =>
    let l := hm_lock b in
    match depth l with
    | O => (emit EvAcquire) (set_hm_lock {| reentrant := reentrant l; depth := 1 |} b)
    | S d =>
        if reentrant l
        then (emit EvAcquire)
               (set_hm_lock {| reentrant := true; depth := S (S d) |} b)
        else (Block, b)
    end.

Definition release : M unit :=
  modify (fun b => set_hm_lock {| reentrant := reentrant (hm_lock b);
                                  depth := pred (depth (hm_lock b)) |} b) ;;
  emit EvRelease.

(** [with self.hm_lock: m]. *)
Definition with_hm_lock {A} (m : M A) : M A :=
  acquire ;; try_finally m release.

(* ------------------------------------------------------------------ *)
(** ** Text helpers ([str] methods used by the bridge)                  *)
(* ------------------------------------------------------------------ *)

(** A [str] is the sequence of its characters, written as UTF-8.  The
    methods below are Python's on ASCII text: [upper] and [lower] map
    the 26 letters, [strip] and [float] know the ASCII white space and
    the ASCII digits.  A payload made of ASCII bytes decodes to itself;
    [ascii_text] says that a payload is one, and the properties that
    say what a handler does with an arbitrary payload assume it, unless
    they already confine the payload to ON, OFF or an ASCII numeral. *)
Definition ascii_text (s : string) : bool :=
  forallb (fun c => (nat_of_ascii c <? 128)%nat) (list_ascii_of_string s).

Definition ascii_upper (c : ascii) : ascii :=
  let n := nat_of_ascii c in
  if (97 <=? n)%nat && (n <=? 122)%nat then ascii_of_nat (n - 32) else c.

Definition ascii_lower (c : ascii) : ascii :=
  let n := nat_of_ascii c in
  if (65 <=? n)%nat && (n <=? 90)%nat then ascii_of_nat (n + 32) else c.

Fixpoint string_map (f : ascii -> ascii) (s : string) : string :=
  match s with
  | EmptyString => EmptyString
  | String c s' => String (f c) (string_map f s')
  end.

Definition upper (s : string) : string := string_map ascii_upper s.
Definition lower (s : string) : string := string_map ascii_lower s.

Definition startswith (s pre : string) : bool := String.prefix pre s.

Definition endswith (s suf : string) : bool :=
  let n := String.length s in
  let k := String.length suf in
  (k <=? n)%nat && String.eqb (substring (n - k) k s) suf.

(* ------------------------------------------------------------------ *)
(** ** Talking to the hub                                               *)
(* ------------------------------------------------------------------ *)

(** The next reply of the script; the exchange counter advances. *)
Definition uh1_exchange : M reply :=
  fun b =>
    (Ret (uh1_script b (uh1_calls b)), set_uh1_calls (S (uh1_calls b)) b).

(** The getters of [self.thermostats[name]], read together in one
    consultation of the script. *)
Definition thermostat_getters (name : string) : M reading :=
  r <- uh1_exchange ;;
  match r with
  | Fails e => raise e
  | Reads snapshot => ret (snapshot name)
  end.

(** Attribute derivation, as written in [poll_all]. *)
Definition poll_temperature (z : zone) (r : reading) : pyval :=
  match sensor_type z with
  | Some s => if String.eqb s "air" then air_temp r else floor_temp r
  | None => floor_temp r
  end.

Definition derive_mode (r : reading) : string :=
  if String.eqb (run_mode r) "frost" then "off" else "heat".

Definition derive_action (r : reading) : string :=
  if current_state r then "heating" else "idle".

Definition poll_zone_result (z : zone) (r : reading) : dict pyval :=
  [ ("temperature", poll_temperature z r);
    ("target", target_temp r);
    ("mode", VStr (derive_mode r));
    ("action", VStr (derive_action r));
    ("hw_state", VNone) ].

(** The loop of [poll_all] over [self.thermostats.items()]. *)
Fixpoint poll_zones (zs : dict zone) (snapshot : string -> reading)
         (results : dict (dict pyval)) : M (dict (dict pyval)) :=
  match zs with
  | [] => ret results
  | (name, z) :: zs' =>
      let results' := dict_set results name (poll_zone_result z (snapshot name)) in
      time_sleep poll_zone_gap 50 ;;
      poll_zones zs' snapshot results'
  end.

Definition poll_all_body (snapshot : string -> reading) : M result :=
  zs <- get zones ;;
  results <- poll_zones zs snapshot [] ;;
  hw <- get hotwater ;;
  match hw with
  | None => ret (RDict results)
  | Some _ =>
      hwt <- get hotwaterThermostat ;;
      match hwt with
      | None => raise (AttributeError "get_hotwater_state")
      | Some name =>
          let hw_state := upper (hotwater_state (snapshot name)) in
          ret (RDict (dict_set results "hotwater" [("hw_state", VStr hw_state)]))
      end
  end.

(** The call of [func] on [args].  One consultation of the script stands
    for all the exchanges with the hub that a single call makes: it fails
    as a whole or yields the readings it works from.  (A [poll_all] on a
    bridge with no zone and no hot water makes no exchange; a script
    that fails it describes a failure that does not occur.) *)
Definition run_func (op : operation) : M result :=
  n <- get uh1_calls ;;
  held <- get (fun b => depth (hm_lock b)) ;;
  emit (EvCall op n held) ;;
  r <- uh1_exchange ;;
  match r with
  | Fails e => raise e
  | Reads snapshot =>
      match op with
      | poll_all => poll_all_body snapshot
      | _ => ret RNone
      end
  end.

(* ------------------------------------------------------------------ *)
(** ** [reconnect] and [with_lock]                                      *)
(* ------------------------------------------------------------------ *)

(** [HeatmiserUH1.close()]: it logs and swallows every error, so it
    never raises; [status] ends up false (a close that fails, which would
    leave [status] as it was, is not modelled). *)
Definition hm_conn_close : M unit :=
  modify (fun b => set_hm_conn {| status := false;
                                  serial_no := serial_no (hm_conn b) |} b).

(** [connection.HeatmiserUH1(device=..., ipaddress=..., port=..., url=...)]
    with the start-up configuration: the constructor logs and swallows a
    failure to open, leaving [status] false. *)
Definition new_HeatmiserUH1 : M unit :=
  modify (fun b =>
            let n := S (serial_no (hm_conn b)) in
            set_hm_conn {| status := port_opens b n; serial_no := n |} b).

Definition reconnect : M unit :=
  held <- get (fun b => depth (hm_lock b)) ;;
  emit (EvReconnect held) ;;
  with_hm_lock
    (try_except hm_conn_close any_Exception (fun _ => ret tt) ;;
     time_sleep reconnect_pause 1000 ;;
     new_HeatmiserUH1 ;;
     LOG INFO "Reconnected to UH1").

(** How the body of the [for] loop ends: [return v], or fall through to
    the next iteration. *)
Inductive flow (A : Type) :=
| Return (a : A)
| Next.

Arguments Return {A} a.
Arguments Next {A}.

(** One iteration of the loop of [with_lock]: the [with self.hm_lock:]
    block, sleep included. *)
Definition attempt_body (f : M result) (retries delay attempt : nat)
  : M (flow result) :=
  with_hm_lock
    (r <- try_except
            (v <- f ;; ret (Return v))
            is_transport_error
            (fun e =>
               LOG WARNING "UH1 command failed (%s), attempt %d/%d" ;;
               (if (attempt =? retries)%nat then reconnect else ret tt) ;;
               ret Next) ;;
     match r with
     | Return v => ret (Return v)
     | Next => time_sleep retry_delay delay ;; ret Next
     end).

Fixpoint for_attempts (f : M result) (retries delay : nat)
         (attempts : list nat) : M (flow result) :=
  match attempts with
  | [] => ret Next
  | attempt :: rest =>
      r <- attempt_body f retries delay attempt ;;
      match r with
      | Return v => ret (Return v)
      | Next => for_attempts f retries delay rest
      end
  end.

Definition with_lock (f : M result) (retries delay : nat) : M result :=
  r <- for_attempts f retries delay (seq 0 (retries + 1)) ;;
  match r with
  | Return v => ret v
  | Next => raise (Exception "Failed to communicate with UH1 after retries")
  end.

(** The defaults [retries=2, delay=0.3]. *)
Definition default_retries : nat := 2.
Definition default_delay : nat := 300.

(* ------------------------------------------------------------------ *)
(** ** [float(payload)] and [round(...)]                                *)
(* ------------------------------------------------------------------ *)

(** [str.isspace] on ASCII. *)
Definition is_space (c : ascii) : bool :=
  let n := nat_of_ascii c in
  ((9 <=? n)%nat && (n <=? 13)%nat) || ((28 <=? n)%nat && (n <=? 32)%nat).

Fixpoint lstrip (s : list ascii) : list ascii :=
  match s with
  | c :: s' => if is_space c then lstrip s' else s
  | [] => []
  end.

Definition strip (s : string) : string :=
  let l := lstrip (list_ascii_of_string s) in
  string_of_list_ascii (rev (lstrip (rev l))).

Definition is_digit (c : ascii) : bool :=
  let n := nat_of_ascii c in (48 <=? n)%nat && (n <=? 57)%nat.

Definition digit_value (c : ascii) : Z := Z.of_nat (nat_of_ascii c - 48).

(** Underscores may only stand between two digits; they are dropped. *)
Fixpoint drop_underscores (prev : option ascii) (s : list ascii)
  : option (list ascii) :=
  match s with
  | [] =>
      match prev with
      | Some "_"%char => None
      | _ => Some []
      end
  | c :: s' =>
      if Ascii.eqb c "_" then
        match prev with
        | Some p => if is_digit p then drop_underscores (Some c) s' else None
        | None => None
        end
      else
        let ok := match prev with
                  | Some "_"%char => is_digit c
                  | _ => true
                  end in
        if ok then option_map (cons c) (drop_underscores (Some c) s') else None
  end.

Fixpoint take_digits (s : list ascii) : list ascii * list ascii :=
  match s with
  | c :: s' =>
      if is_digit c
      then let (ds, rest) := take_digits s' in (c :: ds, rest)
      else ([], s)
  | [] => ([], [])
  end.

Definition digits_value (ds : list ascii) : Z :=
  fold_left (fun acc c => 10 * acc + digit_value c)%Z ds 0%Z.

Definition take_sign (s : list ascii) : bool * list ascii :=
  match s with
  | "-"%char :: s' => (true, s')
  | "+"%char :: s' => (false, s')
  | _ => (false, s)
  end.

(** Quotient of [a] by [b > 0], rounded to nearest, ties to even. *)
Definition div_half_even (a b : Z) : Z :=
  let q := (a / b)%Z in
  let r := (a mod b)%Z in
  if (2 * r <? b)%Z then q
  else if (b <? 2 * r)%Z then (q + 1)%Z
  else if Z.even q then q else (q + 1)%Z.

(** The IEEE 754 binary64 value nearest to [num / den] (both positive),
    ties to even; too large a value becomes an infinity. *)
Definition binary64_of_ratio (neg : bool) (num den : Z) : pyfloat :=
  let e0 := (Z.log2 num - Z.log2 den)%Z in
  let reaches :=
    if (0 <=? e0)%Z then (den * 2 ^ e0 <=? num)%Z
    else (den <=? num * 2 ^ (- e0))%Z in
  let e := if reaches then e0 else (e0 - 1)%Z in
  let q := Z.max (e - 52) (-1074) in
  let m :=
    if (0 <=? q)%Z then div_half_even num (den * 2 ^ q)
    else div_half_even (num * 2 ^ (- q)) den in
  if (971 <? q)%Z || ((q =? 971)%Z && (m =? 2 ^ 53)%Z)
  then Inf neg
  else Finite (if neg then (- m)%Z else m) q.

(** The binary64 value of [mant * 10^exp10], [mant >= 0].  Magnitudes
    beyond the range of a double are settled without computing the
    power. *)
Definition binary64_of_decimal (neg : bool) (mant exp10 : Z) : pyfloat :=
  if (mant =? 0)%Z then Finite 0 0
  else
    let adj := (exp10 + Z.log2 mant / 4)%Z in
    if (400 <? adj)%Z then Inf neg
    else if (exp10 + Z.log2 mant <? - 1100)%Z then Finite 0 0
    else if (0 <=? exp10)%Z
         then binary64_of_ratio neg (mant * 10 ^ exp10) 1
         else binary64_of_ratio neg mant (10 ^ (- exp10)).

(** The numeral grammar of [float]:
    [digits [. [digits]] | . digits] [(e|E) [sign] digits]. *)
Definition parse_decimal (neg : bool) (s : list ascii) : option pyfloat :=
  let (ip, s1) := take_digits s in
  let (fp, s2) :=
    match s1 with
    | "."%char :: s1' => take_digits s1'
    | _ => ([], s1)
    end in
  match ip ++ fp with
  | [] => None
  | ds =>
      let mant := digits_value ds in
      let frac := Z.of_nat (List.length fp) in
      match s2 with
      | [] => Some (binary64_of_decimal neg mant (- frac))
      | c :: s3 =>
          if Ascii.eqb c "e" || Ascii.eqb c "E" then
            let (eneg, s4) := take_sign s3 in
            match take_digits s4 with
            | ((_ :: _) as es, []) =>
                let e := digits_value es in
                Some (binary64_of_decimal neg mant
                        ((if eneg then - e else e) - frac))
            | _ => None
            end
          else None
      end
  end.

(** [float(s)] for a [str] of ASCII text: [None] stands for
    [ValueError]. *)
Definition parse_float (s : string) : option pyfloat :=
  match drop_underscores None (list_ascii_of_string (strip s)) with
  | None => None
  | Some cs =>
      let (neg, body) := take_sign cs in
      let word := lower (string_of_list_ascii body) in
      if String.eqb word "inf" || String.eqb word "infinity" then Some (Inf neg)
      else if String.eqb word "nan" then Some NaN
      else parse_decimal neg body
  end.

Definition py_float (s : string) : M pyfloat :=
  match parse_float s with
  | Some x => ret x
  | None => raise (ValueError "could not convert string to float")
  end.

(** [round(x)] of a float: the nearest [int], ties to even. *)
Definition py_round (x : pyfloat) : M Z :=
  match x with
  | Finite m e =>
      ret (if (0 <=? e)%Z then (m * 2 ^ e)%Z else div_half_even m (2 ^ (- e)))
  | Inf _ => raise (OverflowError "cannot convert float infinity to integer")
  | NaN => raise (ValueError "cannot convert float NaN to integer")
  end.

(* ------------------------------------------------------------------ *)
(** ** The priority queue                                               *)
(* ------------------------------------------------------------------ *)

(** Order of the queued tuples on their first two components.  Python
    would go on to compare the task tuples when both are equal; counts
    are unique (see [counts_fresh]), so it never gets there. *)
Definition entry_ltb (a b : entry) : bool :=
  (priority a <? priority b)%Z
  || ((priority a =? priority b)%Z && (count a <? count b)%nat).

(** [queue.PriorityQueue]: [put] adds an entry, [get] removes and returns
    the lowest one.  The queue is kept in arrival order. *)
Definition queue_put (e : entry) (q : list entry) : list entry := q ++ [e].

Fixpoint queue_get (q : list entry) : option (entry * list entry) :=
  match q with
  | [] => None
  | e :: q' =>
      match queue_get q' with
      | None => Some (e, [])
      | Some (m, r) => if entry_ltb m e then Some (m, e :: r) else Some (e, q')
      end
  end.

Definition PRIORITY_COMMAND : Z := 0.
Definition PRIORITY_POLL : Z := 1.

(** [next(self._counter)]. *)
Definition next_counter : M nat :=
  fun b => (Ret (_counter b), set_counter (S (_counter b)) b).

Definition enqueue_task (prio : Z) (f : operation) (d : string)
           (poll : bool) (cb : option completion) : M unit :=
  c <- next_counter ;;
  modify (fun b =>
            set_task_queue
              (queue_put {| priority := prio; count := c;
                            body := {| func := f; desc := d; is_poll := poll;
                                       callback := cb |} |}
                         (task_queue b)) b).

(* ------------------------------------------------------------------ *)
(** ** State publishing                                                 *)
(* ------------------------------------------------------------------ *)

(** [self.mqtt.publish(topic, value, retain=True)]. *)
Definition mqtt_publish (topic : string) (value : pyval) : M unit :=
  emit (EvPublish topic value true).

Definition state_topic (name key : string) : string :=
  "home/heatmiser/" ++ name ++ "/state/" ++ key.

Definition hotwater_state_topic : string :=
  "home/heatmiser/hotwater/state/hw_state".

Fixpoint publish_items (name : string) (state : dict pyval) : M unit :=
  match state with
  | [] => ret tt
  | (key, value) :: rest =>
      mqtt_publish (state_topic name key) value ;;
      publish_items name rest
  end.

(** The [state] literal of [_publish_single_state]. *)
Definition single_state (r : reading) : dict pyval :=
  [ ("temperature", air_temp r);
    ("target", target_temp r);
    ("mode", VStr (derive_mode r));
    ("action", VStr (derive_action r)) ].

Definition _publish_single_state (name : string) (overrides : dict pyval)
  : M unit :=
  zs <- get zones ;;
  match dict_get zs name with
  | None => raise (KeyError name)
  | Some _ =>
      r <- thermostat_getters name ;;
      let state := dict_update (single_state r) overrides in
      publish_items name state ;;
      LOG DEBUG "Immediate MQTT update for %s"
  end.

Definition is_some {A} (o : option A) : bool :=
  match o with
  | Some _ => true
  | None => false
  end.

Definition _publish_hotwater_state (hw_state : option string) : M unit :=
  hw <- get hotwater ;;
  if negb (is_some hw) then ret tt
  else
    st <- match hw_state with
          | Some s => ret s
          | None =>
              time_sleep hotwater_settle 500 ;;
              hwt <- get hotwaterThermostat ;;
              match hwt with
              | None => raise (AttributeError "read_dcb")
              | Some name =>
                  r <- thermostat_getters name ;;
                  LOG DEBUG "Hot Water state not provided real state obtained: %s" ;;
                  ret (upper (hotwater_state r))
              end
          end ;;
    try_except
      (mqtt_publish hotwater_state_topic (VStr st) ;;
       LOG DEBUG "Hot water state published: %s")
      any_Exception
      (fun _ => LOG WARNING "Failed to publish hot water state: %s").

(** [res[key]]. *)
Definition item (res : dict pyval) (key : string) : M pyval :=
  match dict_get res key with
  | Some v => ret v
  | None => raise (KeyError key)
  end.

Fixpoint _publish_poll_results (results : dict (dict pyval)) : M unit :=
  match results with
  | [] => ret tt
  | (name, res) :: rest =>
      hw <- get hotwater ;;
      (if String.eqb name "hotwater" && is_some hw then
         match dict_get res "hw_state" with
         | None | Some VNone => ret tt
         | Some v =>
             mqtt_publish hotwater_state_topic v ;;
             LOG DEBUG "Published polled hot water state"
         end
       else
         (v <- item res "temperature" ;; mqtt_publish (state_topic name "temperature") v) ;;
         (v <- item res "target" ;; mqtt_publish (state_topic name "target") v) ;;
         (v <- item res "mode" ;; mqtt_publish (state_topic name "mode") v) ;;
         (v <- item res "action" ;; mqtt_publish (state_topic name "action") v) ;;
         LOG DEBUG "Published polled state for %s") ;;
      _publish_poll_results rest
  end.

(* ------------------------------------------------------------------ *)
(** ** The worker                                                       *)
(* ------------------------------------------------------------------ *)

Definition run_callback (cb : completion) (r : result) : M unit :=
  match cb with
  | cb_publish_hotwater_state cmd => _publish_hotwater_state (Some cmd)
  | cb_publish_single_state name expected_copy =>
      _publish_single_state name expected_copy
  end.

(** The [try] block of [worker_thread]. *)
Definition worker_try (t : task) : M unit :=
  LOG DEBUG "Executing task: %s [%s]" ;;
  r <- with_lock (run_func (func t)) default_retries default_delay ;;
  match callback t with
  | Some cb =>
      try_except (run_callback cb r) any_Exception
                 (fun _ => LOG WARNING "Callback for %s failed: %s")
  | None => ret tt
  end ;;
  if is_poll t && is_dict r
  then match r with
       | RDict results => _publish_poll_results results
       | RNone => ret tt
       end
  else ret tt.

(** Its [finally] block. *)
Definition worker_finally (e : entry) : M unit :=
  (if is_poll (body e) then modify (set_poll_pending false) else ret tt) ;;
  emit EvTaskDone ;;
  time_sleep worker_throttle (if (priority e =? 1)%Z then 250 else 500).

(** One turn of the [while True] loop of [worker_thread], from the entry
    [task_queue.get()] returned to the closing [time.sleep]. *)
Definition worker_iteration (e : entry) : M unit :=
  try_finally
    (try_except (worker_try (body e)) any_Exception
                (fun _ => LOG ERROR "Task '%s' failed: %s"))
    (worker_finally e).

(** The parts of a turn between which the other threads may run: the
    [try] block with its [except Exception] handler; the clearing of
    [_poll_pending] under [_poll_pending_lock], first thing in the
    [finally] block; and the rest of the [finally] block, [task_done()]
    and the closing sleep. *)
Definition worker_attempt (e : entry) : M unit :=
  try_except (worker_try (body e)) any_Exception
             (fun _ => LOG ERROR "Task '%s' failed: %s").

Definition worker_clear_flag (e : entry) : M unit :=
  if is_poll (body e) then modify (set_poll_pending false) else ret tt.

Definition worker_close (e : entry) : M unit :=
  emit EvTaskDone ;;
  time_sleep worker_throttle (if (priority e =? 1)%Z then 250 else 500).

(** How far the worker got. *)
Inductive worker_state :=
| Waiting               (* parked in task_queue.get(): the queue is empty *)
| Stuck (e : entry)     (* parked for ever while handling [e] *)
| Crashed (x : exn)     (* an exception left the loop: the thread is dead *)
| Busy.                 (* still looping (the bound on turns was reached) *)

(** [worker_thread], for at most [turns] turns of its loop. *)
Fixpoint worker_thread (turns : nat) (b : bridge) : worker_state * bridge :=
  match turns with
  | O => (Busy, b)
  | S turns' =>
      match queue_get (task_queue b) with
      | None => (Waiting, b)
      | Some (e, q') =>
          match worker_iteration e (set_task_queue q' b) with
          | (Ret _, b') => worker_thread turns' b'
          | (Raise x, b') => (Crashed x, b')
          | (Block, b') => (Stuck e, b')
          end
      end
  end.

(* ------------------------------------------------------------------ *)
(** ** The producers                                                    *)
(* ------------------------------------------------------------------ *)

(** [str(val)] for an [int]. *)
Definition str_of_int (z : Z) : string :=
  DecimalString.NilZero.string_of_int (Z.to_int z).

(** The UTF-8 bytes of the degree sign, then [C]. *)
Definition degrees_C : string :=
  String (ascii_of_nat 194) (String (ascii_of_nat 176) "C").

(** What [on_message] does for the zone [name] once the topic starts
    with that zone's command prefix. *)
Definition zone_command (topic payload name : string) : M unit :=
  if endswith topic "target" then
    try_except
      (x <- py_float payload ;;
       val <- py_round x ;;
       let expected_copy := [("target", VInt val)] in
       enqueue_task PRIORITY_COMMAND (set_target_temp name val)
                    (name ++ " set target " ++ str_of_int val ++ degrees_C)
                    false
                    (Some (cb_publish_single_state name expected_copy)))
      is_ValueError
      (fun _ => LOG WARNING "Invalid target temp for %s: %s")
  else if endswith topic "mode" then
    let frost := String.eqb (upper payload) "OFF" in
    let expected_copy := [("mode", VStr (lower payload))] in
    enqueue_task PRIORITY_COMMAND (set_frost_protect_mode name frost)
                 (name ++ " set mode")
                 false
                 (Some (cb_publish_single_state name expected_copy))
  else ret tt.

(** [for name, zone in self.zones.items()] in [on_message]: the first
    zone whose command prefix starts the topic handles the message, and
    the handler returns. *)
Fixpoint on_message_zones (topic payload : string) (zs : dict zone) : M unit :=
  match zs with
  | [] => ret tt
  | (name, _) :: rest =>
      if startswith topic ("home/heatmiser/" ++ name ++ "/set/")
      then zone_command topic payload name
      else on_message_zones topic payload rest
  end.

(** [on_message], from its second statement on: [raw] is the text that
    [msg.payload.decode()] returned.  The decoding is not part of the
    model: a payload that is not valid UTF-8 makes the handler raise
    [UnicodeDecodeError] there, before the log line and whatever the
    topic; a payload of ASCII bytes ([ascii_text]) decodes to itself. *)
Definition on_message (topic raw : string) : M unit :=
  let payload := strip raw in
  LOG INFO "MQTT RX: %s => %s" ;;
  hw <- get hotwater ;;
  if startswith topic "home/heatmiser/hotwater/set/" && is_some hw then
    thermo <- get hotwaterThermostat ;;
    if endswith topic "hw_state" then
      let cmd := upper payload in
      if String.eqb cmd "ON" then
        match thermo with
        | None => raise (AttributeError "set_hotwater_state")
        | Some t =>
            enqueue_task PRIORITY_COMMAND (set_hotwater_state t HW_ON)
                         "HotWater ON" false
                         (Some (cb_publish_hotwater_state cmd))
        end
      else if String.eqb cmd "OFF" then
        match thermo with
        | None => raise (AttributeError "set_hotwater_state")
        | Some t =>
            enqueue_task PRIORITY_COMMAND (set_hotwater_state t HW_OFF)
                         "HotWater OFF" false
                         (Some (cb_publish_hotwater_state cmd))
        end
      else LOG WARNING "Invalid hotwater payload: %s"
    else ret tt
  else
    zs <- get zones ;;
    on_message_zones topic payload zs.

(** [publish_states], in its two steps: the test-and-set of
    [_poll_pending] under [_poll_pending_lock], which tells whether to go
    on, and the [enqueue_task] that follows once that lock is released. *)
Definition try_start_poll : M bool :=
  pending <- get _poll_pending ;;
  if pending then ret false
  else modify (set_poll_pending true) ;; ret true.

Definition enqueue_poll : M unit :=
  enqueue_task PRIORITY_POLL poll_all "Poll all thermostats" true None.

Definition publish_states : M unit :=
  go <- try_start_poll ;;
  if go then enqueue_poll else ret tt.

(* ------------------------------------------------------------------ *)
(** ** Construction                                                     *)
(* ------------------------------------------------------------------ *)

(** [{z['name']: z for z in zones}]. *)
Definition zones_by_name (zone_list : list (string * zone)) : dict zone :=
  fold_left (fun acc nz => dict_set acc (fst nz) (snd nz)) zone_list [].

(** The loop of [__init__] that picks [hotwaterThermostat]: the last zone
    whose id is the hot-water zone id. *)
Definition pick_hotwater (zs : dict zone) (hw : option hotwater_cfg)
  : option string :=
  fold_left
    (fun acc nz =>
       match hw with
       | Some h => if (zone_id (snd nz) =? hw_zone_id h)%Z
                   then Some (fst nz) else acc
       | None => acc
       end)
    zs None.

(** The bridge as [__init__] leaves it, before any message or poll; the
    discovery messages it publishes are not recorded. *)
Definition __init__ (zone_list : list (string * zone))
           (hw : option hotwater_cfg)
           (script : nat -> reply) (opens : nat -> bool) : bridge :=
  let zs := zones_by_name zone_list in
  {| zones := zs;
     hotwater := hw;
     hotwaterThermostat := pick_hotwater zs hw;
     hm_lock := threading_Lock;
     hm_conn := {| status := opens 0; serial_no := 0 |};
     task_queue := [];
     _counter := 0;
     _poll_pending := false;
     uh1_script := script;
     uh1_calls := 0;
     port_opens := opens;
     trace := [] |}.

(* ------------------------------------------------------------------ *)
(** ** The threads together                                             *)
(* ------------------------------------------------------------------ *)

(** Where [state_loop] stands inside [publish_states]. *)
Inductive poller_pc :=
| poller_idle          (* outside publish_states *)
| poller_flag_set.     (* has set _poll_pending, has yet to enqueue *)

(** Where the worker stands in a turn.  [pending] is the exception, if
    any, that the [finally] block will let through once it is over. *)
Inductive worker_pc :=
| worker_waiting                (* in task_queue.get() *)
| worker_has (e : entry)        (* got [e], in the try block *)
| worker_tried (e : entry) (pending : option exn)
                                (* try block over, finally block not begun *)
| worker_cleared (e : entry) (pending : option exn)
                                (* flag cleared; task_done and sleep to come *)
| worker_stuck (e : entry)      (* parked for ever while handling [e] *)
| worker_dead.                  (* an exception left the loop *)

Record system := {
  obj : bridge;
  state_loop : poller_pc;
  worker : worker_pc
}.

(** Interleavings of the poll timer ([state_loop]), the MQTT thread
    ([on_message]) and the worker.  The shared data are the queue, the
    counter and the poll flag.  [publish_states] sets the flag in one
    step and enqueues in another.  A turn of the worker is four steps:
    the [get]; the [try] block, which touches none of the shared data
    (so that where the other threads run in the course of it makes no
    difference to them); the clearing of the flag; the rest of the
    [finally] block.  [enqueue_task] is one step: what is said of the
    flag does not depend on the sequence numbers. *)
Inductive step : system -> system -> Prop :=
| step_poll_busy : forall s b',
    state_loop s = poller_idle ->
    try_start_poll (obj s) = (Ret false, b') ->
    step s {| obj := b'; state_loop := poller_idle; worker := worker s |}
| step_poll_set : forall s b',
    state_loop s = poller_idle ->
    try_start_poll (obj s) = (Ret true, b') ->
    step s {| obj := b'; state_loop := poller_flag_set; worker := worker s |}
| step_poll_enqueue : forall s r b',
    state_loop s = poller_flag_set ->
    enqueue_poll (obj s) = (r, b') ->
    step s {| obj := b'; state_loop := poller_idle; worker := worker s |}
| step_message : forall s topic raw r b',
    on_message topic raw (obj s) = (r, b') ->
    step s {| obj := b'; state_loop := state_loop s; worker := worker s |}
| step_worker_get : forall s e q',
    worker s = worker_waiting ->
    queue_get (task_queue (obj s)) = Some (e, q') ->
    step s {| obj := set_task_queue q' (obj s); state_loop := state_loop s;
              worker := worker_has e |}
| step_worker_try : forall s e b',
    worker s = worker_has e ->
    worker_attempt e (obj s) = (Ret tt, b') ->
    step s {| obj := b'; state_loop := state_loop s;
              worker := worker_tried e None |}
| step_worker_raise : forall s e x b',
    worker s = worker_has e ->
    worker_attempt e (obj s) = (Raise x, b') ->
    step s {| obj := b'; state_loop := state_loop s;
              worker := worker_tried e (Some x) |}
| step_worker_stuck : forall s e b',
    worker s = worker_has e ->
    worker_attempt e (obj s) = (Block, b') ->
    step s {| obj := b'; state_loop := state_loop s; worker := worker_stuck e |}
| step_worker_clear : forall s e pending b',
    worker s = worker_tried e pending ->
    worker_clear_flag e (obj s) = (Ret tt, b') ->
    step s {| obj := b'; state_loop := state_loop s;
              worker := worker_cleared e pending |}
| step_worker_done : forall s e b',
    worker s = worker_cleared e None ->
    worker_close e (obj s) = (Ret tt, b') ->
    step s {| obj := b'; state_loop := state_loop s; worker := worker_waiting |}
| step_worker_crash : forall s e x r b',
    worker s = worker_cleared e (Some x) ->
    worker_close e (obj s) = (r, b') ->
    step s {| obj := b'; state_loop := state_loop s; worker := worker_dead |}.

Definition start (zone_list : list (string * zone)) (hw : option hotwater_cfg)
           (script : nat -> reply) (opens : nat -> bool) : system :=
  {| obj := __init__ zone_list hw script opens;
     state_loop := poller_idle;
     worker := worker_waiting |}.

Inductive reachable : system -> Prop :=
| reach_start : forall zone_list hw script opens,
    reachable (start zone_list hw script opens)
| reach_step : forall s s', reachable s -> step s s' -> reachable s'.

Definition is_poll_entry (e : entry) : bool := (priority e =? PRIORITY_POLL)%Z.

(** Poll-priority tasks that are enqueued or with the worker. *)
Definition polls_queued (s : system) : nat :=
  List.length (filter is_poll_entry (task_queue (obj s))).

Definition polls_executing (s : system) : nat :=
  match worker s with
  | worker_has e | worker_tried e _ | worker_cleared e _ | worker_stuck e =>
      if is_poll_entry e then 1 else 0
  | _ => 0
  end.

(** Those of them for which the worker has not yet cleared the flag. *)
Definition polls_uncleared (s : system) : nat :=
  match worker s with
  | worker_has e | worker_tried e _ | worker_stuck e =>
      if is_poll_entry e then 1 else 0
  | _ => 0
  end.

(** The worker is in the rest of the [finally] block of a Poll task. *)
Definition closing_a_poll (s : system) : Prop :=
  exists e pending,
    worker s = worker_cleared e pending /\ is_poll_entry e = true.

Definition polls_in_flight (s : system) : nat :=
  polls_queued s + polls_executing s.

(* ------------------------------------------------------------------ *)
(** ** Observations on a run                                            *)
(* ------------------------------------------------------------------ *)

(** Repeated [get] until the queue is empty. *)
Fixpoint drain (turns : nat) (q : list entry) : list entry :=
  match turns with
  | O => []
  | S n =>
      match queue_get q with
      | None => []
      | Some (e, q') => e :: drain n q'
      end
  end.

Definition dequeue_order (q : list entry) : list entry :=
  drain (List.length q) q.

(** A producer's request, and a schedule of requests and worker [get]s. *)
Inductive queue_op :=
| Put (prio : Z) (t : task)
| Get.

(** Runs a schedule; every [Get] that finds a task records it together
    with what it left pending. *)
Fixpoint run_schedule (ops : list queue_op) (b : bridge)
  : list (entry * list entry) * bridge :=
  match ops with
  | [] => ([], b)
  | Put prio t :: ops' =>
      run_schedule ops'
        (snd (enqueue_task prio (func t) (desc t) (is_poll t) (callback t) b))
  | Get :: ops' =>
      match queue_get (task_queue b) with
      | None => run_schedule ops' b
      | Some (e, q') =>
          let (out, b') := run_schedule ops' (set_task_queue q' b) in
          ((e, q') :: out, b')
      end
  end.

(** How many requests a schedule holds. *)
Definition puts_in (ops : list queue_op) : nat :=
  List.length (filter (fun o => match o with
                                | Put _ _ => true
                                | Get => false
                                end) ops).

Definition put_all (reqs : list (Z * task)) : list queue_op :=
  map (fun r => Put (fst r) (snd r)) reqs.

Definition entry_lt (a b : entry) : Prop := entry_ltb a b = true.

(** Counts in the queue are pairwise distinct and below [_counter]. *)
Definition counts_fresh (q : list entry) (n : nat) : Prop :=
  NoDup (map count q) /\ Forall (fun e => count e < n) q.

(** The entries that a batch of requests becomes, from count [c] on. *)
Fixpoint entries_from (c : nat) (reqs : list (Z * task)) : list entry :=
  match reqs with
  | [] => []
  | (p, t) :: reqs' =>
      {| priority := p; count := c; body := t |} :: entries_from (S c) reqs'
  end.

(** The events a computation adds to the trace. *)
Definition calls_in (evs : list event) : nat :=
  List.length (filter (fun ev => match ev with EvCall _ _ _ => true | _ => false end) evs).

Definition reconnects_in (evs : list event) : nat :=
  List.length (filter (fun ev => match ev with EvReconnect _ => true | _ => false end) evs).

Definition published (evs : list event) : list (string * pyval) :=
  flat_map (fun ev => match ev with
                      | EvPublish t v _ => [(t, v)]
                      | _ => []
                      end) evs.

(** The lines logged at level ERROR. *)
Definition error_logs (evs : list event) : list event :=
  filter (fun ev => match ev with
                    | EvLog ERROR _ => true
                    | _ => false
                    end) evs.

(** The zone whose branch of [on_message] takes the message, if any. *)
Fixpoint first_zone (topic : string) (zs : dict zone) : option string :=
  match zs with
  | [] => None
  | (name, _) :: rest =>
      if startswith topic ("home/heatmiser/" ++ name ++ "/set/")
      then Some name else first_zone topic rest
  end.

Definition handled_by (topic : string) (b : bridge) : option string :=
  if startswith topic "home/heatmiser/hotwater/set/" && is_some (hotwater b)
  then None
  else first_zone topic (zones b).

(* ------------------------------------------------------------------ *)
(** ** The rest of the bridge                                           *)
(* ------------------------------------------------------------------ *)

(** [on_connect]: the topic filters it subscribes to, in order. *)
Definition on_connect (b : bridge) : list string :=
  map (fun nz => ("home/heatmiser/" ++ fst nz ++ "/set/#")%string) (zones b)
  ++ (if is_some (hotwater b) then ["home/heatmiser/hotwater/set/#"] else []).

(** A topic under a filter that ends in the multi-level wildcard. *)
Definition under_filter (filter topic : string) : Prop :=
  exists pre, filter = (pre ++ "#")%string /\ startswith topic pre = true.

(** The payload word of a hot-water state. *)
Definition hw_word (st : HotWaterWriteState) : string :=
  match st with
  | HW_ON => "ON"
  | HW_OFF => "OFF"
  end.

(** [n] firings of the poll timer in a row. *)
Fixpoint poll_triggers (n : nat) (b : bridge) : bridge :=
  match n with
  | O => b
  | S n' => poll_triggers n' (snd (publish_states b))
  end.

(** The entry that [publish_states] enqueues. *)
Definition poll_entry (c : nat) : entry :=
  {| priority := PRIORITY_POLL; count := c;
     body := {| func := poll_all; desc := "Poll all thermostats";
                is_poll := true; callback := None |} |}.

(** What a producer may do to the bridge: log, and enqueue at most one
    command with the next sequence number. *)
Definition produced (b b' : bridge) : Prop :=
  hm_lock b' = hm_lock b
  /\ hm_conn b' = hm_conn b
  /\ uh1_calls b' = uh1_calls b
  /\ _poll_pending b' = _poll_pending b
  /\ (exists evs, trace b' = trace b ++ evs /\ published evs = [])
  /\ ((task_queue b' = task_queue b /\ _counter b' = _counter b)
      \/ exists e, task_queue b' = task_queue b ++ [e]
                   /\ priority e = PRIORITY_COMMAND
                   /\ is_poll (body e) = false
                   /\ count e = _counter b
                   /\ _counter b' = S (_counter b)).

(** The operations called, in order, and the number of [task_done]s. *)
Definition ops_called (evs : list event) : list operation :=
  flat_map (fun ev => match ev with
                      | EvCall op _ _ => [op]
                      | _ => []
                      end) evs.

Definition task_dones (evs : list event) : nat :=
  List.length (filter (fun ev => match ev with
                                 | EvTaskDone => true
                                 | _ => false
                                 end) evs).

(** The lines logged at level WARNING. *)
Definition warning_logs (evs : list event) : list event :=
  filter (fun ev => match ev with
                    | EvLog WARNING _ => true
                    | _ => false
                    end) evs.

(** [b'] differs from [b] in its trace only. *)
Definition only_trace (b b' : bridge) : Prop := b' = set_trace (trace b') b.

(** The trace has grown by events that are neither publishes, nor calls,
    nor [task_done]s, nor errors or warnings logged. *)
Definition silent (b b' : bridge) : Prop :=
  published (trace b') = published (trace b)
  /\ ops_called (trace b') = ops_called (trace b)
  /\ task_dones (trace b') = task_dones (trace b)
  /\ error_logs (trace b') = error_logs (trace b)
  /\ warning_logs (trace b') = warning_logs (trace b).

(** The state in which the body of [with self.hm_lock:] starts when the
    lock was free, and the state its release leaves. *)
Definition acquired (b : bridge) : bridge :=
  set_trace (trace b ++ [EvAcquire])
    (set_hm_lock {| reentrant := reentrant (hm_lock b); depth := 1 |} b).

Definition released (b : bridge) : bridge := snd (release b).

(** The state in which [func] runs once [run_func] has recorded the call
    and the hub has replied. *)
Definition called (op : operation) (b : bridge) : bridge :=
  set_uh1_calls (S (uh1_calls b))
    (set_trace (trace b ++ [EvCall op (uh1_calls b) (depth (hm_lock b))]) b).

(** The messages of one zone on the batch path. *)
Definition zone_messages (name : string) (z : zone) (r : reading)
  : list (string * pyval) :=
  [ (state_topic name "temperature", poll_temperature z r);
    (state_topic name "target", target_temp r);
    (state_topic name "mode", VStr (derive_mode r));
    (state_topic name "action", VStr (derive_action r)) ].

(** The hot-water message of the batch path, if any. *)
Definition hot_water_message (b : bridge) (snapshot : string -> reading)
  : list (string * pyval) :=
  match hotwater b, hotwaterThermostat b with
  | Some _, Some t =>
      [(hotwater_state_topic, VStr (upper (hotwater_state (snapshot t))))]
  | _, _ => []
  end.

(** What [poll_all] returns for the zones [zs]. *)
Definition zone_results (zs : dict zone) (snapshot : string -> reading)
  : dict (dict pyval) :=
  map (fun nz => (fst nz, poll_zone_result (snd nz) (snapshot (fst nz)))) zs.

(** The state in which the worker calls [with_lock]. *)
Definition announced (b : bridge) : bridge :=
  set_trace (trace b ++ [EvLog DEBUG "Executing task: %s [%s]"]) b.

(** The hub answers every exchange. *)
Definition hub_answers (b : bridge) : Prop :=
  forall n, exists snapshot, uh1_script b n = Reads snapshot.

(* ------------------------------------------------------------------ *)
(** ** Vocabulary for the properties                                   *)
(* ------------------------------------------------------------------ *)

(** [ensures I W m]: from a state in [I], [m] ends in a state in [I] when
    it returns or raises, and in a state in [W] when it blocks. *)
Definition ensures {A} (I W : bridge -> Prop) (m : M A) : Prop :=
  forall b, I b ->
            match fst (m b) with
            | Block => W (snd (m b))
            | _ => I (snd (m b))
            end.

(** [never_raises m]: [m] returns or blocks. *)
Definition never_raises {A} (m : M A) : Prop :=
  forall b x, fst (m b) <> Raise x.

(** The trace has grown from [t0] by events that all satisfy [P]. *)
Definition trace_grown (t0 : list event) (P : event -> Prop) (b : bridge)
  : Prop :=
  exists evs, trace b = t0 ++ evs /\ Forall P evs.

(** ... and [hm_lock] is held [d] times. *)
Definition grown (t0 : list event) (P : event -> Prop) (d : nat)
           (b : bridge) : Prop :=
  trace_grown t0 P b /\ depth (hm_lock b) = d.

(** Everything but the trace, the exchange counter, the connection and
    the depth of the lock is as in [b0]. *)
Definition untouched (b0 b : bridge) : Prop :=
  zones b = zones b0
  /\ hotwater b = hotwater b0
  /\ hotwaterThermostat b = hotwaterThermostat b0
  /\ task_queue b = task_queue b0
  /\ _counter b = _counter b0
  /\ _poll_pending b = _poll_pending b0
  /\ uh1_script b = uh1_script b0
  /\ port_opens b = port_opens b0
  /\ reentrant (hm_lock b) = reentrant (hm_lock b0).

(** A retry-delay sleep or a call of [reconnect] that happens while
    [hm_lock] is held; any other event. *)
Definition under_lock (ev : event) : Prop :=
  match ev with
  | EvSleep retry_delay _ held => 1 <= held
  | EvReconnect held => 1 <= held
  | _ => True
  end.

(** [b'] is [b] after [k] more exchanges with the hub and no call of
    [reconnect]: the lock is as before, the connection too. *)
Definition exchanged (k : nat) (b b' : bridge) : Prop :=
  untouched b b'
  /\ depth (hm_lock b') = depth (hm_lock b)
  /\ hm_conn b' = hm_conn b
  /\ uh1_calls b' = uh1_calls b + k
  /\ exists evs, trace b' = trace b ++ evs
                 /\ calls_in evs = k /\ reconnects_in evs = 0
                 /\ published evs = [] /\ error_logs evs = [].

(** The reply to the [i]-th next exchange is a transport error. *)
Definition transport_fails_at (b : bridge) (i : nat) : Prop :=
  exists x, uh1_script b (uh1_calls b + i) = Fails x
            /\ is_transport_error x = true.

(** A bridge with one floor-sensor zone and no hot water, and hub
    scripts for it. *)
Definition lounge : zone :=
  {| zone_id := 1; zone_type := "prt"; sensor_type := Some "floor" |}.

Definition lounge_reading : reading :=
  {| air_temp := VInt 20; floor_temp := VInt 25; target_temp := VInt 21;
     run_mode := "heat"; current_state := true; hotwater_state := "off" |}.

(** The hub fails the first [n] exchanges with an I/O error and answers
    from then on. *)
Definition fails_first (n : nat) : nat -> reply :=
  fun i => if (i <? n)%nat then Fails (OSError "write timeout")
           else Reads (fun _ => lounge_reading).

Definition lounge_bridge (script : nat -> reply) : bridge :=
  __init__ [("lounge", lounge)] None script (fun _ => true).

(** The hub fails the first exchange with an I/O error and rejects the
    second with an error that is not a transport error. *)
Definition fails_then_rejects : nat -> reply :=
  fun i => if (i <? 1)%nat then Fails (OSError "write timeout")
           else Fails (ValueError "bad frame").

(** The bridge after two commands have arrived and before the worker has
    taken either. *)
Definition two_commands_queued (script : nat -> reply) : bridge :=
  snd ((on_message "home/heatmiser/lounge/set/target" "21" ;;
        on_message "home/heatmiser/lounge/set/mode" "off")
         (lounge_bridge script)).

(** The scheduler's data: the queue, the counter and the poll flag. *)
Definition scheduler_is (q : list entry) (c : nat) (p : bool) (b : bridge)
  : Prop :=
  task_queue b = q /\ _counter b = c /\ _poll_pending b = p.

(** A poll trigger that has set the flag and has yet to enqueue. *)
Definition poll_window (s : system) : nat :=
  match state_loop s with
  | poller_flag_set => 1
  | poller_idle => 0
  end.

(** [is_poll] is set on exactly the Poll-priority entries. *)
Definition tagged (e : entry) : Prop := is_poll (body e) = is_poll_entry e.

Definition coalesced (s : system) : Prop :=
  Forall tagged (task_queue (obj s))
  /\ match worker s with
     | worker_has e | worker_tried e _ | worker_cleared e _
     | worker_stuck e => tagged e
     | _ => True
     end
  /\ polls_queued s + polls_uncleared s + poll_window s
     = (if _poll_pending (obj s) then 1 else 0).

(** What a message handler may do to the scheduler's data: nothing, or
    append one command. *)
Definition command_outcome (b b' : bridge) : Prop :=
  _poll_pending b' = _poll_pending b
  /\ (task_queue b' = task_queue b
      \/ exists e, task_queue b' = task_queue b ++ [e]
                   /\ priority e = PRIORITY_COMMAND
                   /\ is_poll (body e) = false
                   /\ count e = _counter b).

(** The poll timer has fired once on a fresh bridge: first the flag, then
    the task. *)
Definition poll_flagged : system :=
  {| obj := set_poll_pending true (lounge_bridge (fails_first 0));
     state_loop := poller_flag_set;
     worker := worker_waiting |}.

Definition poll_enqueued : system :=
  {| obj := snd (enqueue_poll (obj poll_flagged));
     state_loop := poller_idle;
     worker := worker_waiting |}.

(** The worker takes that poll, runs it and clears the flag; before it
    has called [task_done], the timer fires again: flag, then task. *)
Definition poll_taken : system :=
  {| obj := set_task_queue [] (obj poll_enqueued);
     state_loop := poller_idle;
     worker := worker_has (poll_entry 0) |}.

Definition poll_tried : system :=
  {| obj := snd (worker_attempt (poll_entry 0) (obj poll_taken));
     state_loop := poller_idle;
     worker := worker_tried (poll_entry 0) None |}.

Definition poll_cleared : system :=
  {| obj := snd (worker_clear_flag (poll_entry 0) (obj poll_tried));
     state_loop := poller_idle;
     worker := worker_cleared (poll_entry 0) None |}.

Definition poll_flagged_again : system :=
  {| obj := set_poll_pending true (obj poll_cleared);
     state_loop := poller_flag_set;
     worker := worker_cleared (poll_entry 0) None |}.

Definition second_poll_enqueued : system :=
  {| obj := snd (enqueue_poll (obj poll_flagged_again));
     state_loop := poller_idle;
     worker := worker_cleared (poll_entry 0) None |}.

(** The batch path on its own: [poll_all], then [_publish_poll_results]
    on what it returned. *)
Definition poll_and_publish : M unit :=
  r <- run_func poll_all ;;
  match r with
  | RDict results => _publish_poll_results results
  | RNone => ret tt
  end.

(** While the worker runs a callback or publishes: the configuration,
    the scheduler's data and the lock are as in [b0], and no operation is
    called and no task marked done. *)
Definition publishing (b0 b : bridge) : Prop :=
  untouched b0 b
  /\ hm_lock b = hm_lock b0
  /\ ops_called (trace b) = ops_called (trace b0)
  /\ task_dones (trace b) = task_dones (trace b0).

(** Never reached: a computation that ensures it when it blocks does not
    block. *)
Definition nowhere (b : bridge) : Prop := False.

(** The bridge after two commands and a poll trigger, the poll first. *)
Definition poll_then_two_commands (script : nat -> reply) : bridge :=
  snd ((publish_states ;;
        on_message "home/heatmiser/lounge/set/target" "21" ;;
        on_message "home/heatmiser/lounge/set/mode" "off")
         (lounge_bridge script)).

(* ================================================================== *)
(** * [heatmiserv3/connection.py]: the serial connection to the hub     *)
(* ================================================================== *)

(** [HeatmiserUH1] in full, over a model of what [pyserial] and the
    operating system do.  The methods are written in state-passing
    style: the object, and a [world] that counts the calls of
    [Serial.open] and [Serial.close] and collects the log. *)
Module Connection.

(** The exceptions that occur. [SerialException] is what [pyserial]
    raises. *)
Inductive raised :=
| SerialException (msg : string)
| TypeError (msg : string)
| ValueError (msg : string)
| AttributeError (msg : string)
| OtherException (msg : string).

(** [heatmiserv3/constants.py]. *)
Record com_constants := {
  COM_BAUD : Z;
  COM_SIZE : pyval;
  COM_PARITY : pyval;
  COM_STOP : pyval;
  COM_TIMEOUT : pyval
}.

(** A [serial.Serial] object (or what [serial_for_url] returns). *)
Record Serial := {
  port : option string;
  is_open : bool;
  baudrate : Z;
  bytesize : pyval;
  parity : pyval;
  stopbits : pyval;
  timeout : pyval
}.

(** A port object as [pyserial] creates it: 9600 baud, 8 bits, no
    parity, one stop bit, no timeout. *)
Definition new_Serial (port : option string) (is_open : bool) : Serial :=
  {| port := port; is_open := is_open; baudrate := 9600;
     bytesize := VInt 8; parity := VStr "N"; stopbits := VInt 1;
     timeout := VNone |}.

Definition set_is_open (o : bool) (p : Serial) : Serial :=
  {| port := port p; is_open := o; baudrate := baudrate p;
     bytesize := bytesize p; parity := parity p; stopbits := stopbits p;
     timeout := timeout p |}.

Definition set_port (d : string) (p : Serial) : Serial :=
  {| port := Some d; is_open := is_open p; baudrate := baudrate p;
     bytesize := bytesize p; parity := parity p; stopbits := stopbits p;
     timeout := timeout p |}.

Definition set_baudrate (v : Z) (p : Serial) : Serial :=
  {| port := port p; is_open := is_open p; baudrate := v;
     bytesize := bytesize p; parity := parity p; stopbits := stopbits p;
     timeout := timeout p |}.

Definition set_bytesize (v : pyval) (p : Serial) : Serial :=
  {| port := port p; is_open := is_open p; baudrate := baudrate p;
     bytesize := v; parity := parity p; stopbits := stopbits p;
     timeout := timeout p |}.

Definition set_parity (v : pyval) (p : Serial) : Serial :=
  {| port := port p; is_open := is_open p; baudrate := baudrate p;
     bytesize := bytesize p; parity := v; stopbits := stopbits p;
     timeout := timeout p |}.

Definition set_stopbits (v : pyval) (p : Serial) : Serial :=
  {| port := port p; is_open := is_open p; baudrate := baudrate p;
     bytesize := bytesize p; parity := parity p; stopbits := v;
     timeout := timeout p |}.

Definition set_timeout (v : pyval) (p : Serial) : Serial :=
  {| port := port p; is_open := is_open p; baudrate := baudrate p;
     bytesize := bytesize p; parity := parity p; stopbits := stopbits p;
     timeout := v |}.

(** What the platform does: whether [serial_for_url] takes
    [do_not_open], what it returns, what the assignment of a value to an
    attribute of a port raises ([pyserial] checks the values it is
    given), and how the successive calls of [Serial.open] and
    [Serial.close] end ([None]: normally). *)
Record pyserial := {
  serial_for_url_do_not_open : string -> option raised;
  serial_for_url : string -> raised + bool;   (* the object's [is_open] *)
  setter_raises : string -> pyval -> option raised;
  open_script : nat -> option raised;
  close_script : nat -> option raised
}.

Record world := {
  opens : nat;
  closes : nat;
  log : list (level * string)
}.

Definition logging (lvl : level) (msg : string) (w : world) : world :=
  {| opens := opens w; closes := closes w; log := log w ++ [(lvl, msg)] |}.

(** An object handed to [registerThermostat]: it has an [address]
    attribute or not. *)
Record device_object := {
  address : option Z;
  model : string
}.

(** The [port] argument: an [int] or a [str]. *)
Inductive port_arg :=
| PortInt (z : Z)
| PortStr (s : string).

Record HeatmiserUH1 := {
  thermostats : list (Z * device_object);
  status : bool;
  _serport : option Serial;
  mode : string;
  _baudrate : Z;
  _mode : string
}.

Definition set_status (s : bool) (self : HeatmiserUH1) : HeatmiserUH1 :=
  {| thermostats := thermostats self; status := s;
     _serport := _serport self; mode := mode self;
     _baudrate := _baudrate self; _mode := _mode self |}.

Definition set_serport (p : option Serial) (self : HeatmiserUH1)
  : HeatmiserUH1 :=
  {| thermostats := thermostats self; status := status self;
     _serport := p; mode := mode self;
     _baudrate := _baudrate self; _mode := _mode self |}.

Definition set_thermostats (t : list (Z * device_object))
           (self : HeatmiserUH1) : HeatmiserUH1 :=
  {| thermostats := t; status := status self;
     _serport := _serport self; mode := mode self;
     _baudrate := _baudrate self; _mode := _mode self |}.

(** Truth values of the arguments, and [str] of them in the f-string. *)
Definition truthy (s : option string) : bool :=
  match s with
  | Some s => negb (String.eqb s "")
  | None => false
  end.

Definition truthy_port (p : option port_arg) : bool :=
  match p with
  | Some (PortInt z) => negb (z =? 0)%Z
  | Some (PortStr s) => negb (String.eqb s "")
  | None => false
  end.

Definition str (s : option string) : string :=
  match s with
  | Some s => s
  | None => "None"
  end.

Definition str_port (p : option port_arg) : string :=
  match p with
  | Some (PortInt z) => str_of_int z
  | Some (PortStr s) => s
  | None => "None"
  end.

(** [thermostats[a]], and [a in thermostats.keys()]. *)
Fixpoint lookup (ts : list (Z * device_object)) (a : Z)
  : option device_object :=
  match ts with
  | [] => None
  | (a', t) :: ts' => if (a' =? a)%Z then Some t else lookup ts' a
  end.

Definition has_key (ts : list (Z * device_object)) (a : Z) : bool :=
  match lookup ts a with
  | Some _ => true
  | None => false
  end.

Section Methods.

Variable constants : com_constants.
Variable env : pyserial.

(** [Serial.open()] and [Serial.close()]. *)
Definition Serial_open (p : Serial) (w : world)
  : option raised * Serial * world :=
  let w' := {| opens := S (opens w); closes := closes w; log := log w |} in
  match open_script env (opens w) with
  | None => (None, set_is_open true p, w')
  | Some e => (Some e, p, w')
  end.

Definition Serial_close (p : Serial) (w : world)
  : option raised * Serial * world :=
  let w' := {| opens := opens w; closes := S (closes w); log := log w |} in
  match close_script env (closes w) with
  | None => (None, set_is_open false p, w')
  | Some e => (Some e, p, w')
  end.

(** [p.name = v]: the assignment is made unless the setter raises. *)
Definition assign (name : string) (v : pyval) (update : Serial -> Serial)
           (r : option raised * Serial) : option raised * Serial :=
  match r with
  | (None, p) =>
      match setter_raises env name v with
      | Some e => (Some e, p)
      | None => (None, update p)
      end
  | failed => failed
  end.

(** The five assignments that configure a port, in the order of the
    source; the first that raises ends them. *)
Definition configure (baud : Z) (p : Serial) : option raised * Serial :=
  assign "timeout" (COM_TIMEOUT constants) (set_timeout (COM_TIMEOUT constants))
    (assign "stopbits" (COM_STOP constants) (set_stopbits (COM_STOP constants))
       (assign "parity" (COM_PARITY constants)
               (set_parity (COM_PARITY constants))
          (assign "bytesize" (COM_SIZE constants)
                  (set_bytesize (COM_SIZE constants))
             (assign "baudrate" (VInt baud) (set_baudrate baud)
                     (None, p))))).

Definition _open (self : HeatmiserUH1) (w : world)
  : bool * HeatmiserUH1 * world :=
  match _serport self with
  | None =>
      (false, self,
       logging ERROR "No serial port object available to open." w)
  | Some p =>
      if negb (status self)
      then
        match Serial_open p (logging INFO "Opening serial port (%s)." w) with
        | (None, p', w') =>
            (true, set_status true (set_serport (Some p') self),
             logging INFO "Serial port opened successfully." w')
        | (Some (SerialException _), p', w') =>
            (false, set_status false (set_serport (Some p') self),
             logging ERROR "SerialException while opening port: %s" w')
        | (Some _, p', w') =>
            (false, set_status false (set_serport (Some p') self),
             logging ERROR "Unexpected error opening serial port: %s" w')
        end
      else
        (false, self, logging INFO "Attempting to access already open port" w)
  end.

Definition reopen (self : HeatmiserUH1) (w : world)
  : bool * HeatmiserUH1 * world :=
  if negb (status self)
  then _open self w
  else (false, self, logging ERROR "Cannot open serial port: already open" w).

Definition close (self : HeatmiserUH1) (w : world)
  : bool * HeatmiserUH1 * world :=
  match _serport self with
  | Some p =>
      if is_open p
      then
        match Serial_close p (logging INFO "Closing serial port." w) with
        | (None, p', w') =>
            (true, set_status false (set_serport (Some p') self), w')
        | (Some (SerialException _), p', w') =>
            (false, set_serport (Some p') self,
             logging ERROR "Error while closing serial port: %s" w')
        | (Some _, p', w') =>
            (false, set_serport (Some p') self,
             logging ERROR "Unexpected error while closing serial port: %s" w')
        end
      else (true, set_status false self, w)
  | None => (true, set_status false self, w)
  end.

(** The body of the [try] of [registerThermostat]: reading
    [thermostat.address] raises for an object that has none, a known
    address raises [ValueError], a new one is entered. *)
Definition register (self : HeatmiserUH1) (t : device_object)
  : raised + HeatmiserUH1 :=
  match address t with
  | None => inl (AttributeError "object has no attribute 'address'")
  | Some a =>
      if has_key (thermostats self) a
      then inl (ValueError "Key already present")
      else inr (set_thermostats (thermostats self ++ [(a, t)]) self)
  end.

Definition class_name (e : raised) : string :=
  match e with
  | SerialException _ => "SerialException"
  | TypeError _ => "TypeError"
  | ValueError _ => "ValueError"
  | AttributeError _ => "AttributeError"
  | OtherException _ => "Exception"
  end.

(** [e.message]: an exception has no such attribute, so reading it
    raises in its turn. *)
Definition message (e : raised) : raised + string :=
  inl (AttributeError
         ("'" ++ class_name e ++ "' object has no attribute 'message'")).

(** [registerThermostat]: [except ValueError: pass], and
    [except Exception as e] with its two log lines, of which the second
    reads [e.message]; an exception raised there leaves the method. *)
Definition registerThermostat (self : HeatmiserUH1) (t : device_object)
           (w : world)
  : (raised + option Serial) * HeatmiserUH1 * world :=
  match register self t with
  | inr self' => (inr (_serport self'), self', w)
  | inl (ValueError _) => (inr (_serport self), self, w)
  | inl e =>
      let w := logging INFO "You're not adding a HeatmiiserThermostat Object"
                       w in
      match message e with
      | inl e' => (inl e', self, w)
      | inr m => (inr (_serport self), self, logging INFO m w)
      end
  end.

Definition listThermostats (self : HeatmiserUH1)
  : option (list (Z * device_object)) :=
  match thermostats self with
  | [] => None
  | ts => Some ts
  end.

(** The mode that [__init__] selects; [None] where it raises. *)
Definition chosen (device ipaddress : option string)
           (port : option port_arg) (url : option string) (mode : string)
  : option string :=
  if String.eqb mode "device" then Some "device"
  else if String.eqb mode "socket" then Some "socket"
  else if truthy device then Some "device"
  else if truthy url || (truthy ipaddress && truthy_port port)
       then Some "socket"
       else None.

(** The body of the outer [try] of [__init__], up to the call of
    [_open]: the port object is created, bound to [_serport] and
    configured.  [Some e] is an exception on its way to the outer
    handler. *)
Definition create_port (device ipaddress : option string)
           (port : option port_arg) (url : option string)
           (self : HeatmiserUH1) (w : world)
  : option raised * HeatmiserUH1 * world :=
  let configured_in (r : option raised * Serial) (w : world) :=
    (fst r, set_serport (Some (snd r)) self, w) in
  if String.eqb (_mode self) "socket"
  then
    let url := if negb (truthy url)
               then ("socket://" ++ str ipaddress ++ ":" ++ str_port port)%string
               else str url in
    match serial_for_url_do_not_open env url with
    | None =>
        configured_in (configure (_baudrate self) (new_Serial (Some url) false))
                      w
    | Some (TypeError _) =>
        match serial_for_url env url with
        | inl e => (Some e, self, w)
        | inr opened =>
            let p := new_Serial (Some url) opened in
            if opened
            then
              match Serial_close p w with
              | (None, p', w') =>
                  configured_in (configure (_baudrate self) p') w'
              | (Some e, p', w') => (Some e, set_serport (Some p') self, w')
              end
            else configured_in (configure (_baudrate self) p) w
        end
    | Some e => (Some e, self, w)
    end
  else
    if negb (truthy device)
    then (Some (ValueError "Device path required for device mode"), self, w)
    else
      configured_in
        (match assign "port" (VStr (str device)) (set_port (str device))
                      (None, new_Serial None false) with
         | (None, p) => configure (_baudrate self) p
         | failed => failed
         end)
        w.

(** "Ensure port not left open": any exception is dropped. *)
Definition close_leftover (self : HeatmiserUH1) (w : world)
  : HeatmiserUH1 * world :=
  match _serport self with
  | Some p =>
      if is_open p
      then
        match Serial_close
                p (logging INFO "Port was left open; closing before proceed." w)
        with
        | (_, p', w') => (set_serport (Some p') self, w')
        end
      else (self, w)
  | None => (self, w)
  end.

Definition __init__ (device ipaddress : option string)
           (port : option port_arg) (url : option string) (mode : string)
           (baudrate : option Z) (w : world)
  : (raised + HeatmiserUH1) * world :=
  match chosen device ipaddress port url mode with
  | None =>
      (inl (ValueError
              "Must provide either device or (ipaddress and port) or url"),
       w)
  | Some m =>
      let self :=
        {| thermostats := []; status := false; _serport := None;
           mode := mode;
           _baudrate := match baudrate with
                        | Some b => b
                        | None => COM_BAUD constants
                        end;
           _mode := m |} in
      let w := logging INFO "HeatmiserUH1 selected mode: %s" w in
      match create_port device ipaddress port url self w with
      | (None, self, w) =>
          let '(self, w) := close_leftover self w in
          let '(_, self, w) := _open self w in
          (inr self, w)
      | (Some e, self, w) =>
          (inr self,
           logging ERROR "Failed to initialize serial connection: %s" w)
      end
  end.

(** A caller's use of a connection: any sequence of method calls. *)
Inductive method :=
| call_open
| call_reopen
| call_close
| call_registerThermostat (t : device_object).

Definition call (m : method) (self : HeatmiserUH1) (w : world)
  : HeatmiserUH1 * world :=
  match m with
  | call_open => let '(_, self, w) := _open self w in (self, w)
  | call_reopen => let '(_, self, w) := reopen self w in (self, w)
  | call_close => let '(_, self, w) := close self w in (self, w)
  | call_registerThermostat t =>
      let '(_, self, w) := registerThermostat self t w in (self, w)
  end.

Fixpoint calls (ms : list method) (self : HeatmiserUH1) (w : world)
  : HeatmiserUH1 * world :=
  match ms with
  | [] => (self, w)
  | m :: ms' => let '(self, w) := call m self w in calls ms' self w
  end.

End Methods.

(** [status] is set only while the port object is open. *)
Definition status_sound (self : HeatmiserUH1) : Prop :=
  status self = true ->
  exists p, _serport self = Some p /\ is_open p = true.

(** The port of a connection is set up as [__init__] was asked to. *)
Definition configured (constants : com_constants) (baud : option Z)
           (p : Serial) : Prop :=
  baudrate p = match baud with
               | Some b => b
               | None => COM_BAUD constants
               end
  /\ bytesize p = COM_SIZE constants
  /\ parity p = COM_PARITY constants
  /\ stopbits p = COM_STOP constants
  /\ timeout p = COM_TIMEOUT constants.

(** Example data: a platform on which everything works, one on which
    the port cannot be opened. *)
Definition sample_constants : com_constants :=
  {| COM_BAUD := 4800; COM_SIZE := VInt 8; COM_PARITY := VStr "N";
     COM_STOP := VInt 1; COM_TIMEOUT := VInt 3 |}.

Definition working : pyserial :=
  {| serial_for_url_do_not_open := fun _ => None;
     serial_for_url := fun _ => inr true;
     setter_raises := fun _ _ => None;
     open_script := fun _ => None;
     close_script := fun _ => None |}.

Definition unplugged : pyserial :=
  {| serial_for_url_do_not_open := fun _ => None;
     serial_for_url := fun _ => inr true;
     setter_raises := fun _ _ => None;
     open_script := fun _ => Some (SerialException "could not open port");
     close_script := fun _ => None |}.

Definition fresh_world : world := {| opens := 0; closes := 0; log := [] |}.

Definition hall : device_object := {| address := Some 1%Z; model := "prt" |}.
Definition landing : device_object :=
  {| address := Some 1%Z; model := "prthw" |}.
Definition stranger : device_object := {| address := None; model := "" |}.

End Connection.

(* ================================================================== *)
(** * Properties                                                        *)
(* ================================================================== *)

(* ------------------------------------------------------------------ *)
(** ** The order of the queue                                           *)
(* ------------------------------------------------------------------ *)

Section QueueOrder.

Ltac order_cases :=
  unfold entry_lt, entry_ltb in *;
  repeat match goal with
         | H : context [(?a <? ?b)%Z] |- _ => destruct (Z.ltb_spec a b)
         | |- context [(?a <? ?b)%Z] => destruct (Z.ltb_spec a b)
         | H : context [(?a =? ?b)%Z] |- _ => destruct (Z.eqb_spec a b)
         | |- context [(?a =? ?b)%Z] => destruct (Z.eqb_spec a b)
         | H : context [(?a <? ?b)%nat] |- _ => destruct (Nat.ltb_spec a b)
         | |- context [(?a <? ?b)%nat] => destruct (Nat.ltb_spec a b)
         end;
  simpl in *; try discriminate; try lia; auto.

Lemma entry_lt_spec (a b : entry) :
  entry_lt a b <->
  (priority a < priority b)%Z
  \/ (priority a = priority b /\ count a < count b).
Proof. split; intros; order_cases. Qed.

Lemma entry_ltb_asym a b : entry_ltb a b = true -> entry_ltb b a = false.
Proof. intros; order_cases. Qed.

(** If [x] is not below [m] and [m] is not below [e], [x] is not below [e]. *)
Lemma entry_ltb_neg_trans x m e :
  entry_ltb x m = false -> entry_ltb m e = false -> entry_ltb x e = false.
Proof. intros; order_cases. Qed.

Lemma entry_ltb_total a b :
  count a <> count b -> entry_ltb a b = false -> entry_ltb b a = true.
Proof. intros; order_cases. Qed.

Lemma queue_get_none q : queue_get q = None -> q = [].
Proof.
  destruct q as [|e q]; simpl; auto.
  destruct (queue_get q) as [[m r]|]; try discriminate.
  destruct (entry_ltb m e); discriminate.
Qed.

Lemma queue_get_perm q : forall m r,
  queue_get q = Some (m, r) -> Permutation q (m :: r).
Proof.
  induction q as [|e q IH]; simpl; intros m r H; try discriminate.
  destruct (queue_get q) as [[m' r']|] eqn:G.
  - specialize (IH _ _ eq_refl).
    destruct (entry_ltb m' e); inversion H; subst; clear H.
    + rewrite IH. apply perm_swap.
    + reflexivity.
  - apply queue_get_none in G. subst. inversion H; subst. reflexivity.
Qed.

Lemma queue_get_length q m r :
  queue_get q = Some (m, r) -> List.length q = S (List.length r).
Proof. intros H. apply queue_get_perm in H. apply (Permutation_length H). Qed.

(** Nothing left behind is below the entry that [get] returns. *)
Lemma queue_get_least q : forall m r,
  queue_get q = Some (m, r) ->
  Forall (fun x => entry_ltb x m = false) r.
Proof.
  induction q as [|e q IH]; simpl; intros m r H; try discriminate.
  destruct (queue_get q) as [[m' r']|] eqn:G.
  - specialize (IH _ _ eq_refl).
    destruct (entry_ltb m' e) eqn:L; inversion H; subst; clear H.
    + constructor.
      * now apply entry_ltb_asym.
      * exact IH.
    + apply queue_get_perm in G.
      eapply Permutation_Forall; [symmetry; exact G|].
      constructor; [exact L|].
      eapply Forall_impl; [|exact IH].
      intros x Hx. simpl in Hx. eapply entry_ltb_neg_trans; eauto.
  - inversion H; subst. constructor.
Qed.

Lemma counts_fresh_nil n : counts_fresh [] n.
Proof. split; constructor. Qed.

Lemma counts_fresh_put q n e :
  counts_fresh q n -> count e = n -> counts_fresh (queue_put e q) (S n).
Proof.
  intros [ND B] E. unfold queue_put. split.
  - rewrite map_app. simpl.
    apply NoDup_app; auto.
    + constructor; [intros []|constructor].
    + intros x Hx [Hy|[]]. subst x.
      apply in_map_iff in Hx. destruct Hx as [e' [Hc He']].
      rewrite Forall_forall in B. specialize (B _ He'). lia.
  - apply Forall_app. split.
    + eapply Forall_impl; [|exact B]. simpl. intros; lia.
    + constructor; [lia|constructor].
Qed.

Lemma counts_fresh_get q n m r :
  counts_fresh q n -> queue_get q = Some (m, r) ->
  counts_fresh r n /\ ~ In (count m) (map count r).
Proof.
  intros [ND B] G. apply queue_get_perm in G.
  assert (P : Permutation (map count q) (count m :: map count r))
    by (apply (Permutation_map count) in G; exact G).
  pose proof (Permutation_NoDup P ND) as ND'.
  inversion ND'; subst.
  repeat split; auto.
  pose proof (Permutation_Forall G B) as B'. now inversion B'.
Qed.

Lemma queue_get_strict q n m r :
  counts_fresh q n -> queue_get q = Some (m, r) -> Forall (entry_lt m) r.
Proof.
  intros F G.
  destruct (counts_fresh_get F G) as [_ NI].
  pose proof (queue_get_least _ G) as L.
  rewrite Forall_forall in *. intros x Hx.
  apply entry_ltb_total; [|now apply L].
  intros E. apply NI. rewrite <- E. now apply in_map.
Qed.

Lemma drain_perm n : forall q,
  List.length q <= n -> Permutation (drain n q) q.
Proof.
  induction n as [|n IH]; intros q Hl.
  - destruct q; simpl in *; [constructor|lia].
  - simpl. destruct (queue_get q) as [[m r]|] eqn:G.
    + pose proof (queue_get_length _ G) as E.
      rewrite (queue_get_perm _ G). constructor. apply IH. lia.
    + apply queue_get_none in G. subst. constructor.
Qed.

Lemma drain_sorted n : forall q c,
  counts_fresh q c -> List.length q <= n ->
  StronglySorted entry_lt (drain n q).
Proof.
  induction n as [|n IH]; intros q c F Hl; simpl; [constructor|].
  destruct (queue_get q) as [[m r]|] eqn:G; [|constructor].
  pose proof (queue_get_length _ G) as E.
  destruct (counts_fresh_get F G) as [F' _].
  constructor.
  - apply (IH r c F'). lia.
  - eapply Permutation_Forall.
    + symmetry. apply drain_perm. lia.
    + exact (queue_get_strict F G).
Qed.

Lemma entries_from_counts reqs : forall c,
  map count (entries_from c reqs) = seq c (List.length reqs).
Proof.
  induction reqs as [|[p t] reqs IH]; intros c; simpl; [reflexivity|].
  now rewrite IH.
Qed.

Lemma entries_from_requests reqs : forall c,
  map (fun e => (priority e, body e)) (entries_from c reqs) = reqs.
Proof.
  induction reqs as [|[p t] reqs IH]; intros c; simpl; [reflexivity|].
  now rewrite IH.
Qed.

Lemma enqueue_task_spec p t b :
  let b' := snd (enqueue_task p (func t) (desc t) (is_poll t) (callback t) b) in
  task_queue b' =
    task_queue b ++ [{| priority := p; count := _counter b; body := t |}]
  /\ _counter b' = S (_counter b).
Proof. destruct t; simpl. split; reflexivity. Qed.

Lemma put_all_queue reqs : forall b,
  let r := run_schedule (put_all reqs) b in
  fst r = []
  /\ task_queue (snd r) = task_queue b ++ entries_from (_counter b) reqs
  /\ _counter (snd r) = _counter b + List.length reqs.
Proof.
  induction reqs as [|[p t] reqs IH]; intros b.
  - simpl. rewrite app_nil_r. auto.
  - pose proof (enqueue_task_spec p t b) as E. cbv zeta in E.
    change (run_schedule (put_all ((p, t) :: reqs)) b)
      with (run_schedule (put_all reqs)
              (snd (enqueue_task p (func t) (desc t) (is_poll t)
                                 (callback t) b))).
    remember (snd (enqueue_task p (func t) (desc t) (is_poll t)
                                (callback t) b)) as b1.
    destruct E as [Q C].
    destruct (IH b1) as [O [Q' C']].
    cbv zeta. rewrite O, Q', C', Q, C. simpl.
    rewrite <- app_assoc. simpl. repeat split; auto; lia.
Qed.

Lemma run_schedule_least ops : forall b,
  counts_fresh (task_queue b) (_counter b) ->
  Forall (fun got => Forall (entry_lt (fst got)) (snd got))
         (fst (run_schedule ops b)).
Proof.
  induction ops as [|[p t|] ops IH]; intros b F.
  - constructor.
  - pose proof (enqueue_task_spec p t b) as E. cbv zeta in E.
    change (run_schedule (Put p t :: ops) b)
      with (run_schedule ops
              (snd (enqueue_task p (func t) (desc t) (is_poll t)
                                 (callback t) b))).
    destruct E as [Q C]. apply IH. rewrite Q, C.
    now apply counts_fresh_put.
  - simpl. destruct (queue_get (task_queue b)) as [[m r]|] eqn:G.
    + destruct (counts_fresh_get F G) as [F' _].
      specialize (IH (set_task_queue r b) F').
      destruct (run_schedule ops (set_task_queue r b)) as [out b'].
      simpl in *. constructor; auto.
      simpl. exact (queue_get_strict F G).
    + now apply IH.
Qed.

Lemma run_schedule_counter ops : forall b,
  _counter (snd (run_schedule ops b)) = _counter b + puts_in ops.
Proof.
  induction ops as [|[p t|] ops IH]; intros b.
  - simpl. unfold puts_in. simpl. lia.
  - change (run_schedule (Put p t :: ops) b)
      with (run_schedule ops
              (snd (enqueue_task p (func t) (desc t) (is_poll t)
                                 (callback t) b))).
    rewrite IH.
    destruct (enqueue_task_spec p t b) as [_ C]. rewrite C.
    unfold puts_in. simpl. lia.
  - simpl. destruct (queue_get (task_queue b)) as [[m r]|] eqn:G.
    + specialize (IH (set_task_queue r b)).
      destruct (run_schedule ops (set_task_queue r b)) as [out b'].
      simpl in *. rewrite IH. unfold puts_in. simpl. lia.
    + rewrite IH. unfold puts_in. simpl. lia.
Qed.

End QueueOrder.

(** C3. Whatever is enqueued, the worker's [get] hands tasks out in
    ascending (priority, sequence) order.  For every batch of requests put
    into a fresh bridge: the sequence numbers are 0, 1, 2, ... in
    submission order; draining the queue yields a rearrangement of the
    batch that is strictly ascending on (priority, count).  For every
    interleaving of puts and gets: each task handed out has a priority no
    greater than any task still pending (so no Poll task overtakes a
    pending Command task) and, among pending tasks of its own priority,
    the smallest sequence number (first in, first out); and the sequence
    number a task receives is the number of tasks enqueued before it. *)
Theorem dequeue_in_priority_sequence_order :
  forall zone_list hw script opens,
    let b0 := __init__ zone_list hw script opens in
    (forall reqs : list (Z * task),
        let q := task_queue (snd (run_schedule (put_all reqs) b0)) in
        map count q = seq 0 (List.length reqs)
        /\ map (fun e => (priority e, body e)) q = reqs
        /\ Permutation (dequeue_order q) q
        /\ StronglySorted entry_lt (dequeue_order q))
    /\ (forall ops : list queue_op,
           Forall (fun got =>
                     Forall (fun e' =>
                               (priority (fst got) <= priority e')%Z
                               /\ (priority (fst got) = priority e' ->
                                   count (fst got) < count e'))
                            (snd got))
                  (fst (run_schedule ops b0)))
    /\ (forall (ops : list queue_op) prio t,
           let b := snd (run_schedule ops b0) in
           task_queue (snd (enqueue_task prio (func t) (desc t) (is_poll t)
                                         (callback t) b))
           = task_queue b
             ++ [{| priority := prio; count := puts_in ops; body := t |}]).
Proof.
  intros zone_list hw script opens b0. split; [|split].
  - intros reqs q.
    destruct (put_all_queue reqs b0) as [_ [Q C]].
    assert (E : q = entries_from 0 reqs) by (subst q; rewrite Q; reflexivity).
    rewrite E.
    assert (F : counts_fresh (entries_from 0 reqs) (List.length reqs)).
    { split.
      - rewrite entries_from_counts. apply seq_NoDup.
      - apply Forall_forall. intros e He.
        apply (in_map count) in He. rewrite entries_from_counts in He.
        apply in_seq in He. lia. }
    repeat split.
    + apply entries_from_counts.
    + apply entries_from_requests.
    + apply drain_perm. lia.
    + eapply drain_sorted; eauto.
  - intros ops.
    pose proof (run_schedule_least ops b0 (counts_fresh_nil 0)) as H.
    eapply Forall_impl; [|exact H].
    intros [e rest] Hr. simpl in *.
    eapply Forall_impl; [|exact Hr].
    intros e' L. apply entry_lt_spec in L. lia.
  - intros ops prio t b.
    destruct (enqueue_task_spec prio t b) as [Q _]. rewrite Q.
    subst b. rewrite run_schedule_counter. reflexivity.
Qed.

(* ------------------------------------------------------------------ *)
(** ** Reasoning about computations                                     *)
(* ------------------------------------------------------------------ *)

Section Rules.

Context {A B : Type}.
Variables I W : bridge -> Prop.

Lemma ensures_ret (a : A) : ensures I W (ret a).
Proof. intros b H. exact H. Qed.

Lemma ensures_raise (x : exn) : ensures I W (raise (A := A) x).
Proof. intros b H. exact H. Qed.

Lemma ensures_get (proj : bridge -> A) : ensures I W (get proj).
Proof. intros b H. exact H. Qed.

Lemma ensures_modify (f : bridge -> bridge) :
  (forall b, I b -> I (f b)) -> ensures I W (modify f).
Proof. intros Hf b H. apply Hf, H. Qed.

Lemma ensures_bind (m : M A) (k : A -> M B) :
  ensures I W m -> (forall a, ensures I W (k a)) -> ensures I W (bind m k).
Proof.
  intros Hm Hk b H. unfold bind.
  specialize (Hm b H). destruct (m b) as [[a|x|] b1]; simpl in *; auto.
  now apply Hk.
Qed.

(** The continuation may use what [get] read from a state in [I]. *)
Lemma ensures_get_bind (proj : bridge -> A) (k : A -> M B) :
  (forall b, I b ->
             match fst (k (proj b) b) with
             | Block => W (snd (k (proj b) b))
             | _ => I (snd (k (proj b) b))
             end) ->
  ensures I W (bind (get proj) k).
Proof. intros Hk b H. unfold bind, get. now apply Hk. Qed.

Lemma ensures_try_except (m : M A) (c : exn -> bool) (h : exn -> M A) :
  ensures I W m -> (forall x, ensures I W (h x)) ->
  ensures I W (try_except m c h).
Proof.
  intros Hm Hh b H. unfold try_except.
  specialize (Hm b H). destruct (m b) as [[a|x|] b1]; simpl in *; auto.
  destruct (c x); simpl; auto. now apply Hh.
Qed.

Lemma ensures_try_finally (m : M A) (f : M unit) :
  ensures I W m -> ensures I W f -> ensures I W (try_finally m f).
Proof.
  intros Hm Hf b H. unfold try_finally, bind.
  specialize (Hm b H). destruct (m b) as [[a|x|] b1]; simpl in *; auto.
  - specialize (Hf b1 Hm). destruct (f b1) as [[[]|y|] b2]; simpl in *; auto.
  - specialize (Hf b1 Hm). destruct (f b1) as [[[]|y|] b2]; simpl in *; auto.
Qed.

Lemma never_raises_bind (m : M A) (k : A -> M B) :
  never_raises m -> (forall a, never_raises (k a)) -> never_raises (bind m k).
Proof.
  intros Hm Hk b x. unfold bind.
  specialize (Hm b). destruct (m b) as [[a|y|] b1]; simpl in *.
  - apply Hk.
  - exfalso. now apply (Hm y).
  - discriminate.
Qed.

(** [except Exception] with a handler that cannot fail stops every
    exception. *)
Lemma never_raises_catch_all (m : M A) (h : exn -> M A) :
  (forall x, never_raises (h x)) -> never_raises (try_except m any_Exception h).
Proof.
  intros Hh b x. unfold try_except.
  destruct (m b) as [[a|y|] b1]; simpl; try discriminate.
  apply Hh.
Qed.

Lemma never_raises_try_finally (m : M A) (f : M unit) :
  never_raises m -> never_raises f -> never_raises (try_finally m f).
Proof.
  intros Hm Hf b x. unfold try_finally, bind.
  specialize (Hm b). destruct (m b) as [[a|y|] b1]; simpl in *.
  - specialize (Hf b1). destruct (f b1) as [[[]|z|] b2]; simpl in *;
      try discriminate. exfalso. now apply (Hf z).
  - exfalso. now apply (Hm y).
  - discriminate.
Qed.

End Rules.

Lemma never_raises_ret {A} (a : A) : never_raises (ret a).
Proof. intros b x. discriminate. Qed.

Lemma never_raises_modify f : never_raises (modify f).
Proof. intros b x. discriminate. Qed.

Lemma never_raises_emit ev : never_raises (emit ev).
Proof. intros b x. discriminate. Qed.

Lemma never_raises_sleep site ms : never_raises (time_sleep site ms).
Proof. intros b x. discriminate. Qed.

(* ------------------------------------------------------------------ *)
(** ** What happens under the lock                                      *)
(* ------------------------------------------------------------------ *)

(** [with self.hm_lock: m], step by step. *)
Lemma with_hm_lock_unfold {A} (m : M A) b :
  with_hm_lock m b =
  match depth (hm_lock b) with
  | O =>
      try_finally m release
        (set_trace (trace b ++ [EvAcquire])
           (set_hm_lock {| reentrant := reentrant (hm_lock b); depth := 1 |} b))
  | S d =>
      if reentrant (hm_lock b)
      then try_finally m release
             (set_trace (trace b ++ [EvAcquire])
                (set_hm_lock {| reentrant := true; depth := S (S d) |} b))
      else (Block, b)
  end.
Proof.
  unfold with_hm_lock, bind, acquire.
  destruct (depth (hm_lock b)); [reflexivity|].
  destruct (reentrant (hm_lock b)); reflexivity.
Qed.

Section UnderLock.

Variable t0 : list event.
Variable P : event -> Prop.

Lemma trace_grown_snoc b ev :
  trace_grown t0 P b -> P ev ->
  trace_grown t0 P (set_trace (trace b ++ [ev]) b).
Proof.
  intros [evs [Ht Hp]] Hev. exists (evs ++ [ev]). simpl.
  rewrite Ht, app_assoc. split; auto.
  apply Forall_app. split; auto.
Qed.

Lemma grown_emit W d ev :
  P ev -> ensures (grown t0 P d) W (emit ev).
Proof.
  intros Hev b [Hg Hd]. simpl. split; [|exact Hd].
  now apply trace_grown_snoc.
Qed.

Lemma grown_sleep W d site ms :
  P (EvSleep site ms d) -> ensures (grown t0 P d) W (time_sleep site ms).
Proof.
  intros Hev. unfold time_sleep. apply ensures_get_bind.
  intros b Hb. pose proof Hb as [_ Hd]. rewrite Hd.
  exact (grown_emit W Hev Hb).
Qed.

(** A state update that touches neither the trace nor the lock. *)
Lemma grown_modify W d f :
  (forall b, trace (f b) = trace b /\ hm_lock (f b) = hm_lock b) ->
  ensures (grown t0 P d) W (modify f).
Proof.
  intros Hf. apply ensures_modify. intros b [[evs [Ht Hp]] Hd].
  destruct (Hf b) as [E1 E2]. split.
  - exists evs. rewrite E1. auto.
  - now rewrite E2.
Qed.

Lemma grown_exchange W d : ensures (grown t0 P d) W uh1_exchange.
Proof. intros b H. exact H. Qed.

(** [with self.hm_lock:] around a body that is fine whenever the lock is
    held.  If the acquisition or the body blocks, the trace is still
    fine. *)
Lemma grown_with_hm_lock {A} d (m : M A) :
  P EvAcquire -> P EvRelease ->
  (forall d', 1 <= d' -> ensures (grown t0 P d') (trace_grown t0 P) m) ->
  ensures (grown t0 P d) (trace_grown t0 P) (with_hm_lock m).
Proof.
  intros Pa Pr Hm b [Hg Hd].
  assert (K : forall re d1 b1,
             1 <= d1 -> pred d1 = d ->
             b1 = set_trace (trace b ++ [EvAcquire])
                    (set_hm_lock {| reentrant := re; depth := d1 |} b) ->
             match fst (try_finally m release b1) with
             | Block => trace_grown t0 P (snd (try_finally m release b1))
             | _ => grown t0 P d (snd (try_finally m release b1))
             end).
  { intros re d1 b1 H1 Hpred E.
    assert (G1 : grown t0 P d1 b1).
    { subst b1. split; [|reflexivity].
      apply (trace_grown_snoc (b := set_hm_lock _ b)); auto. }
    pose proof (Hm d1 H1 b1 G1) as G2.
    assert (R : forall b2, grown t0 P d1 b2 ->
                  fst (release b2) = Ret tt /\ grown t0 P d (snd (release b2))).
    { intros b2 [Hg2 Hd2]. split; [reflexivity|]. split.
      - apply (trace_grown_snoc (b := set_hm_lock _ b2)); auto.
      - simpl. rewrite Hd2. exact Hpred. }
    unfold try_finally, bind.
    destruct (m b1) as [[a|x|] b2]; simpl in *.
    - destruct (R b2 G2) as [E1 E2].
      destruct (release b2) as [[[]|y|] b3]; simpl in *; try discriminate; auto.
    - destruct (R b2 G2) as [E1 E2].
      destruct (release b2) as [[[]|y|] b3]; simpl in *; try discriminate; auto.
    - exact G2. }
  rewrite with_hm_lock_unfold. rewrite Hd.
  destruct d as [|d0].
  - eapply (K _ 1); eauto.
  - destruct (reentrant (hm_lock b)).
    + eapply (K true (S (S d0))); eauto. lia.
    + simpl. exact Hg.
Qed.

End UnderLock.

Section UnderLockRun.

Variable t0 : list event.
Let I := grown t0 under_lock.
Let W := trace_grown t0 under_lock.

Lemma under_lock_poll_zones zs snapshot d : forall results,
  ensures (I d) W (poll_zones zs snapshot results).
Proof.
  induction zs as [|[name z] zs IH]; intros results; simpl.
  - apply ensures_ret.
  - apply ensures_bind; [|intros; apply IH].
    apply grown_sleep. exact Logic.I.
Qed.

Lemma under_lock_run_func op d : ensures (I d) W (run_func op).
Proof.
  unfold run_func.
  apply ensures_bind; [apply ensures_get|intros n].
  apply ensures_bind; [apply ensures_get|intros held].
  apply ensures_bind; [apply grown_emit; exact Logic.I|intros _].
  apply ensures_bind; [apply grown_exchange|intros [x|snapshot]].
  - apply ensures_raise.
  - destruct op; try apply ensures_ret.
    unfold poll_all_body.
    apply ensures_bind; [apply ensures_get|intros zs].
    apply ensures_bind; [apply under_lock_poll_zones|intros results].
    apply ensures_bind; [apply ensures_get|intros [hw|]];
      [|apply ensures_ret].
    apply ensures_bind; [apply ensures_get|intros [name|]];
      [apply ensures_ret|apply ensures_raise].
Qed.

Lemma under_lock_reconnect d : 1 <= d -> ensures (I d) W reconnect.
Proof.
  intros Hd. unfold reconnect. apply ensures_get_bind.
  intros b Hb. pose proof Hb as [_ E]. rewrite E. clear E.
  revert b Hb.
  change (ensures (I d) W
            (emit (EvReconnect d) ;;
             with_hm_lock
               (try_except hm_conn_close any_Exception (fun _ => ret tt) ;;
                time_sleep reconnect_pause 1000 ;;
                new_HeatmiserUH1 ;;
                LOG INFO "Reconnected to UH1"))).
  apply ensures_bind; [apply grown_emit; exact Hd|intros _].
  apply grown_with_hm_lock; try exact Logic.I.
  intros d' Hd'.
  apply ensures_bind; [|intros _].
  { apply ensures_try_except; [|intros; apply ensures_ret].
    apply grown_modify. intros b; split; reflexivity. }
  apply ensures_bind; [apply grown_sleep; exact Logic.I|intros _].
  apply ensures_bind; [|intros _].
  { apply grown_modify. intros b; split; reflexivity. }
  apply grown_emit. exact Logic.I.
Qed.

Lemma under_lock_attempt op retries delay attempt d :
  ensures (I d) W (attempt_body (run_func op) retries delay attempt).
Proof.
  unfold attempt_body. apply grown_with_hm_lock; try exact Logic.I.
  intros d' Hd'.
  apply ensures_bind; [|intros [v|]].
  - apply ensures_try_except.
    + apply ensures_bind; [apply under_lock_run_func|intros; apply ensures_ret].
    + intros x.
      apply ensures_bind; [apply grown_emit; exact Logic.I|intros _].
      apply ensures_bind; [|intros; apply ensures_ret].
      destruct (attempt =? retries)%nat;
        [now apply under_lock_reconnect|apply ensures_ret].
  - apply ensures_ret.
  - apply ensures_bind; [|intros; apply ensures_ret].
    apply grown_sleep. exact Hd'.
Qed.

Lemma under_lock_for_attempts op retries delay d : forall attempts,
  ensures (I d) W (for_attempts (run_func op) retries delay attempts).
Proof.
  induction attempts as [|a rest IH]; simpl.
  - apply ensures_ret.
  - apply ensures_bind; [apply under_lock_attempt|intros [v|]];
      [apply ensures_ret|exact IH].
Qed.

Lemma under_lock_with_lock op retries delay d :
  ensures (I d) W (with_lock (run_func op) retries delay).
Proof.
  unfold with_lock.
  apply ensures_bind; [apply under_lock_for_attempts|intros [v|]];
    [apply ensures_ret|apply ensures_raise].
Qed.

End UnderLockRun.

(** Every retry-delay sleep and every call of [reconnect] that
    [with_lock] makes happens while [hm_lock] is held. *)
Lemma with_lock_events_under_lock op retries delay b :
  exists evs,
    trace (snd (with_lock (run_func op) retries delay b)) = trace b ++ evs
    /\ Forall under_lock evs.
Proof.
  pose proof (@under_lock_with_lock (trace b) op retries delay
                                    (depth (hm_lock b)) b) as H.
  assert (G : grown (trace b) under_lock (depth (hm_lock b)) b).
  { split; [|reflexivity]. exists []. rewrite app_nil_r. split; auto. }
  specialize (H G).
  destruct (fst (with_lock (run_func op) retries delay b)); try apply H.
Qed.

(* ------------------------------------------------------------------ *)
(** ** One attempt of [with_lock]                                       *)
(* ------------------------------------------------------------------ *)

Lemma untouched_refl b : untouched b b.
Proof. unfold untouched. repeat split. Qed.

Lemma untouched_trans b1 b2 b3 :
  untouched b1 b2 -> untouched b2 b3 -> untouched b1 b3.
Proof.
  unfold untouched. intros H1 H2.
  repeat match goal with H : _ /\ _ |- _ => destruct H end.
  repeat split; congruence.
Qed.

Lemma calls_in_app l1 l2 : calls_in (l1 ++ l2) = calls_in l1 + calls_in l2.
Proof. unfold calls_in. now rewrite filter_app, length_app. Qed.

Lemma reconnects_in_app l1 l2 :
  reconnects_in (l1 ++ l2) = reconnects_in l1 + reconnects_in l2.
Proof. unfold reconnects_in. now rewrite filter_app, length_app. Qed.

Lemma exchanged_refl b : exchanged 0 b b.
Proof.
  unfold exchanged. repeat split; auto using untouched_refl.
  exists []. rewrite app_nil_r. repeat split.
Qed.

Lemma published_app l1 l2 : published (l1 ++ l2) = published l1 ++ published l2.
Proof. unfold published. apply flat_map_app. Qed.

Lemma error_logs_app l1 l2 :
  error_logs (l1 ++ l2) = error_logs l1 ++ error_logs l2.
Proof. unfold error_logs. apply filter_app. Qed.

Lemma exchanged_trans j k b1 b2 b3 :
  exchanged j b1 b2 -> exchanged k b2 b3 -> exchanged (j + k) b1 b3.
Proof.
  intros (U1 & D1 & C1 & N1 & evs1 & T1 & K1 & R1 & P1 & L1)
         (U2 & D2 & C2 & N2 & evs2 & T2 & K2 & R2 & P2 & L2).
  unfold exchanged.
  split; [eapply untouched_trans; eauto|].
  split; [congruence|]. split; [congruence|]. split; [lia|].
  exists (evs1 ++ evs2). rewrite T2, T1, <- app_assoc.
  rewrite calls_in_app, reconnects_in_app, published_app, error_logs_app.
  rewrite P1, P2, L1, L2.
  repeat split; lia.
Qed.

Ltac run_attempt Hreply :=
  unfold attempt_body, with_hm_lock, acquire, release, try_finally,
    try_except, run_func, uh1_exchange, time_sleep, LOG, emit, modify, get,
    bind, ret, raise;
  simpl; rewrite Hreply; simpl.

(** A transport error on an attempt that is not the last one: warn,
    sleep, release, go round again. *)
Lemma attempt_transport_error op retries delay attempt b x :
  depth (hm_lock b) = 0 ->
  uh1_script b (uh1_calls b) = Fails x ->
  is_transport_error x = true ->
  attempt <> retries ->
  exists b',
    attempt_body (run_func op) retries delay attempt b = (Ret Next, b')
    /\ exchanged 1 b b'.
Proof.
  intros Hd Hreply Hx Ha.
  destruct b as [zs hw hwt [re d] conn q c pp script calls opens tr].
  simpl in *. subst d.
  apply Nat.eqb_neq in Ha.
  run_attempt Hreply. rewrite Hx, Ha. simpl.
  eexists. split; [reflexivity|].
  unfold exchanged, untouched. simpl.
  repeat split; try lia.
  eexists. split; [repeat rewrite <- app_assoc; reflexivity|].
  repeat split; reflexivity.
Qed.

(** An attempt on which the hub answers a setter returns its result
    through the release of the lock. *)
Lemma attempt_setter_answered op retries delay attempt b snapshot :
  depth (hm_lock b) = 0 ->
  uh1_script b (uh1_calls b) = Reads snapshot ->
  op <> poll_all ->
  exists b',
    attempt_body (run_func op) retries delay attempt b = (Ret (Return RNone), b')
    /\ exchanged 1 b b'.
Proof.
  intros Hd Hreply Hop.
  destruct b as [zs hw hwt [re d] conn q c pp script calls opens tr].
  simpl in *. subst d.
  run_attempt Hreply.
  destruct op; try (now elim Hop); simpl;
    (eexists; split; [reflexivity|];
     unfold exchanged, untouched; simpl;
     repeat split; try lia;
     eexists; split; [repeat rewrite <- app_assoc; reflexivity|];
     repeat split; reflexivity).
Qed.

(** Any other error leaves the loop at once, through the release of the
    lock. *)
Lemma attempt_other_error op retries delay attempt b x :
  depth (hm_lock b) = 0 ->
  uh1_script b (uh1_calls b) = Fails x ->
  is_transport_error x = false ->
  exists b',
    attempt_body (run_func op) retries delay attempt b = (Raise x, b')
    /\ exchanged 1 b b'.
Proof.
  intros Hd Hreply Hx.
  destruct b as [zs hw hwt [re d] conn q c pp script calls opens tr].
  simpl in *. subst d.
  run_attempt Hreply. rewrite Hx. simpl.
  eexists. split; [reflexivity|].
  unfold exchanged, untouched. simpl.
  repeat split; try lia.
  eexists. split; [repeat rewrite <- app_assoc; reflexivity|].
  repeat split; reflexivity.
Qed.

(** A transport error on the last attempt: [reconnect] is called inside
    the [with] block.  With the plain lock of [__init__] its own
    acquisition never returns; with a reentrant lock it would reconnect,
    and the loop would end without another call of the operation. *)
Lemma attempt_last_transport_error op retries delay b x :
  depth (hm_lock b) = 0 ->
  uh1_script b (uh1_calls b) = Fails x ->
  is_transport_error x = true ->
  exists b' tail,
    attempt_body (run_func op) retries delay retries b
    = (if reentrant (hm_lock b) then Ret Next else Block, b')
    /\ untouched b b'
    /\ uh1_calls b' = S (uh1_calls b)
    /\ trace b' = trace b ++ [EvAcquire; EvCall op (uh1_calls b) 1;
                               EvLog WARNING "UH1 command failed (%s), attempt %d/%d";
                               EvReconnect 1] ++ tail
    /\ calls_in tail = 0
    /\ depth (hm_lock b') = (if reentrant (hm_lock b) then 0 else 1).
Proof.
  intros Hd Hreply Hx.
  destruct b as [zs hw hwt [re d] conn q c pp script calls opens tr].
  simpl in *. subst d.
  run_attempt Hreply. rewrite Hx, Nat.eqb_refl. simpl.
  unfold reconnect, with_hm_lock, acquire, release, try_finally,
    try_except, hm_conn_close, new_HeatmiserUH1, time_sleep, LOG, emit,
    modify, get, bind, ret, raise. simpl.
  destruct re; simpl.
  - eexists. eexists. split; [reflexivity|].
    unfold untouched. simpl. repeat split.
    + repeat rewrite <- app_assoc. simpl. reflexivity.
    + reflexivity.
  - eexists. exists []. split; [reflexivity|].
    unfold untouched. simpl. repeat split.
    repeat rewrite <- app_assoc. simpl. reflexivity.
Qed.

(* ------------------------------------------------------------------ *)
(** ** The retry loop                                                   *)
(* ------------------------------------------------------------------ *)

Lemma transport_fails_shift b b1 i :
  exchanged 1 b b1 -> transport_fails_at b (S i) -> transport_fails_at b1 i.
Proof.
  intros (U & _ & _ & N & _) [x [Hs Hx]].
  destruct U as (_ & _ & _ & _ & _ & _ & S & _).
  exists x. split; [|exact Hx].
  rewrite S, N. rewrite <- Hs. f_equal. lia.
Qed.

(** [k] transport errors in a row, none of them on the last attempt, are
    [k] turns of the loop. *)
Lemma for_attempts_transport_errors op retries delay : forall k a len b,
  depth (hm_lock b) = 0 ->
  (forall i, i < k -> transport_fails_at b i) ->
  a + k <= retries ->
  exists bk,
    exchanged k b bk
    /\ for_attempts (run_func op) retries delay (seq a (k + len)) b
       = for_attempts (run_func op) retries delay (seq (a + k) len) bk.
Proof.
  induction k as [|k IH]; intros a len b Hd Hf Ha.
  - exists b. split; [apply exchanged_refl|]. now rewrite Nat.add_0_r.
  - destruct (Hf 0 ltac:(lia)) as [x [Hs Hx]]. rewrite Nat.add_0_r in Hs.
    destruct (@attempt_transport_error op retries delay a b x Hd Hs Hx
                                       ltac:(lia)) as [b1 [E1 X1]].
    assert (Hd1 : depth (hm_lock b1) = 0)
      by (destruct X1 as (_ & D & _); congruence).
    destruct (IH (S a) len b1 Hd1) as [bk [Xk Ek]].
    + intros i Hi. eapply transport_fails_shift; eauto. apply Hf. lia.
    + lia.
    + exists bk. split.
      * apply (exchanged_trans X1 Xk).
      * simpl. unfold bind at 1. rewrite E1.
        replace (a + S k) with (S a + k) by lia. exact Ek.
Qed.

(** A non-transport error after [k <= retries] transport errors leaves
    [with_lock] at once. *)
Lemma with_lock_other_error op retries delay b k x :
  depth (hm_lock b) = 0 ->
  k <= retries ->
  (forall i, i < k -> transport_fails_at b i) ->
  uh1_script b (uh1_calls b + k) = Fails x ->
  is_transport_error x = false ->
  exists b',
    with_lock (run_func op) retries delay b = (Raise x, b')
    /\ exchanged (S k) b b'.
Proof.
  intros Hd Hk Hf Hs Hx.
  destruct (@for_attempts_transport_errors op retries delay k 0
              (S (retries - k)) b Hd Hf ltac:(lia)) as [bk [Xk Ek]].
  assert (Hdk : depth (hm_lock bk) = 0)
    by (destruct Xk as (_ & D & _); congruence).
  assert (Hsk : uh1_script bk (uh1_calls bk) = Fails x).
  { destruct Xk as (U & _ & _ & N & _).
    destruct U as (_ & _ & _ & _ & _ & _ & S & _). now rewrite S, N. }
  destruct (@attempt_other_error op retries delay k bk x Hdk Hsk Hx)
    as [b' [E' X']].
  exists b'. split.
  - unfold with_lock.
    replace (retries + 1) with (k + S (retries - k)) by lia.
    unfold bind at 1. rewrite Ek. simpl. unfold bind at 1. now rewrite E'.
  - replace (S k) with (k + 1) by lia. apply (exchanged_trans Xk X').
Qed.

(** X1.  A setter that gets through on one of the [retries + 1] attempts,
    after transport errors on the earlier ones, succeeds. *)
Lemma with_lock_retry_succeeds op retries delay b k snapshot :
  depth (hm_lock b) = 0 ->
  k <= retries ->
  (forall i, i < k -> transport_fails_at b i) ->
  uh1_script b (uh1_calls b + k) = Reads snapshot ->
  op <> poll_all ->
  exists b',
    with_lock (run_func op) retries delay b = (Ret RNone, b')
    /\ exchanged (S k) b b'.
Proof.
  intros Hd Hk Hf Hs Hop.
  destruct (@for_attempts_transport_errors op retries delay k 0
              (S (retries - k)) b Hd Hf ltac:(lia)) as [bk [Xk Ek]].
  assert (Hdk : depth (hm_lock bk) = 0)
    by (destruct Xk as (_ & D & _); congruence).
  assert (Hsk : uh1_script bk (uh1_calls bk) = Reads snapshot).
  { destruct Xk as (U & _ & _ & N & _).
    destruct U as (_ & _ & _ & _ & _ & _ & S & _). now rewrite S, N. }
  destruct (@attempt_setter_answered op retries delay k bk snapshot
              Hdk Hsk Hop) as [b' [E' X']].
  exists b'. split.
  - unfold with_lock.
    replace (retries + 1) with (k + S (retries - k)) by lia.
    unfold bind at 1. rewrite Ek. simpl. unfold bind at 1. now rewrite E'.
  - replace (S k) with (k + 1) by lia. apply (exchanged_trans Xk X').
Qed.

(** Transport errors on all [retries + 1] attempts: the operation has
    been called [retries + 1] times when [reconnect] is called, and is
    not called again. *)
Lemma with_lock_exhausted op retries delay b :
  depth (hm_lock b) = 0 ->
  (forall i, i <= retries -> transport_fails_at b i) ->
  exists b' pre post,
    with_lock (run_func op) retries delay b
    = (if reentrant (hm_lock b)
       then Raise (Exception "Failed to communicate with UH1 after retries")
       else Block, b')
    /\ trace b' = trace b ++ pre ++ EvReconnect 1 :: post
    /\ calls_in pre = S retries
    /\ calls_in post = 0
    /\ uh1_calls b' = uh1_calls b + S retries
    /\ task_queue b' = task_queue b
    /\ _poll_pending b' = _poll_pending b.
Proof.
  intros Hd Hf.
  destruct (@for_attempts_transport_errors op retries delay retries 0 1 b Hd
              ltac:(intros; apply Hf; lia) ltac:(lia)) as [bk [Xk Ek]].
  pose proof Xk as (U & D & _ & N & evs & T & K & _).
  assert (Hdk : depth (hm_lock bk) = 0) by congruence.
  destruct (Hf retries (le_n _)) as [x [Hs Hx]].
  assert (Hsk : uh1_script bk (uh1_calls bk) = Fails x).
  { destruct U as (_ & _ & _ & _ & _ & _ & S & _). now rewrite S, N. }
  destruct (@attempt_last_transport_error op retries delay bk x Hdk Hsk Hx)
    as (b' & tail & E' & U' & N' & T' & K' & D').
  assert (R : reentrant (hm_lock bk) = reentrant (hm_lock b))
    by (destruct U as (_ & _ & _ & _ & _ & _ & _ & _ & R); exact R).
  exists b',
    (evs ++ [EvAcquire; EvCall op (uh1_calls bk) 1;
             EvLog WARNING "UH1 command failed (%s), attempt %d/%d"]),
    tail.
  split.
  - unfold with_lock. unfold bind at 1. rewrite Ek. simpl.
    unfold bind at 1. rewrite E', R.
    destruct (reentrant (hm_lock b)); reflexivity.
  - split.
    { rewrite T', T. repeat rewrite <- app_assoc. reflexivity. }
    split.
    { rewrite calls_in_app, K. simpl. unfold calls_in. simpl. lia. }
    split; [exact K'|].
    split; [lia|].
    destruct U as (_ & _ & _ & Q & _ & PP & _).
    destruct U' as (_ & _ & _ & Q' & _ & PP' & _).
    split; congruence.
Qed.

(* ------------------------------------------------------------------ *)
(** ** One turn of the worker, by the outcome of [with_lock]            *)
(* ------------------------------------------------------------------ *)

Local Arguments with_lock : simpl never.

Lemma bind_unfold {A B} (m : M A) (k : A -> M B) b :
  bind m k b = match m b with
               | (Ret a, b') => k a b'
               | (Raise x, b') => (Raise x, b')
               | (Block, b') => (Block, b')
               end.
Proof. reflexivity. Qed.

(** The [try] block ends as [with_lock] does when that raises or blocks. *)
Lemma worker_try_stopped t b (r : res result) b1 :
  with_lock (run_func (func t)) default_retries default_delay
            (set_trace (trace b ++ [EvLog DEBUG "Executing task: %s [%s]"]) b)
  = (r, b1) ->
  (forall v, r <> Ret v) ->
  worker_try t b = (match r with
                    | Raise x => Raise x
                    | _ => Block
                    end, b1).
Proof.
  intros H Hr. unfold worker_try. rewrite bind_unfold.
  change (LOG DEBUG "Executing task: %s [%s]" b)
    with (Ret tt, set_trace (trace b ++ [EvLog DEBUG "Executing task: %s [%s]"]) b).
  cbv beta iota. rewrite bind_unfold, H.
  destruct r as [v|x|]; [now elim (Hr v)|reflexivity|reflexivity].
Qed.

Lemma worker_iteration_failed e b x b1 :
  with_lock (run_func (func (body e))) default_retries default_delay
            (set_trace (trace b ++ [EvLog DEBUG "Executing task: %s [%s]"]) b)
  = (Raise x, b1) ->
  worker_iteration e b
  = worker_finally e
      (set_trace (trace b1 ++ [EvLog ERROR "Task '%s' failed: %s"]) b1).
Proof.
  intros H.
  unfold worker_iteration, try_finally, try_except.
  rewrite (worker_try_stopped _ _ H) by discriminate.
  simpl.
  change (LOG ERROR "Task '%s' failed: %s" b1)
    with (Ret tt, set_trace (trace b1 ++ [EvLog ERROR "Task '%s' failed: %s"]) b1).
  cbv beta iota. rewrite bind_unfold.
  destruct (worker_finally e _) as [[[]|y|] b2]; reflexivity.
Qed.

Lemma worker_iteration_blocked e b b1 :
  with_lock (run_func (func (body e))) default_retries default_delay
            (set_trace (trace b ++ [EvLog DEBUG "Executing task: %s [%s]"]) b)
  = (Block, b1) ->
  worker_iteration e b = (Block, b1).
Proof.
  intros H.
  unfold worker_iteration, try_finally, try_except.
  rewrite (worker_try_stopped _ _ H) by discriminate.
  reflexivity.
Qed.

(* ------------------------------------------------------------------ *)
(** ** Claims about the Transport Arbiter                               *)
(* ------------------------------------------------------------------ *)

(** C1 (the code breaks it).  A set-target command whose three attempts
    all fail with an I/O error: [with_lock] calls [reconnect] while the
    third attempt still holds [hm_lock] (one acquisition outstanding),
    [reconnect]'s own acquisition of the plain lock never returns, and
    the lock is never released. *)
Theorem reconnect_called_inside_lock_scope :
  let r := with_lock (run_func (set_target_temp "lounge" 21))
                     default_retries default_delay
                     (lounge_bridge (fails_first 3)) in
  fst r = Block
  /\ trace (snd r) =
       [EvAcquire; EvCall (set_target_temp "lounge" 21) 0 1;
        EvLog WARNING "UH1 command failed (%s), attempt %d/%d";
        EvSleep retry_delay 300 1; EvRelease;
        EvAcquire; EvCall (set_target_temp "lounge" 21) 1 1;
        EvLog WARNING "UH1 command failed (%s), attempt %d/%d";
        EvSleep retry_delay 300 1; EvRelease;
        EvAcquire; EvCall (set_target_temp "lounge" 21) 2 1;
        EvLog WARNING "UH1 command failed (%s), attempt %d/%d";
        EvReconnect 1]
  /\ depth (hm_lock (snd r)) = 1.
Proof. vm_compute. repeat split. Qed.

(** Whatever the operation, the hub and the retry budget, every call of
    [reconnect] made by [with_lock] finds [hm_lock] held. *)
Lemma reconnect_always_nested op retries delay b :
  exists evs,
    trace (snd (with_lock (run_func op) retries delay b)) = trace b ++ evs
    /\ forall held, In (EvReconnect held) evs -> 1 <= held.
Proof.
  destruct (with_lock_events_under_lock op retries delay b) as [evs [T F]].
  exists evs. split; [exact T|].
  intros held Hin. rewrite Forall_forall in F. exact (F _ Hin).
Qed.

(** Whatever the task, once every one of its three attempts fails with a
    transport error the worker never ends its turn on it. *)
Lemma worker_parks_on_exhausted_retries e b :
  depth (hm_lock b) = 0 ->
  reentrant (hm_lock b) = false ->
  (forall i, i <= default_retries -> transport_fails_at b i) ->
  exists b',
    worker_iteration e b = (Block, b')
    /\ task_queue b' = task_queue b
    /\ _poll_pending b' = _poll_pending b.
Proof.
  intros Hd Hr Hf.
  pose (b0 := set_trace (trace b ++ [EvLog DEBUG "Executing task: %s [%s]"]) b).
  destruct (@with_lock_exhausted (func (body e)) default_retries default_delay
              b0 Hd Hf) as (b' & pre & post & E & _ & _ & _ & _ & Q & P).
  change (reentrant (hm_lock b0)) with (reentrant (hm_lock b)) in E.
  rewrite Hr in E.
  exists b'. split; [|split; [exact Q|exact P]].
  now apply worker_iteration_blocked.
Qed.

(** C2 (the code breaks it).  On a bridge as [__init__] builds it, when
    the operation fails with a transport error on every one of the
    [retries + 1] attempts, [with_lock] neither returns a result nor
    raises: it is parked for ever in [reconnect], which it calls while
    the last attempt holds the plain [hm_lock].  So the task does not
    succeed after the reconnect, whatever the hub would answer from then
    on and whether or not the port would open again, and it does not
    fail either: the operation has been called [retries + 1] times and
    is never called again, and the worker never ends its turn on a task
    with this operation. *)
Theorem exhausted_retries_park_in_reconnect :
  forall zone_list hw script opens op retries delay,
    let b := __init__ zone_list hw script opens in
    (forall i, i <= retries -> transport_fails_at b i) ->
    let r := with_lock (run_func op) retries delay b in
    fst r = Block
    /\ uh1_calls (snd r) = S retries
    /\ (exists pre post,
           trace (snd r) = pre ++ EvReconnect 1 :: post
           /\ calls_in pre = S retries
           /\ calls_in post = 0)
    /\ (retries = default_retries ->
        forall e, func (body e) = op -> fst (worker_iteration e b) = Block).
Proof.
  intros zone_list hw script opens op retries delay b Hf r.
  destruct (@with_lock_exhausted op retries delay b eq_refl Hf)
    as (b' & pre & post & E & T & K1 & K2 & N & _).
  subst r. rewrite E. simpl. split; [reflexivity|].
  split; [exact N|]. split; [exists pre, post; auto|].
  intros R e He. subst retries.
  destruct (@worker_parks_on_exhausted_retries e b eq_refl eq_refl Hf)
    as (b2 & E2 & _).
  now rewrite E2.
Qed.

Lemma exhausted_retries_park_in_reconnect_witness :
  let b := lounge_bridge (fails_first 3) in
  let r := with_lock (run_func (set_target_temp "lounge" 21)) 2 300 b in
  (exists snapshot, uh1_script b 3 = Reads snapshot)
  /\ port_opens b 1 = true
  /\ fst r = Block
  /\ uh1_calls (snd r) = 3.
Proof.
  cbv zeta. split; [eexists; reflexivity|]. split; [reflexivity|].
  destruct (@exhausted_retries_park_in_reconnect
              [("lounge", lounge)] None (fails_first 3) (fun _ => true)
              (set_target_temp "lounge" 21) 2 300)
    as (B & N & _).
  - intros i Hi. exists (OSError "write timeout").
    destruct i as [|[|[|i]]]; try lia; split; reflexivity.
  - split; [exact B|exact N].
Defined.

(** C5.  An error of the operation that is not a transport error (after
    [k <= retries] transport errors, [k = 0] being a failure on the first
    attempt) leaves [with_lock] at once, as that very error: the operation
    has been called [k + 1] times and is not called again, [reconnect] is
    not called, the lock is free again.  In the worker it is logged once
    as the failure of the task, nothing is published for the task, the
    queue is left as it was, and the turn of the loop ends normally. *)
Theorem other_errors_are_not_retried :
  forall op b k x,
    depth (hm_lock b) = 0 ->
    (forall i, i < k -> transport_fails_at b i) ->
    uh1_script b (uh1_calls b + k) = Fails x ->
    is_transport_error x = false ->
    (forall retries delay,
        k <= retries ->
        exists b',
          with_lock (run_func op) retries delay b = (Raise x, b')
          /\ exchanged (S k) b b')
    /\ (k <= default_retries ->
        forall e, func (body e) = op ->
        exists b' evs,
          worker_iteration e b = (Ret tt, b')
          /\ trace b' = trace b ++ evs
          /\ calls_in evs = S k
          /\ reconnects_in evs = 0
          /\ error_logs evs = [EvLog ERROR "Task '%s' failed: %s"]
          /\ published evs = []
          /\ task_queue b' = task_queue b
          /\ _counter b' = _counter b
          /\ depth (hm_lock b') = 0).
Proof.
  intros op b k x Hd Hf Hs Hx. split.
  - intros retries delay Hk. now apply with_lock_other_error.
  - intros Hk e He.
    pose (b0 := set_trace (trace b ++ [EvLog DEBUG "Executing task: %s [%s]"]) b).
    assert (Hf0 : forall i, i < k -> transport_fails_at b0 i)
      by (intros i Hi; exact (Hf i Hi)).
    destruct (@with_lock_other_error op default_retries default_delay b0 k x
                Hd Hk Hf0 Hs Hx) as [b1 [E1 X1]].
    destruct X1 as (U & D & _ & N & evs & T & K & R & P & L).
    destruct U as (_ & _ & _ & Q & C & _).
    simpl in D, Q, C, T.
    rewrite (@worker_iteration_failed e b x b1) by (rewrite He; exact E1).
    unfold worker_finally, time_sleep, emit, modify, get, ret, bind.
    assert (G : forall b2 : bridge,
               trace b2 = trace b1 ++ [EvLog ERROR "Task '%s' failed: %s";
                                       EvTaskDone;
                                       EvSleep worker_throttle
                                         (if (priority e =? 1)%Z
                                          then 250 else 500)
                                         (depth (hm_lock b1))] ->
               task_queue b2 = task_queue b1 ->
               _counter b2 = _counter b1 ->
               depth (hm_lock b2) = depth (hm_lock b1) ->
               exists evs0,
                 trace b2 = trace b ++ evs0
                 /\ calls_in evs0 = S k
                 /\ reconnects_in evs0 = 0
                 /\ error_logs evs0 = [EvLog ERROR "Task '%s' failed: %s"]
                 /\ published evs0 = []
                 /\ task_queue b2 = task_queue b
                 /\ _counter b2 = _counter b
                 /\ depth (hm_lock b2) = 0).
    { intros b2 T2 Q2 C2 D2.
      exists ([EvLog DEBUG "Executing task: %s [%s]"] ++ evs
              ++ [EvLog ERROR "Task '%s' failed: %s"; EvTaskDone;
                  EvSleep worker_throttle
                          (if (priority e =? 1)%Z then 250 else 500)
                          (depth (hm_lock b1))]).
      split; [rewrite T2, T; repeat rewrite <- app_assoc; reflexivity|].
      split; [rewrite !calls_in_app, K; unfold calls_in; simpl; lia|].
      split; [rewrite !reconnects_in_app, R; reflexivity|].
      split; [rewrite !error_logs_app, L; reflexivity|].
      split; [rewrite !published_app, P; reflexivity|].
      repeat split; congruence. }
    destruct (is_poll (body e)); simpl;
      match goal with
      | |- exists b' evs', (Ret tt, ?st) = _ /\ _ =>
          destruct (G st) as [evs2 H2];
          [simpl; repeat rewrite <- app_assoc; reflexivity
          |reflexivity|reflexivity|reflexivity
          |exists st, evs2; split; [reflexivity|exact H2]]
      end.
Qed.

Lemma other_errors_are_not_retried_witness :
  let b := lounge_bridge fails_then_rejects in
  (exists b',
      with_lock (run_func poll_all) 2 300 b = (Raise (ValueError "bad frame"), b')
      /\ exchanged 2 b b')
  /\ (exists b' evs,
         worker_iteration
           {| priority := PRIORITY_POLL; count := 0;
              body := {| func := poll_all; desc := "Poll all thermostats";
                         is_poll := true; callback := None |} |} b
         = (Ret tt, b')
         /\ trace b' = trace b ++ evs
         /\ calls_in evs = 2
         /\ reconnects_in evs = 0
         /\ error_logs evs = [EvLog ERROR "Task '%s' failed: %s"]
         /\ published evs = []
         /\ task_queue b' = task_queue b
         /\ _counter b' = _counter b
         /\ depth (hm_lock b') = 0).
Proof.
  assert (H1 : depth (hm_lock (lounge_bridge fails_then_rejects)) = 0)
    by reflexivity.
  assert (H2 : forall i, i < 1 ->
                         transport_fails_at (lounge_bridge fails_then_rejects) i).
  { intros i Hi. exists (OSError "write timeout").
    destruct i; [split; reflexivity|lia]. }
  assert (H3 : uh1_script (lounge_bridge fails_then_rejects)
                          (uh1_calls (lounge_bridge fails_then_rejects) + 1)
               = Fails (ValueError "bad frame")) by reflexivity.
  assert (H4 : is_transport_error (ValueError "bad frame") = false)
    by reflexivity.
  destruct (@other_errors_are_not_retried poll_all _ 1 _ H1 H2 H3 H4)
    as [A B].
  split.
  - apply (A 2 300). lia.
  - apply B; [unfold default_retries; lia|reflexivity].
Defined.

(** C8 (as stated, it fails).  A set-target command whose first attempt
    fails with an I/O error and whose second succeeds: the sleep of 0.3 s
    between the two attempts is taken with [hm_lock] held (one acquisition
    outstanding), before the release that ends the first attempt. *)
Lemma retry_sleep_holds_lock :
  let r := with_lock (run_func (set_target_temp "lounge" 21))
                     default_retries default_delay
                     (lounge_bridge (fails_first 1)) in
  fst r = Ret RNone
  /\ trace (snd r) =
       [EvAcquire; EvCall (set_target_temp "lounge" 21) 0 1;
        EvLog WARNING "UH1 command failed (%s), attempt %d/%d";
        EvSleep retry_delay 300 1; EvRelease;
        EvAcquire; EvCall (set_target_temp "lounge" 21) 1 1; EvRelease]
  /\ ~ (forall ms held, In (EvSleep retry_delay ms held) (trace (snd r)) ->
                        held = 0).
Proof.
  vm_compute. repeat split.
  intros H. specialize (H 300 1). 
  assert (C : 1 = 0); [|discriminate C].
  apply H. right. right. right. left. reflexivity.
Qed.

(** C8 (amended).  In the retry loop of [with_lock], every sleep of the
    retry delay is taken while [hm_lock] is held: it is the last
    statement inside the attempt's [with] block, and the lock is released
    only after it. *)
Theorem retry_sleep_inside_lock_scope :
  forall op retries delay b,
  exists evs,
    trace (snd (with_lock (run_func op) retries delay b)) = trace b ++ evs
    /\ forall ms held, In (EvSleep retry_delay ms held) evs -> 1 <= held.
Proof.
  intros op retries delay b.
  destruct (with_lock_events_under_lock op retries delay b) as [evs [T F]].
  exists evs. split; [exact T|].
  intros ms held Hin. rewrite Forall_forall in F. exact (F _ Hin).
Qed.

(* ------------------------------------------------------------------ *)
(** ** Claims about the worker loop                                     *)
(* ------------------------------------------------------------------ *)

(** C6 (the code breaks it).  Two commands are queued and the hub fails
    three exchanges in a row with an I/O error.  The worker takes the
    first command and never comes back from it, however long it runs: it
    is parked in [reconnect], the failure of the task is never logged,
    [task_done] is never called, and the second command stays in the
    queue. *)
Theorem worker_stalls_after_exhausted_retries :
  forall turns,
    let w := worker_thread (S turns) (two_commands_queued (fails_first 3)) in
    fst w = Stuck {| priority := 0; count := 0;
                     body := {| func := set_target_temp "lounge" 21;
                                desc := "lounge set target 21" ++ degrees_C;
                                is_poll := false;
                                callback :=
                                  Some (cb_publish_single_state
                                          "lounge" [("target", VInt 21)]) |} |}
    /\ map (fun e => func (body e)) (task_queue (snd w))
       = [set_frost_protect_mode "lounge" true]
    /\ error_logs (trace (snd w)) = []
    /\ ~ In EvTaskDone (trace (snd w))
    /\ reconnects_in (trace (snd w)) = 1.
Proof.
  intros turns. vm_compute. repeat split.
  intros H. repeat (destruct H as [H|H]; [discriminate H|]). exact H.
Qed.

(* ------------------------------------------------------------------ *)
(** ** What a turn of the worker leaves alone                           *)
(* ------------------------------------------------------------------ *)

Section SchedulerFrame.

Variables (q : list entry) (c : nat) (p : bool).
Let I := scheduler_is q c p.

Lemma frame_emit ev : ensures I I (emit ev).
Proof. intros b H. exact H. Qed.

Lemma frame_exchange : ensures I I uh1_exchange.
Proof. intros b H. exact H. Qed.

Lemma frame_acquire : ensures I I acquire.
Proof.
  intros b H. unfold acquire.
  destruct (depth (hm_lock b)); [exact H|].
  destruct (reentrant (hm_lock b)); exact H.
Qed.

Lemma frame_conn f :
  (forall b, task_queue (f b) = task_queue b
             /\ _counter (f b) = _counter b
             /\ _poll_pending (f b) = _poll_pending b) ->
  ensures I I (modify f).
Proof.
  intros Hf. apply ensures_modify. intros b (Hq & Hc & Hp).
  destruct (Hf b) as (E1 & E2 & E3). unfold I, scheduler_is.
  repeat split; congruence.
Qed.

Ltac frame_step :=
  first
    [ apply ensures_ret
    | apply ensures_raise
    | apply ensures_get
    | apply frame_emit
    | apply frame_exchange
    | apply frame_acquire
    | apply frame_conn; intros; repeat split; reflexivity
    | apply ensures_bind; [|intros ?]
    | apply ensures_try_except; [|intros ?]
    | apply ensures_try_finally
    | match goal with
      | |- ensures _ _ (match ?x with _ => _ end) => destruct x
      | |- ensures _ _ (if ?x then _ else _) => destruct x
      end ].

Ltac frame := repeat frame_step.

Lemma frame_poll_zones zs snapshot : forall results,
  ensures I I (poll_zones zs snapshot results).
Proof.
  induction zs as [|[name z] zs IH]; intros results; simpl; frame.
  apply IH.
Qed.

Lemma frame_run_func op : ensures I I (run_func op).
Proof.
  unfold run_func, poll_all_body. frame; apply frame_poll_zones.
Qed.

Lemma frame_reconnect : ensures I I reconnect.
Proof. unfold reconnect. frame. Qed.

Lemma frame_attempt op retries delay attempt :
  ensures I I (attempt_body (run_func op) retries delay attempt).
Proof.
  unfold attempt_body, with_hm_lock.
  apply ensures_bind; [apply frame_acquire|intros _].
  apply ensures_try_finally; [|frame].
  apply ensures_bind; [|intros [v|]; frame].
  apply ensures_try_except.
  - apply ensures_bind; [apply frame_run_func|intros; frame].
  - intros x. apply ensures_bind; [frame|intros _].
    apply ensures_bind; [|intros; frame].
    destruct (attempt =? retries)%nat; [apply frame_reconnect|frame].
Qed.

Lemma frame_for_attempts op retries delay : forall attempts,
  ensures I I (for_attempts (run_func op) retries delay attempts).
Proof.
  induction attempts as [|a rest IH]; simpl.
  - frame.
  - apply ensures_bind; [apply frame_attempt|intros [v|]]; [frame|exact IH].
Qed.

Lemma frame_with_lock op retries delay :
  ensures I I (with_lock (run_func op) retries delay).
Proof.
  unfold with_lock.
  apply ensures_bind; [apply frame_for_attempts|intros [v|]]; frame.
Qed.

Lemma frame_publish_items name : forall state,
  ensures I I (publish_items name state).
Proof.
  induction state as [|[k v] state IH]; simpl; frame. exact IH.
Qed.

Lemma frame_run_callback cb r : ensures I I (run_callback cb r).
Proof.
  destruct cb as [cmd|name overrides]; simpl.
  - unfold _publish_hotwater_state. frame.
  - unfold _publish_single_state, thermostat_getters. frame.
    apply frame_publish_items.
Qed.

Lemma frame_publish_poll_results : forall results,
  ensures I I (_publish_poll_results results).
Proof.
  induction results as [|[name res] results IH]; simpl; [frame|].
  apply ensures_bind; [frame|intros hw].
  apply ensures_bind; [|intros; exact IH].
  destruct (String.eqb name "hotwater" && is_some hw).
  - destruct (dict_get res "hw_state") as [[| | |]|]; frame.
  - unfold item. frame.
Qed.

(** The [try] block of the worker, with its [except Exception]. *)
Lemma frame_worker_try t :
  ensures I I (try_except (worker_try t) any_Exception
                          (fun _ => LOG ERROR "Task '%s' failed: %s")).
Proof.
  apply ensures_try_except; [|intros; frame].
  unfold worker_try.
  apply ensures_bind; [frame|intros _].
  apply ensures_bind; [apply frame_with_lock|intros r].
  apply ensures_bind.
  - destruct (callback t) as [cb|]; [|frame].
    apply ensures_try_except; [apply frame_run_callback|intros; frame].
  - intros _. destruct (is_poll t && is_dict r); [|frame].
    destruct r; [frame|apply frame_publish_poll_results].
Qed.

End SchedulerFrame.

Lemma worker_finally_never_raises e : never_raises (worker_finally e).
Proof.
  unfold worker_finally.
  apply never_raises_bind.
  - destruct (is_poll (body e));
      [apply never_raises_modify|apply never_raises_ret].
  - intros _. apply never_raises_bind; [apply never_raises_emit|intros _].
    apply never_raises_sleep.
Qed.

(** No exception leaves a turn of the loop: the worker cannot die of a
    task or of its callback. *)
Lemma worker_iteration_never_raises e : never_raises (worker_iteration e).
Proof.
  unfold worker_iteration.
  apply never_raises_try_finally.
  - apply never_raises_catch_all. intros x. apply never_raises_emit.
  - apply worker_finally_never_raises.
Qed.

(** A turn of the loop leaves the queue and the counter alone; when it
    ends, the poll flag is cleared if the task was a poll and untouched
    otherwise. *)
Lemma worker_iteration_outcome e b :
  let r := worker_iteration e b in
  task_queue (snd r) = task_queue b
  /\ _counter (snd r) = _counter b
  /\ match fst r with
     | Ret _ => _poll_pending (snd r)
                = (if is_poll (body e) then false else _poll_pending b)
     | Block => _poll_pending (snd r) = _poll_pending b
     | Raise _ => False
     end.
Proof.
  cbv zeta.
  pose proof (@worker_iteration_never_raises e b) as NR.
  revert NR. unfold worker_iteration, try_finally.
  pose proof (@frame_worker_try (task_queue b) (_counter b) (_poll_pending b)
                                (body e) b) as F.
  assert (S0 : scheduler_is (task_queue b) (_counter b) (_poll_pending b) b)
    by (repeat split).
  specialize (F S0).
  pose proof (@never_raises_catch_all unit (worker_try (body e))
                (fun _ => LOG ERROR "Task '%s' failed: %s")
                ltac:(intros x; apply never_raises_emit) b) as NC.
  destruct (try_except (worker_try (body e)) any_Exception
                       (fun _ => LOG ERROR "Task '%s' failed: %s") b)
    as [[u|x|] b1]; simpl in *.
  - destruct F as (Q & C & P). intros _.
    unfold worker_finally, time_sleep, emit, modify, get, ret, bind.
    destruct (is_poll (body e)); simpl; auto.
  - now elim (NC x).
  - destruct F as (Q & C & P). auto.
Qed.

(* ------------------------------------------------------------------ *)
(** ** What a message handler may do                                    *)
(* ------------------------------------------------------------------ *)

Ltac settle_outcome :=
  unfold ret, raise, enqueue_task, next_counter, modify, bind; simpl; split;
  [discriminate
  |split;
   [reflexivity
   |first [left; reflexivity
          |right; eexists; simpl; repeat split; reflexivity]]].

Lemma zone_command_outcome topic payload name b t :
  let r := zone_command topic payload name (set_trace t b) in
  fst r <> Block /\ command_outcome b (snd r).
Proof.
  cbv zeta. unfold zone_command.
  destruct (endswith topic "target").
  - unfold try_except, py_float, py_round, bind.
    destruct (parse_float payload) as [[m e|neg|]|]; simpl; settle_outcome.
  - destruct (endswith topic "mode"); settle_outcome.
Qed.

Lemma on_message_zones_outcome topic payload b t : forall zs,
  let r := on_message_zones topic payload zs (set_trace t b) in
  fst r <> Block /\ command_outcome b (snd r).
Proof.
  induction zs as [|[name z] zs IH]; simpl.
  - settle_outcome.
  - match goal with
    | |- context [if ?c then _ else _] => destruct c
    end.
    + apply zone_command_outcome.
    + exact IH.
Qed.

(** [on_message] never blocks, leaves the poll flag alone, and enqueues
    at most one task, a command. *)
Lemma on_message_outcome topic raw b :
  let r := on_message topic raw b in
  fst r <> Block /\ command_outcome b (snd r).
Proof.
  cbv zeta. unfold on_message, bind, get, LOG, emit, modify.
  cbv beta iota.
  change (hotwater (set_trace (trace b ++ [EvLog INFO "MQTT RX: %s => %s"]) b))
    with (hotwater b).
  change (hotwaterThermostat
            (set_trace (trace b ++ [EvLog INFO "MQTT RX: %s => %s"]) b))
    with (hotwaterThermostat b).
  change (zones (set_trace (trace b ++ [EvLog INFO "MQTT RX: %s => %s"]) b))
    with (zones b).
  destruct (startswith topic "home/heatmiser/hotwater/set/"
            && is_some (hotwater b)).
  - destruct (endswith topic "hw_state"); [|settle_outcome].
    destruct (String.eqb (upper (strip raw)) "ON").
    + destruct (hotwaterThermostat _); settle_outcome.
    + destruct (String.eqb (upper (strip raw)) "OFF"); [|settle_outcome].
      destruct (hotwaterThermostat _); settle_outcome.
  - apply on_message_zones_outcome.
Qed.

(* ------------------------------------------------------------------ *)
(** ** The poll coalescer                                               *)
(* ------------------------------------------------------------------ *)

Lemma filter_length_perm {A} (f : A -> bool) l l' :
  Permutation l l' ->
  List.length (filter f l) = List.length (filter f l').
Proof.
  induction 1; simpl; auto.
  - destruct (f x); simpl; auto.
  - destruct (f x), (f y); reflexivity.
  - congruence.
Qed.

Lemma try_start_poll_busy b b' :
  try_start_poll b = (Ret false, b') -> _poll_pending b = true /\ b' = b.
Proof.
  unfold try_start_poll, bind, get, modify, ret.
  destruct (_poll_pending b); intros H; inversion H; auto.
Qed.

Lemma try_start_poll_set b b' :
  try_start_poll b = (Ret true, b') ->
  _poll_pending b = false /\ b' = set_poll_pending true b.
Proof.
  unfold try_start_poll, bind, get, modify, ret.
  destruct (_poll_pending b); intros H; inversion H; auto.
Qed.

Lemma polls_after_command q e :
  priority e = PRIORITY_COMMAND ->
  List.length (filter is_poll_entry (q ++ [e]))
  = List.length (filter is_poll_entry q).
Proof.
  intros H. rewrite filter_app, length_app. simpl.
  unfold is_poll_entry. rewrite H. simpl. lia.
Qed.

(** The parts of a turn, put together, are [worker_iteration]. *)
Lemma worker_iteration_in_parts e b :
  worker_iteration e b
  = match worker_attempt e b with
    | (Ret _, b1) => (worker_clear_flag e ;; worker_close e) b1
    | (Raise x, b1) =>
        match (worker_clear_flag e ;; worker_close e) b1 with
        | (Ret _, b2) => (Raise x, b2)
        | (Raise y, b2) => (Raise y, b2)
        | (Block, b2) => (Block, b2)
        end
    | (Block, b1) => (Block, b1)
    end.
Proof.
  unfold worker_iteration, try_finally, worker_attempt.
  destruct (try_except (worker_try (body e)) any_Exception
                       (fun _ => LOG ERROR "Task '%s' failed: %s") b)
    as [[[]|x|] b1]; try reflexivity;
    unfold worker_finally, worker_clear_flag, worker_close, time_sleep,
      emit, modify, get, ret, raise, bind;
    destruct (is_poll (body e)); reflexivity.
Qed.

(** The [try] block with its handler lets no exception through and
    leaves the queue, the counter and the poll flag alone. *)
Lemma worker_attempt_outcome e b :
  task_queue (snd (worker_attempt e b)) = task_queue b
  /\ _counter (snd (worker_attempt e b)) = _counter b
  /\ _poll_pending (snd (worker_attempt e b)) = _poll_pending b
  /\ forall x, fst (worker_attempt e b) <> Raise x.
Proof.
  unfold worker_attempt.
  pose proof (@frame_worker_try (task_queue b) (_counter b) (_poll_pending b)
                                (body e) b) as F.
  assert (S0 : scheduler_is (task_queue b) (_counter b) (_poll_pending b) b)
    by (repeat split).
  specialize (F S0).
  pose proof (@never_raises_catch_all unit (worker_try (body e))
                (fun _ => LOG ERROR "Task '%s' failed: %s")
                ltac:(intros x; apply never_raises_emit) b) as NC.
  destruct (try_except (worker_try (body e)) any_Exception
                       (fun _ => LOG ERROR "Task '%s' failed: %s") b)
    as [[u|x|] b1]; simpl in *.
  - destruct F as (Q & C & P). repeat split; auto; discriminate.
  - now elim (NC x).
  - destruct F as (Q & C & P). repeat split; auto; discriminate.
Qed.

Lemma worker_clear_flag_unfold e b :
  worker_clear_flag e b
  = (Ret tt, if is_poll (body e) then set_poll_pending false b else b).
Proof. unfold worker_clear_flag. now destruct (is_poll (body e)). Qed.

Lemma worker_close_outcome e b :
  task_queue (snd (worker_close e b)) = task_queue b
  /\ _poll_pending (snd (worker_close e b)) = _poll_pending b.
Proof. split; reflexivity. Qed.

Lemma coalesced_start zone_list hw script opens :
  coalesced (start zone_list hw script opens).
Proof. unfold coalesced. simpl. repeat split. constructor. Qed.

Ltac unfold_counts :=
  unfold coalesced, polls_in_flight, polls_queued, polls_executing,
    polls_uncleared, poll_window.

Lemma coalesced_step s s' : coalesced s -> step s s' -> coalesced s'.
Proof.
  intros (TQ & TW & N) St.
  unfold polls_queued, polls_uncleared, poll_window in N.
  destruct St as [s b' Hp Ht | s b' Hp Ht | s r b' Hp He
                  | s topic raw r b' Hm | s e q' Hw Hg
                  | s e b' Hw Hi | s e x b' Hw Hi | s e b' Hw Hi
                  | s e pending b' Hw Hc | s e b' Hw Hc
                  | s e x r b' Hw Hc];
    unfold_counts; simpl.
  - apply try_start_poll_busy in Ht. destruct Ht as [Hf E]. subst b'.
    rewrite Hp in N. auto.
  - apply try_start_poll_set in Ht. destruct Ht as [Hf E]. subst b'.
    rewrite Hp, Hf in N. simpl. repeat split; auto. lia.
  - unfold enqueue_poll in He. inversion He; subst; clear He. simpl.
    rewrite Hp in N. repeat split; auto.
    + unfold queue_put. apply Forall_app. split; [exact TQ|].
      constructor; [reflexivity|constructor].
    + unfold queue_put. rewrite filter_app, length_app. simpl.
      destruct (_poll_pending (obj s)); lia.
  - destruct (on_message_outcome topic raw (obj s)) as [_ [Hf Hq]].
    rewrite Hm in Hf, Hq. simpl in Hf, Hq. rewrite Hf.
    destruct Hq as [Hq | [e (Hq & He & Hpoll & _)]]; rewrite Hq.
    + auto.
    + repeat split; auto.
      * apply Forall_app. split; [exact TQ|].
        constructor; [|constructor].
        unfold tagged, is_poll_entry. rewrite Hpoll, He. reflexivity.
      * now rewrite polls_after_command.
  - rewrite Hw in N, TW.
    pose proof (queue_get_perm _ Hg) as P.
    pose proof (Permutation_Forall P TQ) as TQ'.
    inversion TQ'; subst.
    rewrite (filter_length_perm is_poll_entry P) in N. simpl in N.
    repeat split; auto.
    destruct (is_poll_entry e); simpl in N; lia.
  - destruct (worker_attempt_outcome e (obj s)) as (Q & _ & F & _).
    rewrite Hi in Q, F. simpl in Q, F. rewrite Hw in N, TW.
    rewrite Q, F. auto.
  - destruct (worker_attempt_outcome e (obj s)) as (Q & _ & F & _).
    rewrite Hi in Q, F. simpl in Q, F. rewrite Hw in N, TW.
    rewrite Q, F. auto.
  - destruct (worker_attempt_outcome e (obj s)) as (Q & _ & F & _).
    rewrite Hi in Q, F. simpl in Q, F. rewrite Hw in N, TW.
    rewrite Q, F. auto.
  - rewrite worker_clear_flag_unfold in Hc. inversion Hc; subst; clear Hc.
    rewrite Hw in N, TW. pose proof TW as TW'. unfold tagged in TW'.
    rewrite TW'.
    destruct (is_poll_entry e); simpl; repeat split; auto.
    destruct (_poll_pending (obj s)), (state_loop s); simpl in N; lia.
  - destruct (worker_close_outcome e (obj s)) as (Q & F).
    rewrite Hc in Q, F. simpl in Q, F. rewrite Hw in N. rewrite Q, F. auto.
  - destruct (worker_close_outcome e (obj s)) as (Q & F).
    rewrite Hc in Q, F. simpl in Q, F. rewrite Hw in N. rewrite Q, F. auto.
Qed.

Lemma reachable_coalesced s : reachable s -> coalesced s.
Proof.
  induction 1 as [zl hw script opens | s s' R IH St].
  - apply coalesced_start.
  - eapply coalesced_step; eauto.
Qed.

Lemma reachable_poll_flagged : reachable poll_flagged.
Proof.
  eapply reach_step.
  - apply (reach_start [("lounge", lounge)] None (fails_first 0)
                       (fun _ => true)).
  - apply (@step_poll_set (start [("lounge", lounge)] None (fails_first 0)
                                 (fun _ => true))); reflexivity.
Defined.

Lemma reachable_poll_enqueued : reachable poll_enqueued.
Proof.
  eapply reach_step.
  - exact reachable_poll_flagged.
  - apply (@step_poll_enqueue poll_flagged (Ret tt)); reflexivity.
Defined.

Lemma reachable_poll_cleared : reachable poll_cleared.
Proof.
  assert (S1 : step poll_enqueued poll_taken).
  { apply (@step_worker_get poll_enqueued (poll_entry 0) []);
      vm_compute; reflexivity. }
  assert (S2 : step poll_taken poll_tried).
  { apply (@step_worker_try
             poll_taken (poll_entry 0)
             (snd (worker_attempt (poll_entry 0) (obj poll_taken))));
      vm_compute; reflexivity. }
  assert (S3 : step poll_tried poll_cleared).
  { apply (@step_worker_clear
             poll_tried (poll_entry 0) None
             (snd (worker_clear_flag (poll_entry 0) (obj poll_tried))));
      vm_compute; reflexivity. }
  exact (reach_step
           (reach_step (reach_step reachable_poll_enqueued S1) S2) S3).
Defined.

Lemma reachable_second_poll_enqueued : reachable second_poll_enqueued.
Proof.
  assert (S1 : step poll_cleared poll_flagged_again).
  { apply (@step_poll_set poll_cleared (set_poll_pending true (obj poll_cleared)));
      vm_compute; reflexivity. }
  assert (S2 : step poll_flagged_again second_poll_enqueued).
  { apply (@step_poll_enqueue
             poll_flagged_again (Ret tt)
             (snd (enqueue_poll (obj poll_flagged_again))));
      vm_compute; reflexivity. }
  exact (reach_step (reach_step reachable_poll_cleared S1) S2).
Defined.

(** C4 (as stated, it fails).  Right after the poll timer has set
    [_poll_pending] and released [_poll_pending_lock], and before its
    [enqueue_task], the flag is true while no Poll task is enqueued or
    executing.  And once the worker has cleared the flag at the head of
    its [finally] block, the timer can enqueue the next Poll task while
    the worker has yet to call [task_done] for the first: two Poll tasks
    are then in flight. *)
Lemma poll_flag_and_tasks_out_of_step :
  (exists s,
      reachable s
      /\ _poll_pending (obj s) = true
      /\ polls_in_flight s = 0)
  /\ (exists s,
         reachable s
         /\ polls_in_flight s = 2).
Proof.
  split.
  - exists poll_flagged.
    split; [exact reachable_poll_flagged|split; reflexivity].
  - exists second_poll_enqueued.
    split; [exact reachable_second_poll_enqueued|vm_compute; reflexivity].
Qed.

(** C4 (amended).  In every reachable state of the bridge: at most one
    Poll-priority task is enqueued, and at most one is enqueued or with
    the worker before the worker has cleared the flag; more than one is
    in flight only while the worker is in the rest of its [finally]
    block for a Poll task ([task_done], the closing sleep).
    [_poll_pending] is true exactly when one Poll task is enqueued or
    with the worker and not yet cleared, or the poll trigger has set the
    flag and has yet to enqueue its task (never both); a poll trigger
    that finds the flag true changes nothing, so enqueues nothing; and a
    step clears the flag exactly when it is the first step of the
    worker's [finally] block on a Poll task, which comes whatever the
    outcome of the task. *)
Theorem at_most_one_poll_uncleared :
  forall s,
    reachable s ->
    polls_queued s + polls_uncleared s <= 1
    /\ (polls_in_flight s <= 1 \/ closing_a_poll s)
    /\ (_poll_pending (obj s) = true <->
        polls_queued s + polls_uncleared s = 1
        \/ state_loop s = poller_flag_set)
    /\ (state_loop s = poller_flag_set ->
        polls_queued s + polls_uncleared s = 0)
    /\ (_poll_pending (obj s) = true ->
        publish_states (obj s) = (Ret tt, obj s))
    /\ (forall s',
           step s s' ->
           (_poll_pending (obj s) = true /\ _poll_pending (obj s') = false)
           <-> (exists e pending,
                   worker s = worker_tried e pending
                   /\ is_poll_entry e = true
                   /\ worker s' = worker_cleared e pending)).
Proof.
  intros s R. pose proof (reachable_coalesced R) as (TQ & TW & N).
  unfold poll_window in N.
  split; [|split; [|split; [|split; [|split]]]].
  - destruct (state_loop s), (_poll_pending (obj s)); lia.
  - unfold polls_in_flight, polls_executing, closing_a_poll.
    unfold polls_uncleared in N.
    destruct (worker s) as [|e|e p|e p|e|] eqn:W;
      try (left; destruct (state_loop s), (_poll_pending (obj s)); lia).
    destruct (is_poll_entry e) eqn:P.
    + right. exists e, p. auto.
    + left. destruct (state_loop s), (_poll_pending (obj s)); lia.
  - split.
    + intros F. rewrite F in N.
      destruct (state_loop s); [left; lia|right; reflexivity].
    + intros [H|H]; destruct (_poll_pending (obj s)); auto;
        rewrite H in N; try lia.
  - intros H. rewrite H in N. destruct (_poll_pending (obj s)); lia.
  - intros F. unfold publish_states, try_start_poll, bind, get, ret.
    rewrite F. reflexivity.
  - intros s' St.
    unfold polls_queued, polls_uncleared in N.
    destruct St as [s b' Hp Ht | s b' Hp Ht | s r b' Hp He
                    | s topic raw r b' Hm | s e q' Hw Hg
                    | s e b' Hw Hi | s e x b' Hw Hi | s e b' Hw Hi
                    | s e pending b' Hw Hc | s e b' Hw Hc
                    | s e x r b' Hw Hc]; simpl.
    + apply try_start_poll_busy in Ht. destruct Ht as [Hf E]. subst b'.
      split; [intros [A B]; congruence|].
      intros (e & p & W1 & _ & W2). congruence.
    + apply try_start_poll_set in Ht. destruct Ht as [Hf E]. subst b'.
      split; [intros [A B]; congruence|].
      intros (e & p & W1 & _ & W2). congruence.
    + unfold enqueue_poll in He. inversion He; subst; clear He. simpl.
      split; [intros [A B]; congruence|].
      intros (e & p & W1 & _ & W2). congruence.
    + destruct (on_message_outcome topic raw (obj s)) as [_ [Hf _]].
      rewrite Hm in Hf. simpl in Hf.
      split; [intros [A B]; congruence|].
      intros (e & p & W1 & _ & W2). congruence.
    + split; [intros [A B]; congruence|].
      intros (e0 & p & W1 & _ & W2). congruence.
    + destruct (worker_attempt_outcome e (obj s)) as (_ & _ & F & _).
      rewrite Hi in F. simpl in F.
      split; [intros [A B]; congruence|].
      intros (e0 & p & W1 & _ & W2). congruence.
    + destruct (worker_attempt_outcome e (obj s)) as (_ & _ & F & _).
      rewrite Hi in F. simpl in F.
      split; [intros [A B]; congruence|].
      intros (e0 & p & W1 & _ & W2). congruence.
    + destruct (worker_attempt_outcome e (obj s)) as (_ & _ & F & _).
      rewrite Hi in F. simpl in F.
      split; [intros [A B]; congruence|].
      intros (e0 & p & W1 & _ & W2). congruence.
    + rewrite worker_clear_flag_unfold in Hc. inversion Hc; subst; clear Hc.
      rewrite Hw in N, TW. unfold tagged in TW. rewrite TW.
      simpl.
      split.
      * intros [A B]. exists e, pending. repeat split; auto.
        destruct (is_poll_entry e); [reflexivity|congruence].
      * intros (e0 & p & W1 & W2 & _).
        assert (e0 = e) by congruence. subst e0.
        rewrite W2 in N |- *. split; [|reflexivity].
        destruct (_poll_pending (obj s)); [reflexivity|lia].
    + destruct (worker_close_outcome e (obj s)) as (_ & F).
      rewrite Hc in F. simpl in F.
      split; [intros [A B]; congruence|].
      intros (e0 & p & W1 & _ & W2). congruence.
    + destruct (worker_close_outcome e (obj s)) as (_ & F).
      rewrite Hc in F. simpl in F.
      split; [intros [A B]; congruence|].
      intros (e0 & p & W1 & _ & W2). congruence.
Qed.

Lemma at_most_one_poll_uncleared_witness :
  reachable second_poll_enqueued
  /\ polls_queued second_poll_enqueued
     + polls_uncleared second_poll_enqueued <= 1
  /\ closing_a_poll second_poll_enqueued
  /\ (_poll_pending (obj second_poll_enqueued) = true <->
      polls_queued second_poll_enqueued
      + polls_uncleared second_poll_enqueued = 1
      \/ state_loop second_poll_enqueued = poller_flag_set)
  /\ (_poll_pending (obj second_poll_enqueued) = true ->
      publish_states (obj second_poll_enqueued)
      = (Ret tt, obj second_poll_enqueued)).
Proof.
  destruct (@at_most_one_poll_uncleared second_poll_enqueued
                                        reachable_second_poll_enqueued)
    as (A & [B|B] & C & _ & D & _).
  - exfalso. revert B. vm_compute. lia.
  - exact (conj reachable_second_poll_enqueued
                (conj A (conj B (conj C D)))).
Defined.

(* ------------------------------------------------------------------ *)
(** ** Claims about the State Publisher                                 *)
(* ------------------------------------------------------------------ *)

(** Target, mode and action are derived alike on both paths. *)
Lemma target_mode_action_agree z r :
  dict_get (single_state r) "target" = dict_get (poll_zone_result z r) "target"
  /\ dict_get (single_state r) "mode" = dict_get (poll_zone_result z r) "mode"
  /\ dict_get (single_state r) "action"
     = dict_get (poll_zone_result z r) "action".
Proof. repeat split. Qed.

(** The temperature is not: the immediate path always takes the air
    sensor, the batch path takes it only for [sensor_type == "air"]. *)
Lemma temperature_by_path z r :
  dict_get (single_state r) "temperature" = Some (air_temp r)
  /\ dict_get (poll_zone_result z r) "temperature"
     = Some (match sensor_type z with
             | Some k => if String.eqb k "air" then air_temp r else floor_temp r
             | None => floor_temp r
             end).
Proof. split; reflexivity. Qed.

(** C7 (the code breaks it).  A zone configured with a floor sensor whose
    thermostat reads 20 on the air sensor and 25 on the floor sensor: the
    batch path publishes 25 as its temperature, the immediate path (here
    after a set-target command for 21) publishes 20. *)
Theorem immediate_path_ignores_floor_sensor :
  let b := lounge_bridge (fails_first 0) in
  sensor_type lounge = Some "floor"
  /\ published (trace (snd (_publish_single_state
                              "lounge" [("target", VInt 21)] b)))
     = [("home/heatmiser/lounge/state/temperature", VInt 20);
        ("home/heatmiser/lounge/state/target", VInt 21);
        ("home/heatmiser/lounge/state/mode", VStr "heat");
        ("home/heatmiser/lounge/state/action", VStr "heating")]
  /\ published (trace (snd (poll_and_publish b)))
     = [("home/heatmiser/lounge/state/temperature", VInt 25);
        ("home/heatmiser/lounge/state/target", VInt 21);
        ("home/heatmiser/lounge/state/mode", VStr "heat");
        ("home/heatmiser/lounge/state/action", VStr "heating")].
Proof. vm_compute. repeat split. Qed.

(* ------------------------------------------------------------------ *)
(** ** Claims about the message handler                                 *)
(* ------------------------------------------------------------------ *)

Lemma on_message_zones_routed topic payload name : forall zs,
  first_zone topic zs = Some name ->
  on_message_zones topic payload zs = zone_command topic payload name.
Proof.
  induction zs as [|[n z] zs IH]; simpl; intros H; [discriminate|].
  match goal with
  | |- context [if ?c then _ else _] => destruct c
  end.
  - now inversion H.
  - now apply IH.
Qed.


(** A message that a zone's branch takes is handled by [zone_command],
    after the line that logs its arrival. *)
Lemma on_message_routed topic raw b name :
  handled_by topic b = Some name ->
  on_message topic raw b
  = zone_command topic (strip raw) name
      (set_trace (trace b ++ [EvLog INFO "MQTT RX: %s => %s"]) b).
Proof.
  unfold handled_by, on_message, bind, get, LOG, emit, modify.
  cbv beta iota.
  change (hotwater (set_trace (trace b ++ [EvLog INFO "MQTT RX: %s => %s"]) b))
    with (hotwater b).
  destruct (startswith topic "home/heatmiser/hotwater/set/"
            && is_some (hotwater b)); [discriminate|].
  intros H.
  change (zones (set_trace (trace b ++ [EvLog INFO "MQTT RX: %s => %s"]) b))
    with (zones b).
  now rewrite (on_message_zones_routed topic (strip raw) _ H).
Qed.

(** X3.  A target payload, ASCII text, that [float] rejects, or that
    reads as a NaN, is logged and dropped: no task, no exception. *)
Lemma target_payload_dropped topic raw b name :
  handled_by topic b = Some name ->
  endswith topic "target" = true ->
  ascii_text raw = true ->
  parse_float (strip raw) = None \/ parse_float (strip raw) = Some NaN ->
  exists b',
    on_message topic raw b = (Ret tt, b')
    /\ task_queue b' = task_queue b
    /\ _counter b' = _counter b
    /\ trace b' = trace b ++ [EvLog INFO "MQTT RX: %s => %s";
                              EvLog WARNING "Invalid target temp for %s: %s"].
Proof.
  intros H Ht _ Hp. rewrite (@on_message_routed topic raw b name H).
  unfold zone_command. rewrite Ht.
  unfold try_except, py_float, py_round, bind, raise, LOG, emit, modify.
  destruct Hp as [Hp|Hp]; rewrite Hp; simpl;
    eexists; repeat split; now rewrite <- app_assoc.
Qed.

(** X2.  A target payload that reads as a finite number becomes exactly one
    command, for that number rounded to the nearest integer (ties to
    even). *)
Lemma target_payload_accepted topic raw b name m e :
  handled_by topic b = Some name ->
  endswith topic "target" = true ->
  parse_float (strip raw) = Some (Finite m e) ->
  let val := if (0 <=? e)%Z then (m * 2 ^ e)%Z
             else div_half_even m (2 ^ (- e)) in
  exists b',
    on_message topic raw b = (Ret tt, b')
    /\ task_queue b'
       = task_queue b
         ++ [{| priority := PRIORITY_COMMAND; count := _counter b;
                body := {| func := set_target_temp name val;
                           desc := name ++ " set target " ++ str_of_int val
                                        ++ degrees_C;
                           is_poll := false;
                           callback :=
                             Some (cb_publish_single_state
                                     name [("target", VInt val)]) |} |}].
Proof.
  intros H Ht Hp val. rewrite (@on_message_routed topic raw b name H).
  unfold zone_command. rewrite Ht.
  unfold try_except, py_float, py_round, bind, ret.
  rewrite Hp. simpl. eexists. split; reflexivity.
Qed.

(** C9 (the code breaks it).  The payloads [inf] and [1e999] on a zone's
    set/target topic: [float] accepts both as an infinity, [round] raises
    [OverflowError], which [except ValueError] does not catch.  The
    exception leaves [on_message]; nothing is enqueued and the payload is
    not logged as invalid. *)
Theorem infinite_target_escapes_handler :
  let b := lounge_bridge (fails_first 0) in
  let r1 := on_message "home/heatmiser/lounge/set/target" "inf" b in
  let r2 := on_message "home/heatmiser/lounge/set/target" "1e999" b in
  fst r1 = Raise (OverflowError "cannot convert float infinity to integer")
  /\ task_queue (snd r1) = []
  /\ trace (snd r1) = [EvLog INFO "MQTT RX: %s => %s"]
  /\ fst r2 = Raise (OverflowError "cannot convert float infinity to integer")
  /\ task_queue (snd r2) = []
  /\ trace (snd r2) = [EvLog INFO "MQTT RX: %s => %s"].
Proof. vm_compute. repeat split. Qed.



(* ================================================================== *)
(** * Further properties of the bridge                                  *)
(* ================================================================== *)

(* ------------------------------------------------------------------ *)
(** ** Retries that get through                                         *)
(* ------------------------------------------------------------------ *)

Lemma with_lock_retry_succeeds_witness :
  exists b',
    with_lock (run_func (set_target_temp "lounge" 21)) 2 300
              (lounge_bridge (fails_first 2))
    = (Ret RNone, b')
    /\ exchanged 3 (lounge_bridge (fails_first 2)) b'.
Proof.
  apply (@with_lock_retry_succeeds (set_target_temp "lounge" 21) 2 300
           (lounge_bridge (fails_first 2)) 2 (fun _ => lounge_reading)).
  - reflexivity.
  - lia.
  - intros i Hi. exists (OSError "write timeout").
    destruct i as [|[|i]]; try lia; split; reflexivity.
  - reflexivity.
  - discriminate.
Defined.

Lemma target_payload_accepted_witness :
  exists b',
    on_message "home/heatmiser/lounge/set/target" " 21.5 "
               (lounge_bridge (fails_first 0))
    = (Ret tt, b')
    /\ task_queue b'
       = [{| priority := 0; count := 0;
             body := {| func := set_target_temp "lounge" 22;
                        desc := "lounge set target 22" ++ degrees_C;
                        is_poll := false;
                        callback :=
                          Some (cb_publish_single_state
                                  "lounge" [("target", VInt 22)]) |} |}].
Proof.
  apply (@target_payload_accepted "home/heatmiser/lounge/set/target" " 21.5 "
           (lounge_bridge (fails_first 0)) "lounge"
           6051711999279104 (-48)); reflexivity.
Defined.

Lemma target_payload_dropped_witness :
  exists b',
    on_message "home/heatmiser/lounge/set/target" "warm"
               (lounge_bridge (fails_first 0))
    = (Ret tt, b')
    /\ task_queue b' = task_queue (lounge_bridge (fails_first 0))
    /\ _counter b' = _counter (lounge_bridge (fails_first 0))
    /\ trace b' = trace (lounge_bridge (fails_first 0))
                  ++ [EvLog INFO "MQTT RX: %s => %s";
                      EvLog WARNING "Invalid target temp for %s: %s"].
Proof.
  apply (@target_payload_dropped "home/heatmiser/lounge/set/target" "warm"
           (lounge_bridge (fails_first 0)) "lounge");
    [reflexivity|reflexivity|reflexivity|left; reflexivity].
Defined.

(* ------------------------------------------------------------------ *)
(** ** Poll triggers in a row                                           *)
(* ------------------------------------------------------------------ *)

Lemma publish_states_when_idle b :
  _poll_pending b = false ->
  publish_states b
  = (Ret tt, set_task_queue (task_queue b ++ [poll_entry (_counter b)])
               (set_counter (S (_counter b)) (set_poll_pending true b))).
Proof.
  intros H. unfold publish_states, try_start_poll, enqueue_poll, enqueue_task,
              next_counter, queue_put, bind, get, modify, ret.
  rewrite H. reflexivity.
Qed.

Lemma publish_states_when_pending b :
  _poll_pending b = true -> publish_states b = (Ret tt, b).
Proof.
  intros H. unfold publish_states, try_start_poll, bind, get, ret.
  rewrite H. reflexivity.
Qed.

(** X4.  However often the poll timer fires before the worker has finished a
    poll, one Poll task is enqueued, by the first firing; the later ones
    change nothing. *)
Theorem poll_triggers_coalesce :
  forall n b,
    _poll_pending b = false ->
    let b' := poll_triggers (S n) b in
    task_queue b' = task_queue b ++ [poll_entry (_counter b)]
    /\ _counter b' = S (_counter b)
    /\ _poll_pending b' = true
    /\ b' = poll_triggers 1 b.
Proof.
  intros n b H.
  assert (K : forall m b1, _poll_pending b1 = true -> poll_triggers m b1 = b1).
  { induction m as [|m IH]; intros b1 H1; simpl; [reflexivity|].
    rewrite (publish_states_when_pending _ H1). simpl. now apply IH. }
  cbv zeta. simpl. rewrite (publish_states_when_idle _ H). simpl.
  rewrite K by reflexivity. repeat split.
Qed.

Lemma poll_triggers_coalesce_witness :
  let b := lounge_bridge (fails_first 0) in
  let b' := poll_triggers 5 b in
  task_queue b' = task_queue b ++ [poll_entry (_counter b)]
  /\ _counter b' = S (_counter b)
  /\ _poll_pending b' = true
  /\ b' = poll_triggers 1 b.
Proof.
  apply (@poll_triggers_coalesce 4 (lounge_bridge (fails_first 0))).
  reflexivity.
Defined.

(* ------------------------------------------------------------------ *)
(** ** The zone registry built by [__init__]                            *)
(* ------------------------------------------------------------------ *)

Lemma dict_get_set {V} (d : dict V) k v k' :
  dict_get (dict_set d k v) k'
  = if String.eqb k k' then Some v else dict_get d k'.
Proof.
  induction d as [|[k0 v0] d IH]; simpl.
  - reflexivity.
  - destruct (String.eqb k0 k) eqn:E0; simpl.
    + apply String.eqb_eq in E0. subst k0.
      destruct (String.eqb k k'); reflexivity.
    + rewrite IH. destruct (String.eqb k0 k') eqn:E1; [|reflexivity].
      destruct (String.eqb k k') eqn:E2; [|reflexivity].
      apply String.eqb_eq in E1, E2. subst k0 k.
      rewrite String.eqb_refl in E0. discriminate.
Qed.

Lemma dict_set_keys {V} (d : dict V) k v :
  map fst (dict_set d k v)
  = if is_some (dict_get d k) then map fst d else map fst d ++ [k].
Proof.
  induction d as [|[k0 v0] d IH]; simpl; [reflexivity|].
  destruct (String.eqb k0 k) eqn:E0; simpl; [reflexivity|].
  rewrite IH. destruct (is_some (dict_get d k)); reflexivity.
Qed.

Lemma dict_get_none_keys {V} (d : dict V) k :
  dict_get d k = None <-> ~ In k (map fst d).
Proof.
  induction d as [|[k0 v0] d IH]; simpl.
  - split; auto.
  - destruct (String.eqb k0 k) eqn:E0.
    + apply String.eqb_eq in E0. split; [discriminate|]. intros H.
      elim H. now left.
    + apply String.eqb_neq in E0. rewrite IH. tauto.
Qed.

Lemma dict_set_nodup {V} (d : dict V) k v :
  NoDup (map fst d) -> NoDup (map fst (dict_set d k v)).
Proof.
  intros H. rewrite dict_set_keys.
  destruct (dict_get d k) eqn:E; simpl; [exact H|].
  apply dict_get_none_keys in E.
  apply NoDup_app; auto.
  - constructor; [intros []|constructor].
  - intros x Hx [Hy|[]]. subst x. contradiction.
Qed.

Lemma fold_dict_set_nodup (l : list (string * zone)) : forall acc,
  NoDup (map fst acc) ->
  NoDup (map fst (fold_left (fun a nz => dict_set a (fst nz) (snd nz)) l acc)).
Proof.
  induction l as [|[n z] l IH]; intros acc H; simpl; [exact H|].
  apply IH. now apply dict_set_nodup.
Qed.

Lemma find_over_app {A} (f : A -> bool) l1 l2 :
  find f (l1 ++ l2) = match find f l1 with
                      | Some x => Some x
                      | None => find f l2
                      end.
Proof.
  induction l1 as [|a l1 IH]; simpl; [reflexivity|].
  destruct (f a); [reflexivity|exact IH].
Qed.

Lemma fold_dict_set_get (l : list (string * zone)) n : forall acc,
  dict_get (fold_left (fun a nz => dict_set a (fst nz) (snd nz)) l acc) n
  = match find (fun nz => String.eqb (fst nz) n) (rev l) with
    | Some nz => Some (snd nz)
    | None => dict_get acc n
    end.
Proof.
  induction l as [|[k z] l IH]; intros acc; simpl; [reflexivity|].
  rewrite IH, find_over_app. 
  destruct (find (fun nz => String.eqb (fst nz) n) (rev l)); [reflexivity|].
  simpl. rewrite dict_get_set. destruct (String.eqb k n); reflexivity.
Qed.

Lemma zones_by_name_nodup zone_list : NoDup (map fst (zones_by_name zone_list)).
Proof. unfold zones_by_name. apply fold_dict_set_nodup. constructor. Qed.

(** X5.  [self.zones] holds each configured name once, and under a name the
    last zone of the configuration that bears it: a later duplicate
    silently replaces an earlier one. *)
Theorem zones_keyed_by_name :
  forall zone_list hw script opens,
    let b := __init__ zone_list hw script opens in
    NoDup (map fst (zones b))
    /\ (forall n,
           dict_get (zones b) n
           = option_map snd
               (find (fun nz => String.eqb (fst nz) n) (rev zone_list)))
    /\ (forall n, In n (map fst (zones b)) <-> In n (map fst zone_list)).
Proof.
  intros zone_list hw script opens b. subst b. simpl.
  unfold zones_by_name.
  assert (G : forall n,
             dict_get (fold_left (fun a nz => dict_set a (fst nz) (snd nz))
                                 zone_list []) n
             = option_map snd
                 (find (fun nz => String.eqb (fst nz) n) (rev zone_list))).
  { intros n. rewrite fold_dict_set_get.
    destruct (find _ (rev zone_list)); reflexivity. }
  split; [apply (zones_by_name_nodup zone_list)|].
  split; [exact G|].
  intros n. split.
  - intros Hin.
    destruct (dict_get (fold_left (fun a nz => dict_set a (fst nz) (snd nz))
                                  zone_list []) n) as [z|] eqn:E.
    + rewrite G in E.
      destruct (find (fun nz => String.eqb (fst nz) n) (rev zone_list))
        as [[k z']|] eqn:F; [|discriminate].
      apply find_some in F. destruct F as [F1 F2]. simpl in F2.
      apply String.eqb_eq in F2. subst k.
      apply in_rev in F1. apply (in_map fst) in F1. exact F1.
    + apply dict_get_none_keys in E. contradiction.
  - intros Hin.
    destruct (dict_get (fold_left (fun a nz => dict_set a (fst nz) (snd nz))
                                  zone_list []) n) as [z|] eqn:E.
    + destruct (in_dec string_dec n
                  (map fst (fold_left (fun a nz => dict_set a (fst nz) (snd nz))
                                      zone_list []))) as [Y|N]; [exact Y|].
      apply dict_get_none_keys in N. congruence.
    + rewrite G in E.
      apply in_map_iff in Hin. destruct Hin as [[k z] [Hk Hin]].
      simpl in Hk. subst k.
      destruct (find (fun nz => String.eqb (fst nz) n) (rev zone_list))
        eqn:F; [discriminate|].
      apply in_rev in Hin.
      pose proof (find_none _ _ F (n, z) Hin) as F'.
      simpl in F'. rewrite String.eqb_refl in F'. discriminate.
Qed.

Lemma pick_hotwater_fold (zs : dict zone) h : forall acc,
  fold_left
    (fun acc nz =>
       match Some h with
       | Some h => if (zone_id (snd nz) =? hw_zone_id h)%Z
                   then Some (fst nz) else acc
       | None => acc
       end) zs acc
  = match find (fun nz => (zone_id (snd nz) =? hw_zone_id h)%Z) (rev zs) with
    | Some nz => Some (fst nz)
    | None => acc
    end.
Proof.
  induction zs as [|[n z] zs IH]; intros acc; simpl; [reflexivity|].
  rewrite IH, find_over_app.
  destruct (find _ (rev zs)); [reflexivity|].
  simpl. destruct (zone_id z =? hw_zone_id h)%Z; reflexivity.
Qed.

(** X6.  [hotwaterThermostat] is the thermostat of the last zone whose id is
    the hot-water zone id; it stays [None] exactly when hot water is not
    configured or no zone has that id. *)
Theorem hotwater_thermostat_chosen :
  forall zone_list hw script opens,
    let b := __init__ zone_list hw script opens in
    (hotwaterThermostat b = None <->
     hw = None
     \/ exists h, hw = Some h
                  /\ forall n z, In (n, z) (zones b) ->
                                 zone_id z <> hw_zone_id h)
    /\ (forall n, hotwaterThermostat b = Some n ->
                  exists h z, hw = Some h
                              /\ dict_get (zones b) n = Some z
                              /\ zone_id z = hw_zone_id h).
Proof.
  intros zone_list hw script opens b. subst b. simpl.
  set (zs := zones_by_name zone_list).
  assert (ND : NoDup (map fst zs)) by apply zones_by_name_nodup.
  destruct hw as [h|].
  - unfold pick_hotwater. rewrite pick_hotwater_fold.
    destruct (find (fun nz => (zone_id (snd nz) =? hw_zone_id h)%Z) (rev zs))
      as [[n z]|] eqn:F.
    + apply find_some in F. destruct F as [F1 F2]. simpl in F2.
      apply Z.eqb_eq in F2. apply in_rev in F1. split.
      * split; [discriminate|].
        intros [C|[h0 [E C]]]; [discriminate|].
        inversion E; subst h0. elim (C n z F1 F2).
      * intros n0 E. inversion E; subst n0. exists h, z.
        repeat split; auto.
        clear - F1 ND. induction zs as [|[k v] zs IH]; [destruct F1|].
        simpl in *. inversion ND; subst.
        destruct F1 as [F1|F1].
        -- inversion F1; subst. now rewrite String.eqb_refl.
        -- destruct (String.eqb k n) eqn:E.
           ++ apply String.eqb_eq in E. subst k.
              elim H1. apply (in_map fst) in F1. exact F1.
           ++ now apply IH.
    + split.
      * split; [|reflexivity]. intros _. right. exists h. split; [reflexivity|].
        intros n z Hin E.
        apply in_rev in Hin.
        pose proof (find_none _ _ F (n, z) Hin) as F'.
        simpl in F'. apply Z.eqb_neq in F'. contradiction.
      * discriminate.
  - unfold pick_hotwater.
    assert (E : forall (l : dict zone) acc,
               fold_left (fun (acc : option string) (nz : string * zone) => acc)
                         l acc = acc)
      by (induction l; simpl; auto).
    rewrite E. split; [split; auto|discriminate].
Qed.

(* ------------------------------------------------------------------ *)
(** ** Hot-water messages                                               *)
(* ------------------------------------------------------------------ *)

Ltac step_on_message :=
  unfold on_message, bind, get, LOG, emit, modify; cbv beta iota;
  repeat match goal with
         | |- context [hotwater (set_trace ?t ?b)] =>
             change (hotwater (set_trace t b)) with (hotwater b)
         | |- context [hotwaterThermostat (set_trace ?t ?b)] =>
             change (hotwaterThermostat (set_trace t b))
               with (hotwaterThermostat b)
         | |- context [zones (set_trace ?t ?b)] =>
             change (zones (set_trace t b)) with (zones b)
         end.

(** The hot-water branch of [on_message], entered. *)
Lemma on_message_hotwater topic raw b :
  startswith topic "home/heatmiser/hotwater/set/" = true ->
  hotwater b <> None ->
  on_message topic raw b
  = (if endswith topic "hw_state" then
       if String.eqb (upper (strip raw)) "ON" then
         match hotwaterThermostat b with
         | None => raise (AttributeError "set_hotwater_state")
         | Some t =>
             enqueue_task PRIORITY_COMMAND (set_hotwater_state t HW_ON)
                          "HotWater ON" false
                          (Some (cb_publish_hotwater_state (upper (strip raw))))
         end
       else if String.eqb (upper (strip raw)) "OFF" then
         match hotwaterThermostat b with
         | None => raise (AttributeError "set_hotwater_state")
         | Some t =>
             enqueue_task PRIORITY_COMMAND (set_hotwater_state t HW_OFF)
                          "HotWater OFF" false
                          (Some (cb_publish_hotwater_state (upper (strip raw))))
         end
       else LOG WARNING "Invalid hotwater payload: %s"
     else ret tt)
      (set_trace (trace b ++ [EvLog INFO "MQTT RX: %s => %s"]) b).
Proof.
  intros Hp Hh. step_on_message.
  destruct (hotwater b) as [h|]; [|now elim Hh]. rewrite Hp. reflexivity.
Qed.

(** X7.  A hot-water payload that reads [ON] or [OFF] in any casing becomes
    one command for the hot-water thermostat; its callback publishes that
    word, in upper case, as the retained hot-water state, without asking
    the hub. *)
Theorem hot_water_command :
  forall b topic raw h t st,
    hotwater b = Some h ->
    hotwaterThermostat b = Some t ->
    startswith topic "home/heatmiser/hotwater/set/" = true ->
    endswith topic "hw_state" = true ->
    upper (strip raw) = hw_word st ->
    let cb := cb_publish_hotwater_state (hw_word st) in
    (exists b',
        on_message topic raw b = (Ret tt, b')
        /\ task_queue b'
           = task_queue b
             ++ [{| priority := PRIORITY_COMMAND; count := _counter b;
                    body := {| func := set_hotwater_state t st;
                               desc := "HotWater " ++ hw_word st;
                               is_poll := false;
                               callback := Some cb |} |}])
    /\ (forall b2 r,
           hotwater b2 <> None ->
           exists b3,
             run_callback cb r b2 = (Ret tt, b3)
             /\ trace b3
                = trace b2
                  ++ [EvPublish "home/heatmiser/hotwater/state/hw_state"
                                (VStr (hw_word st)) true;
                      EvLog DEBUG "Hot water state published: %s"]
             /\ uh1_calls b3 = uh1_calls b2).
Proof.
  intros b topic raw h t st Hh Ht Hp He Hu cb. split.
  - rewrite on_message_hotwater by (auto; congruence).
    rewrite He, Ht, Hu.
    destruct st; simpl; eexists; split; reflexivity.
  - intros b2 r Hb2. unfold cb, run_callback, _publish_hotwater_state.
    unfold bind, get. cbv beta iota.
    destruct (hotwater b2) as [h2|]; [|now elim Hb2]. simpl.
    eexists. split; [reflexivity|]. simpl.
    split; [now rewrite <- app_assoc|reflexivity].
Qed.

Lemma hot_water_command_witness :
  let b := __init__ [("kitchen", {| zone_id := 2; zone_type := "prthw";
                                     sensor_type := Some "air" |})]
                    (Some {| hw_zone_id := 2 |})
                    (fails_first 0) (fun _ => true) in
  let cb := cb_publish_hotwater_state "OFF" in
  (exists b',
      on_message "home/heatmiser/hotwater/set/hw_state" "off" b = (Ret tt, b')
      /\ task_queue b'
         = [{| priority := 0; count := 0;
               body := {| func := set_hotwater_state "kitchen" HW_OFF;
                          desc := "HotWater OFF";
                          is_poll := false;
                          callback := Some cb |} |}])
  /\ (exists b3,
         run_callback cb RNone b = (Ret tt, b3)
         /\ trace b3
            = [EvPublish "home/heatmiser/hotwater/state/hw_state"
                         (VStr "OFF") true;
               EvLog DEBUG "Hot water state published: %s"]).
Proof.
  pose (b := __init__ [("kitchen", {| zone_id := 2; zone_type := "prthw";
                                       sensor_type := Some "air" |})]
                      (Some {| hw_zone_id := 2 |})
                      (fails_first 0) (fun _ => true)).
  destruct (@hot_water_command b "home/heatmiser/hotwater/set/hw_state" "off"
              {| hw_zone_id := 2 |} "kitchen" HW_OFF
              eq_refl eq_refl eq_refl eq_refl eq_refl) as [A B].
  split.
  - exact A.
  - destruct (B b RNone ltac:(discriminate)) as (b3 & E1 & E2 & _).
    exists b3. split; [exact E1|exact E2].
Defined.

(** X8.  Any other payload, ASCII text, on the hot-water state topic is
    logged as invalid and dropped. *)
Theorem hot_water_payload_rejected :
  forall b topic raw,
    hotwater b <> None ->
    startswith topic "home/heatmiser/hotwater/set/" = true ->
    endswith topic "hw_state" = true ->
    ascii_text raw = true ->
    upper (strip raw) <> "ON" ->
    upper (strip raw) <> "OFF" ->
    on_message topic raw b
    = (Ret tt,
       set_trace (trace b ++ [EvLog INFO "MQTT RX: %s => %s";
                              EvLog WARNING "Invalid hotwater payload: %s"]) b).
Proof.
  intros b topic raw Hh Hp He _ Hon Hoff.
  rewrite on_message_hotwater by auto. rewrite He.
  apply String.eqb_neq in Hon, Hoff. rewrite Hon, Hoff.
  unfold LOG, emit, modify, set_trace. simpl. now rewrite <- app_assoc.
Qed.

Lemma hot_water_payload_rejected_witness :
  let b := __init__ [("kitchen", {| zone_id := 2; zone_type := "prthw";
                                     sensor_type := Some "air" |})]
                    (Some {| hw_zone_id := 2 |})
                    (fails_first 0) (fun _ => true) in
  on_message "home/heatmiser/hotwater/set/hw_state" "toggle" b
  = (Ret tt,
     set_trace (trace b ++ [EvLog INFO "MQTT RX: %s => %s";
                            EvLog WARNING "Invalid hotwater payload: %s"]) b).
Proof.
  apply hot_water_payload_rejected;
    [discriminate|reflexivity|reflexivity|reflexivity
    |vm_compute; discriminate|vm_compute; discriminate].
Defined.

(** X9.  With hot water configured, a message under the hot-water command
    prefix whose topic does not end in [hw_state] is only logged: the
    handler returns before it looks at the zones, so a zone that is itself
    named [hotwater] cannot be commanded. *)
Theorem hot_water_prefix_shadows_zone :
  forall b topic raw,
    hotwater b <> None ->
    startswith topic "home/heatmiser/hotwater/set/" = true ->
    endswith topic "hw_state" = false ->
    on_message topic raw b
    = (Ret tt, set_trace (trace b ++ [EvLog INFO "MQTT RX: %s => %s"]) b).
Proof.
  intros b topic raw Hh Hp He.
  rewrite on_message_hotwater by auto. now rewrite He.
Qed.

Lemma hot_water_prefix_shadows_zone_witness :
  let b := __init__ [("hotwater", {| zone_id := 2; zone_type := "prthw";
                                      sensor_type := Some "air" |})]
                    (Some {| hw_zone_id := 2 |})
                    (fails_first 0) (fun _ => true) in
  dict_get (zones b) "hotwater" <> None
  /\ on_message "home/heatmiser/hotwater/set/target" "21" b
     = (Ret tt, set_trace (trace b ++ [EvLog INFO "MQTT RX: %s => %s"]) b).
Proof.
  split; [discriminate|].
  apply hot_water_prefix_shadows_zone; [discriminate|reflexivity|reflexivity].
Defined.

Lemma pick_hotwater_none zs h :
  (forall n z, In (n, z) zs -> zone_id z <> hw_zone_id h) ->
  pick_hotwater zs (Some h) = None.
Proof.
  intros H. unfold pick_hotwater. rewrite pick_hotwater_fold.
  destruct (find (fun nz => (zone_id (snd nz) =? hw_zone_id h)%Z) (rev zs))
    as [[n z]|] eqn:F; [|reflexivity].
  apply find_some in F. destruct F as [F1 F2]. simpl in F2.
  apply Z.eqb_eq in F2. apply in_rev in F1. elim (H n z F1 F2).
Qed.

(** X10.  Hot water configured with a zone id that no zone has: an [ON] or
    [OFF] message on the hot-water state topic makes [on_message] raise
    [AttributeError] (there is no thermostat to take the command), and
    nothing is enqueued. *)
Theorem hot_water_without_thermostat :
  forall zone_list h script opens raw st,
    (forall n z, In (n, z) (zones_by_name zone_list) ->
                 zone_id z <> hw_zone_id h) ->
    upper (strip raw) = hw_word st ->
    let b := __init__ zone_list (Some h) script opens in
    let r := on_message "home/heatmiser/hotwater/set/hw_state" raw b in
    fst r = Raise (AttributeError "set_hotwater_state")
    /\ task_queue (snd r) = []
    /\ _counter (snd r) = 0.
Proof.
  intros zone_list h script opens raw st Hz Hu b r. subst r b.
  rewrite on_message_hotwater by (try reflexivity; discriminate).
  change (endswith "home/heatmiser/hotwater/set/hw_state" "hw_state") with true.
  cbv iota.
  change (hotwaterThermostat (__init__ zone_list (Some h) script opens))
    with (pick_hotwater (zones_by_name zone_list) (Some h)).
  rewrite (@pick_hotwater_none _ h Hz), Hu.
  destruct st; simpl; repeat split.
Qed.

Lemma hot_water_without_thermostat_witness :
  let b := __init__ [("lounge", lounge)] (Some {| hw_zone_id := 9 |})
                    (fails_first 0) (fun _ => true) in
  let r := on_message "home/heatmiser/hotwater/set/hw_state" "on" b in
  fst r = Raise (AttributeError "set_hotwater_state")
  /\ task_queue (snd r) = []
  /\ _counter (snd r) = 0.
Proof.
  apply (@hot_water_without_thermostat [("lounge", lounge)]
           {| hw_zone_id := 9 |} (fails_first 0) (fun _ => true) "on" HW_ON).
  - intros n z [H|[]]. inversion H; subst. discriminate.
  - reflexivity.
Defined.

(* ------------------------------------------------------------------ *)
(** ** What the message handler does to the bridge                      *)
(* ------------------------------------------------------------------ *)

Ltac settle_produced :=
  unfold ret, raise, enqueue_task, next_counter, modify, bind, LOG, emit,
    queue_put;
  simpl; split;
  [discriminate
  |unfold produced; simpl;
   split; [reflexivity|];
   split; [reflexivity|];
   split; [reflexivity|];
   split; [reflexivity|];
   split;
   [eexists; split; [try rewrite <- app_assoc; reflexivity|reflexivity]
   |first [left; split; reflexivity
          |right; eexists; repeat split; reflexivity]]].

Lemma zone_command_produced topic payload name b :
  let r := zone_command topic payload name
             (set_trace (trace b ++ [EvLog INFO "MQTT RX: %s => %s"]) b) in
  fst r <> Block /\ produced b (snd r).
Proof.
  cbv zeta. unfold zone_command.
  destruct (endswith topic "target").
  - unfold try_except, py_float, py_round, bind.
    destruct (parse_float payload) as [[m e|neg|]|]; simpl; settle_produced.
  - destruct (endswith topic "mode"); settle_produced.
Qed.

Lemma on_message_zones_produced topic payload b : forall zs,
  let r := on_message_zones topic payload zs
             (set_trace (trace b ++ [EvLog INFO "MQTT RX: %s => %s"]) b) in
  fst r <> Block /\ produced b (snd r).
Proof.
  induction zs as [|[name z] zs IH]; simpl.
  - settle_produced.
  - match goal with
    | |- context [if ?c then _ else _] => destruct c
    end.
    + apply zone_command_produced.
    + exact IH.
Qed.

(** The zone branch of [on_message], entered. *)
Lemma on_message_zone_branch topic raw b :
  startswith topic "home/heatmiser/hotwater/set/" && is_some (hotwater b)
  = false ->
  on_message topic raw b
  = on_message_zones topic (strip raw) (zones b)
      (set_trace (trace b ++ [EvLog INFO "MQTT RX: %s => %s"]) b).
Proof.
  intros H. step_on_message. rewrite H. reflexivity.
Qed.

(** X11.  [on_message] never waits for anything and never touches the transport:
    it leaves the lock, the connection, the exchange counter and the poll
    flag as they are, publishes nothing, and enqueues nothing or exactly
    one task, a command that is not a poll and carries the next sequence
    number. *)
Theorem message_handler_only_enqueues :
  forall topic raw b,
    let r := on_message topic raw b in
    fst r <> Block /\ produced b (snd r).
Proof.
  intros topic raw b. cbv zeta.
  destruct (startswith topic "home/heatmiser/hotwater/set/"
            && is_some (hotwater b)) eqn:C.
  - apply andb_true_iff in C. destruct C as [Cp Ch].
    rewrite on_message_hotwater;
      [|exact Cp|destruct (hotwater b); [discriminate|discriminate Ch]].
    destruct (endswith topic "hw_state"); [|settle_produced].
    destruct (String.eqb (upper (strip raw)) "ON").
    + destruct (hotwaterThermostat b); settle_produced.
    + destruct (String.eqb (upper (strip raw)) "OFF"); [|settle_produced].
      destruct (hotwaterThermostat b); settle_produced.
  - rewrite (on_message_zone_branch _ _ _ C).
    apply on_message_zones_produced.
Qed.

Lemma string_app_assoc (a b c : string) :
  ((a ++ b) ++ c)%string = (a ++ (b ++ c))%string.
Proof. induction a as [|x a IH]; simpl; [reflexivity|now rewrite IH]. Qed.

Lemma on_message_zones_acts topic payload : forall zs b,
  let r := on_message_zones topic payload zs b in
  task_queue (snd r) <> task_queue b \/ fst r <> Ret tt ->
  exists name,
    In name (map fst zs)
    /\ startswith topic ("home/heatmiser/" ++ name ++ "/set/") = true.
Proof.
  induction zs as [|[name z] zs IH]; intros b; cbv zeta.
  - simpl. intros [H|H]; now elim H.
  - change (on_message_zones topic payload ((name, z) :: zs))
      with (if startswith topic ("home/heatmiser/" ++ name ++ "/set/")
            then zone_command topic payload name
            else on_message_zones topic payload zs).
    destruct (startswith topic ("home/heatmiser/" ++ name ++ "/set/")) eqn:E.
    + intros _. exists name. split; [now left|exact E].
    + intros H. destruct (IH b H) as [n [Hin Hs]].
      exists n. split; [now right|exact Hs].
Qed.

(** X12.  Given a payload of ASCII text (one that is not UTF-8 makes
    the handler raise at once, whatever the topic), [on_message] acts
    (enqueues a task or raises) only on topics under one of the filters
    that [on_connect] subscribes to; any other topic is logged and
    ignored. *)
Theorem acts_only_on_subscribed_topics :
  forall topic raw b,
    ascii_text raw = true ->
    let r := on_message topic raw b in
    task_queue (snd r) <> task_queue b \/ fst r <> Ret tt ->
    exists filter, In filter (on_connect b) /\ under_filter filter topic.
Proof.
  intros topic raw b _. cbv zeta.
  destruct (startswith topic "home/heatmiser/hotwater/set/"
            && is_some (hotwater b)) eqn:C.
  - intros _. apply andb_true_iff in C. destruct C as [Cp Ch].
    exists "home/heatmiser/hotwater/set/#". split.
    + unfold on_connect. rewrite Ch. apply in_or_app. right. now left.
    + exists "home/heatmiser/hotwater/set/". split; [reflexivity|exact Cp].
  - rewrite (on_message_zone_branch _ _ _ C). intros H.
    destruct (@on_message_zones_acts topic (strip raw) (zones b) _ H)
      as [name [Hin Hs]].
    exists ("home/heatmiser/" ++ name ++ "/set/#")%string. split.
    + unfold on_connect. apply in_or_app. left.
      apply in_map_iff in Hin. destruct Hin as [[n z] [E Hin]].
      simpl in E. subst n.
      apply in_map_iff. exists (name, z). split; [reflexivity|exact Hin].
    + exists ("home/heatmiser/" ++ name ++ "/set/")%string. split; [|exact Hs].
      rewrite !string_app_assoc. reflexivity.
Qed.

Lemma acts_only_on_subscribed_topics_witness :
  let b := lounge_bridge (fails_first 0) in
  exists filter,
    In filter (on_connect b)
    /\ under_filter filter "home/heatmiser/lounge/set/target".
Proof.
  apply (@acts_only_on_subscribed_topics
           "home/heatmiser/lounge/set/target" "21"
           (lounge_bridge (fails_first 0)) eq_refl).
  left. vm_compute. discriminate.
Defined.

(* ------------------------------------------------------------------ *)
(** ** An attempt that the hub answers                                  *)
(* ------------------------------------------------------------------ *)

Lemma only_trace_refl b : only_trace b b.
Proof. destruct b. reflexivity. Qed.

Lemma only_trace_trans b1 b2 b3 :
  only_trace b1 b2 -> only_trace b2 b3 -> only_trace b1 b3.
Proof.
  unfold only_trace. intros H1 H2. rewrite H2 at 1. rewrite H1 at 1.
  reflexivity.
Qed.

Lemma only_trace_set t b : only_trace b (set_trace t b).
Proof. reflexivity. Qed.

Lemma silent_refl b : silent b b.
Proof. repeat split. Qed.

Lemma silent_trans b1 b2 b3 : silent b1 b2 -> silent b2 b3 -> silent b1 b3.
Proof.
  unfold silent. intros (A1 & A2 & A3 & A4 & A5) (B1 & B2 & B3 & B4 & B5).
  repeat split; congruence.
Qed.

Lemma ops_called_app l1 l2 :
  ops_called (l1 ++ l2) = ops_called l1 ++ ops_called l2.
Proof. unfold ops_called. apply flat_map_app. Qed.

Lemma task_dones_app l1 l2 :
  task_dones (l1 ++ l2) = task_dones l1 + task_dones l2.
Proof. unfold task_dones. now rewrite filter_app, length_app. Qed.

Lemma warning_logs_app l1 l2 :
  warning_logs (l1 ++ l2) = warning_logs l1 ++ warning_logs l2.
Proof. unfold warning_logs. apply filter_app. Qed.

(** Logging below WARNING and sleeping are silent. *)
Lemma silent_snoc b ev :
  published [ev] = [] -> ops_called [ev] = [] -> task_dones [ev] = 0 ->
  error_logs [ev] = [] -> warning_logs [ev] = [] ->
  silent b (set_trace (trace b ++ [ev]) b).
Proof.
  intros H1 H2 H3 H4 H5. unfold silent. simpl.
  rewrite published_app, ops_called_app, task_dones_app, error_logs_app,
    warning_logs_app, H1, H2, H3, H4, H5, !app_nil_r.
  repeat split. lia.
Qed.

(** [with_lock] when the lock is free and the first call returns. *)
Lemma with_lock_first_returns (f : M result) retries delay b v b2 :
  depth (hm_lock b) = 0 ->
  f (acquired b) = (Ret v, b2) ->
  with_lock f retries delay b = (Ret v, released b2).
Proof.
  intros Hd Hf. unfold with_lock.
  replace (retries + 1) with (S retries) by lia.
  simpl. rewrite bind_unfold. rewrite (bind_unfold (attempt_body _ _ _ _)).
  unfold attempt_body. rewrite with_hm_lock_unfold, Hd.
  fold (acquired b).
  unfold try_finally. rewrite (bind_unfold (try_except _ _ _)).
  unfold try_except. rewrite bind_unfold, Hf.
  unfold ret. cbv beta iota. unfold released.
  rewrite bind_unfold.
  destruct (release b2) as [[[]|x|] b3] eqn:E; try discriminate; reflexivity.
Qed.

(** [with_lock] when the lock is free and the first call raises an error
    that is not a transport error. *)
Lemma with_lock_first_raises (f : M result) retries delay b x b2 :
  depth (hm_lock b) = 0 ->
  f (acquired b) = (Raise x, b2) ->
  is_transport_error x = false ->
  with_lock f retries delay b = (Raise x, released b2).
Proof.
  intros Hd Hf Hx. unfold with_lock.
  replace (retries + 1) with (S retries) by lia.
  simpl. rewrite bind_unfold. rewrite (bind_unfold (attempt_body _ _ _ _)).
  unfold attempt_body. rewrite with_hm_lock_unfold, Hd.
  fold (acquired b).
  unfold try_finally. rewrite (bind_unfold (try_except _ _ _)).
  unfold try_except. rewrite bind_unfold, Hf, Hx.
  cbv beta iota. unfold released.
  rewrite bind_unfold.
  destruct (release b2) as [[[]|y|] b3] eqn:E; try discriminate; reflexivity.
Qed.

(** [run_func] on a reply of the hub. *)
Lemma run_func_answered op b snapshot :
  uh1_script b (uh1_calls b) = Reads snapshot ->
  run_func op b
  = match op with
    | poll_all => poll_all_body snapshot (called op b)
    | _ => (Ret RNone, called op b)
    end.
Proof.
  intros H.
  destruct b as [zs hw hwt lk conn q c pp script calls opens tr].
  simpl in H.
  unfold run_func, called, uh1_exchange, bind, get, emit, modify.
  simpl. rewrite H. destruct op; reflexivity.
Qed.

Lemma time_sleep_unfold site ms b :
  time_sleep site ms b
  = (Ret tt, set_trace (trace b ++ [EvSleep site ms (depth (hm_lock b))]) b).
Proof. reflexivity. Qed.

Lemma only_trace_config b b' :
  only_trace b b' ->
  untouched b b' /\ hm_lock b' = hm_lock b /\ hm_conn b' = hm_conn b
  /\ uh1_calls b' = uh1_calls b.
Proof.
  unfold only_trace. intros H. rewrite H. unfold untouched. simpl.
  repeat split.
Qed.

(** The loop of [poll_all] always comes to its end; it only sleeps. *)
Lemma poll_zones_returns zs snapshot : forall results b,
  exists b',
    poll_zones zs snapshot results b
    = (Ret (fold_left
              (fun acc nz =>
                 dict_set acc (fst nz)
                          (poll_zone_result (snd nz) (snapshot (fst nz))))
              zs results), b')
    /\ only_trace b b' /\ silent b b'.
Proof.
  induction zs as [|[name z] zs IH]; intros results b.
  - exists b. simpl. split; [reflexivity|].
    split; [apply only_trace_refl|apply silent_refl].
  - simpl poll_zones. rewrite bind_unfold, time_sleep_unfold. cbv beta iota.
    destruct (IH (dict_set results name (poll_zone_result z (snapshot name)))
                 (set_trace (trace b ++ [EvSleep poll_zone_gap 50
                                                (depth (hm_lock b))]) b))
      as (b' & E & T & S).
    exists b'. split; [exact E|]. split.
    + eapply only_trace_trans; [apply only_trace_set|exact T].
    + eapply silent_trans; [|exact S]. now apply silent_snoc.
Qed.

Lemma fold_dict_set_fresh (zs : dict zone) snapshot : forall results,
  NoDup (map fst zs) ->
  (forall n, In n (map fst zs) -> dict_get results n = None) ->
  fold_left
    (fun acc nz =>
       dict_set acc (fst nz) (poll_zone_result (snd nz) (snapshot (fst nz))))
    zs results
  = results ++ zone_results zs snapshot.
Proof.
  assert (A : forall (d : dict (dict pyval)) k v,
             dict_get d k = None -> dict_set d k v = d ++ [(k, v)]).
  { induction d as [|[k0 v0] d IHd]; intros k v H; simpl in *; [reflexivity|].
    destruct (String.eqb k0 k); [discriminate|]. now rewrite IHd. }
  induction zs as [|[name z] zs IH]; intros results ND F; simpl.
  - now rewrite app_nil_r.
  - inversion ND; subst.
    rewrite A by (apply F; now left).
    rewrite IH; auto.
    + now rewrite <- app_assoc.
    + intros n Hn. 
      assert (Hne : name <> n) by (intros ->; contradiction).
      clear - F Hn Hne. 
      assert (G : dict_get results n = None) by (apply F; now right).
      revert G. generalize results. 
      induction results0 as [|[k0 v0] d IHd]; simpl; intros G.
      * apply String.eqb_neq in Hne. now rewrite Hne.
      * destruct (String.eqb k0 n); [discriminate|]. now apply IHd.
Qed.

(** The body of [poll_all] on the readings of the hub. *)
Lemma poll_all_body_spec snapshot b :
  exists b',
    only_trace b b' /\ silent b b'
    /\ poll_all_body snapshot b
       = (let results :=
            fold_left
              (fun acc nz =>
                 dict_set acc (fst nz)
                          (poll_zone_result (snd nz) (snapshot (fst nz))))
              (zones b) [] in
          match hotwater b with
          | None => Ret (RDict results)
          | Some _ =>
              match hotwaterThermostat b with
              | None => Raise (AttributeError "get_hotwater_state")
              | Some t =>
                  Ret (RDict (dict_set results "hotwater"
                                [("hw_state",
                                  VStr (upper (hotwater_state (snapshot t))))]))
              end
          end, b').
Proof.
  destruct (poll_zones_returns (zones b) snapshot [] b) as (b' & E & T & S).
  exists b'. split; [exact T|]. split; [exact S|].
  unfold poll_all_body. rewrite bind_unfold. unfold get at 1. cbv beta iota.
  rewrite bind_unfold, E. cbv beta iota zeta.
  rewrite bind_unfold. unfold get at 1. cbv beta iota.
  destruct (only_trace_config T) as (U & _).
  destruct U as (_ & Hh & Ht & _). rewrite Hh.
  destruct (hotwater b); [|reflexivity].
  rewrite bind_unfold. unfold get at 1. cbv beta iota. rewrite Ht.
  destruct (hotwaterThermostat b); reflexivity.
Qed.

(** The batch path on the entries of the zones: four messages each. *)
Lemma publish_zone_results snapshot rest : forall zs b,
  hotwater b = None \/ ~ In "hotwater" (map fst zs) ->
  exists b',
    _publish_poll_results (zone_results zs snapshot ++ rest) b
    = _publish_poll_results rest b'
    /\ only_trace b b'
    /\ published (trace b')
       = published (trace b)
         ++ flat_map (fun nz => zone_messages (fst nz) (snd nz)
                                              (snapshot (fst nz))) zs
    /\ ops_called (trace b') = ops_called (trace b)
    /\ task_dones (trace b') = task_dones (trace b)
    /\ error_logs (trace b') = error_logs (trace b)
    /\ warning_logs (trace b') = warning_logs (trace b).
Proof.
  induction zs as [|[name z] zs IH]; intros b Hh.
  - exists b. simpl. rewrite app_nil_r.
    repeat split. apply only_trace_refl.
  - assert (C : String.eqb name "hotwater" && is_some (hotwater b) = false).
    { destruct Hh as [Hh|Hh].
      - rewrite Hh. apply andb_false_r.
      - destruct (String.eqb name "hotwater") eqn:E; [|reflexivity].
        apply String.eqb_eq in E. subst name. elim Hh. now left. }
    simpl zone_results. simpl app.
    change (_publish_poll_results
              ((name, poll_zone_result z (snapshot name))
                 :: zone_results zs snapshot ++ rest) b)
      with ((hw <- get hotwater ;;
             (if String.eqb name "hotwater" && is_some hw then
                match dict_get (poll_zone_result z (snapshot name)) "hw_state" with
                | None | Some VNone => ret tt
                | Some v =>
                    mqtt_publish hotwater_state_topic v ;;
                    LOG DEBUG "Published polled hot water state"
                end
              else
                (v <- item (poll_zone_result z (snapshot name)) "temperature" ;;
                 mqtt_publish (state_topic name "temperature") v) ;;
                (v <- item (poll_zone_result z (snapshot name)) "target" ;;
                 mqtt_publish (state_topic name "target") v) ;;
                (v <- item (poll_zone_result z (snapshot name)) "mode" ;;
                 mqtt_publish (state_topic name "mode") v) ;;
                (v <- item (poll_zone_result z (snapshot name)) "action" ;;
                 mqtt_publish (state_topic name "action") v) ;;
                LOG DEBUG "Published polled state for %s") ;;
             _publish_poll_results (zone_results zs snapshot ++ rest)) b).
    rewrite bind_unfold. unfold get at 1. cbv beta iota. rewrite C.
    rewrite bind_unfold.
    set (b1 := set_trace
                 (trace b
                  ++ [EvPublish (state_topic name "temperature")
                                (poll_temperature z (snapshot name)) true;
                      EvPublish (state_topic name "target")
                                (target_temp (snapshot name)) true;
                      EvPublish (state_topic name "mode")
                                (VStr (derive_mode (snapshot name))) true;
                      EvPublish (state_topic name "action")
                                (VStr (derive_action (snapshot name))) true;
                      EvLog DEBUG "Published polled state for %s"]) b).
    assert (E1 :
      ((v <- item (poll_zone_result z (snapshot name)) "temperature" ;;
        mqtt_publish (state_topic name "temperature") v) ;;
       (v <- item (poll_zone_result z (snapshot name)) "target" ;;
        mqtt_publish (state_topic name "target") v) ;;
       (v <- item (poll_zone_result z (snapshot name)) "mode" ;;
        mqtt_publish (state_topic name "mode") v) ;;
       (v <- item (poll_zone_result z (snapshot name)) "action" ;;
        mqtt_publish (state_topic name "action") v) ;;
       LOG DEBUG "Published polled state for %s") b = (Ret tt, b1)).
    { unfold b1, item, mqtt_publish, LOG, emit, modify, bind, ret. simpl.
      unfold set_trace. simpl. repeat rewrite <- app_assoc. reflexivity. }
    rewrite E1. cbv beta iota.
    destruct (IH b1) as (b' & E & T & P & O & D & L & W).
    { exact (match Hh with
             | or_introl H => or_introl H
             | or_intror H => or_intror (fun Hin => H (or_intror Hin))
             end). }
    exists b'. split; [exact E|].
    split; [eapply only_trace_trans; [apply only_trace_set|exact T]|].
    split.
    { rewrite P. unfold b1. simpl trace. rewrite published_app.
      simpl. now rewrite <- app_assoc. }
    unfold b1 in O, D, L, W. simpl trace in O, D, L, W.
    rewrite ops_called_app in O. rewrite task_dones_app in D.
    rewrite error_logs_app in L. rewrite warning_logs_app in W.
    simpl in O, D, L, W.
    rewrite app_nil_r in O, L, W. rewrite Nat.add_0_r in D.
    auto.
Qed.

(* ------------------------------------------------------------------ *)
(** ** A turn of the worker, step by step                               *)
(* ------------------------------------------------------------------ *)

Lemma worker_try_unfold t b :
  worker_try t b
  = match with_lock (run_func (func t)) default_retries default_delay
                    (announced b) with
    | (Ret r, b1) =>
        (match callback t with
         | Some cb =>
             try_except (run_callback cb r) any_Exception
                        (fun _ => LOG WARNING "Callback for %s failed: %s")
         | None => ret tt
         end ;;
         if is_poll t && is_dict r
         then match r with
              | RDict results => _publish_poll_results results
              | RNone => ret tt
              end
         else ret tt) b1
    | (Raise x, b1) => (Raise x, b1)
    | (Block, b1) => (Block, b1)
    end.
Proof. reflexivity. Qed.

Lemma worker_finally_unfold e b :
  worker_finally e b
  = (Ret tt,
     set_trace (trace b ++ [EvTaskDone;
                            EvSleep worker_throttle
                                    (if (priority e =? 1)%Z then 250 else 500)
                                    (depth (hm_lock b))])
               (if is_poll (body e) then set_poll_pending false b else b)).
Proof.
  unfold worker_finally, time_sleep, emit, modify, get, ret, bind.
  destruct (is_poll (body e)); simpl; unfold set_trace; simpl;
    now rewrite <- app_assoc.
Qed.

Lemma worker_iteration_of_try e b :
  worker_iteration e b
  = match worker_try (body e) b with
    | (Ret _, b1) => worker_finally e b1
    | (Raise _, b1) =>
        worker_finally e
          (set_trace (trace b1 ++ [EvLog ERROR "Task '%s' failed: %s"]) b1)
    | (Block, b1) => (Block, b1)
    end.
Proof.
  unfold worker_iteration, try_finally, try_except.
  destruct (worker_try (body e) b) as [[[]|x|] b1]; simpl.
  - rewrite bind_unfold, worker_finally_unfold. reflexivity.
  - unfold LOG, emit, modify. rewrite bind_unfold, worker_finally_unfold.
    reflexivity.
  - reflexivity.
Qed.

Lemma untouched_step b1 b2 :
  zones b2 = zones b1 -> hotwater b2 = hotwater b1 ->
  hotwaterThermostat b2 = hotwaterThermostat b1 ->
  task_queue b2 = task_queue b1 -> _counter b2 = _counter b1 ->
  _poll_pending b2 = _poll_pending b1 -> uh1_script b2 = uh1_script b1 ->
  port_opens b2 = port_opens b1 ->
  reentrant (hm_lock b2) = reentrant (hm_lock b1) ->
  untouched b1 b2.
Proof. unfold untouched. intros. repeat split; assumption. Qed.

(** A poll that the hub answers, from the call of [with_lock] to the
    release of the lock. *)
Lemma poll_answered b snapshot :
  depth (hm_lock b) = 0 ->
  uh1_script b (uh1_calls b) = Reads snapshot ->
  exists b1,
    with_lock (run_func poll_all) default_retries default_delay b
    = (let results :=
         fold_left
           (fun acc nz =>
              dict_set acc (fst nz)
                       (poll_zone_result (snd nz) (snapshot (fst nz))))
           (zones b) [] in
       match hotwater b with
       | None => Ret (RDict results)
       | Some _ =>
           match hotwaterThermostat b with
           | None => Raise (AttributeError "get_hotwater_state")
           | Some t =>
               Ret (RDict (dict_set results "hotwater"
                             [("hw_state",
                               VStr (upper (hotwater_state (snapshot t))))]))
           end
       end, b1)
    /\ untouched b b1
    /\ depth (hm_lock b1) = 0
    /\ uh1_calls b1 = S (uh1_calls b)
    /\ published (trace b1) = published (trace b)
    /\ ops_called (trace b1) = ops_called (trace b) ++ [poll_all]
    /\ task_dones (trace b1) = task_dones (trace b)
    /\ error_logs (trace b1) = error_logs (trace b)
    /\ warning_logs (trace b1) = warning_logs (trace b).
Proof.
  intros Hd Hs.
  destruct (poll_all_body_spec snapshot (called poll_all (acquired b)))
    as (b2 & T & S & E).
  change (zones (called poll_all (acquired b))) with (zones b) in E.
  change (hotwater (called poll_all (acquired b))) with (hotwater b) in E.
  change (hotwaterThermostat (called poll_all (acquired b)))
    with (hotwaterThermostat b) in E.
  assert (R : run_func poll_all (acquired b)
              = poll_all_body snapshot (called poll_all (acquired b))).
  { apply (@run_func_answered poll_all (acquired b) snapshot). exact Hs. }
  rewrite E in R. cbv zeta in R.
  destruct (only_trace_config T) as (U & L & _ & N).
  destruct S as (S1 & S2 & S3 & S4 & S5).
  exists (released b2).
  assert (F : untouched b (released b2)
              /\ depth (hm_lock (released b2)) = 0
              /\ uh1_calls (released b2) = S (uh1_calls b)
              /\ published (trace (released b2)) = published (trace b)
              /\ ops_called (trace (released b2))
                 = ops_called (trace b) ++ [poll_all]
              /\ task_dones (trace (released b2)) = task_dones (trace b)
              /\ error_logs (trace (released b2)) = error_logs (trace b)
              /\ warning_logs (trace (released b2)) = warning_logs (trace b)).
  { unfold released. simpl.
    rewrite published_app, ops_called_app, task_dones_app, error_logs_app,
      warning_logs_app, S1, S2, S3, S4, S5, L, N.
    unfold called, acquired. simpl.
    rewrite !published_app, !ops_called_app, !task_dones_app, !error_logs_app,
      !warning_logs_app. simpl. rewrite !app_nil_r, !Nat.add_0_r.
    split.
    { destruct U as (U1 & U2 & U3 & U4 & U5 & U6 & U7 & U8 & U9).
      apply untouched_step; simpl; auto. }
    repeat split. }
  cbv zeta.
  destruct (hotwater b) as [h|].
  - destruct (hotwaterThermostat b) as [t|].
    + split; [|exact F]. now apply with_lock_first_returns.
    + split; [|exact F]. now apply with_lock_first_raises.
  - split; [|exact F]. now apply with_lock_first_returns.
Qed.

(* ------------------------------------------------------------------ *)
(** ** The poll turn                                                    *)
(* ------------------------------------------------------------------ *)

Lemma zone_results_keys zs snapshot :
  map fst (zone_results zs snapshot) = map fst zs.
Proof. unfold zone_results. rewrite map_map. reflexivity. Qed.

(** X13.  A poll that the hub answers.  With zone names that are distinct (as
    [__init__] makes them) and, when hot water is configured, a hot-water
    thermostat and no zone named [hotwater]: the worker publishes, zone by
    zone in the order of the registry, the temperature (by sensor type),
    target, mode and action of each zone, then the hot-water state in
    upper case if hot water is configured; it logs no error, clears the
    poll flag and leaves the lock free and the queue alone. *)
Theorem poll_turn_publishes_every_zone :
  forall b c snapshot,
    depth (hm_lock b) = 0 ->
    uh1_script b (uh1_calls b) = Reads snapshot ->
    NoDup (map fst (zones b)) ->
    (hotwater b = None
     \/ (hotwaterThermostat b <> None
         /\ ~ In "hotwater" (map fst (zones b)))) ->
    exists b',
      worker_iteration (poll_entry c) b = (Ret tt, b')
      /\ published (trace b')
         = published (trace b)
           ++ flat_map (fun nz => zone_messages (fst nz) (snd nz)
                                                (snapshot (fst nz)))
                       (zones b)
           ++ hot_water_message b snapshot
      /\ error_logs (trace b') = error_logs (trace b)
      /\ ops_called (trace b') = ops_called (trace b) ++ [poll_all]
      /\ _poll_pending b' = false
      /\ depth (hm_lock b') = 0
      /\ uh1_calls b' = S (uh1_calls b)
      /\ task_queue b' = task_queue b.
Proof.
  intros b c snapshot Hd Hs ND Hw.
  destruct (@poll_answered (announced b) snapshot Hd Hs)
    as (b1 & E & U & D1 & N1 & P1 & O1 & T1 & L1 & W1).
  change (zones (announced b)) with (zones b) in E.
  change (hotwater (announced b)) with (hotwater b) in E.
  change (hotwaterThermostat (announced b)) with (hotwaterThermostat b) in E.
  rewrite (fold_dict_set_fresh (zones b) snapshot [] ND) in E
    by (intros; reflexivity).
  simpl app in E. cbv zeta in E.
  destruct U as (Uz & Uh & Ut & Uq & Uc & Up & Us & Uo & Ur).
  simpl in Uz, Uh, Ut, Uq, N1, P1, O1, L1.
  rewrite published_app in P1. rewrite ops_called_app in O1.
  rewrite error_logs_app in L1. simpl in P1, O1, L1.
  rewrite app_nil_r in P1, O1, L1.
  rewrite worker_iteration_of_try, worker_try_unfold.
  simpl func. simpl callback. simpl is_poll.
  assert (Fin : forall b2,
             only_trace b1 b2 ->
             published (trace b2)
             = published (trace b)
               ++ flat_map (fun nz => zone_messages (fst nz) (snd nz)
                                                    (snapshot (fst nz)))
                           (zones b)
               ++ hot_water_message b snapshot ->
             error_logs (trace b2) = error_logs (trace b) ->
             ops_called (trace b2) = ops_called (trace b) ++ [poll_all] ->
             exists b',
               worker_finally (poll_entry c) b2 = (Ret tt, b')
               /\ published (trace b')
                  = published (trace b)
                    ++ flat_map (fun nz => zone_messages (fst nz) (snd nz)
                                                         (snapshot (fst nz)))
                                (zones b)
                    ++ hot_water_message b snapshot
               /\ error_logs (trace b') = error_logs (trace b)
               /\ ops_called (trace b') = ops_called (trace b) ++ [poll_all]
               /\ _poll_pending b' = false
               /\ depth (hm_lock b') = 0
               /\ uh1_calls b' = S (uh1_calls b)
               /\ task_queue b' = task_queue b).
  { intros b2 T2 P2 L2 O2.
    destruct (only_trace_config T2) as (U2 & K2 & _ & N2).
    destruct U2 as (_ & _ & _ & Q2 & _).
    rewrite worker_finally_unfold. eexists. split; [reflexivity|].
    simpl. rewrite published_app, error_logs_app, ops_called_app. simpl.
    rewrite !app_nil_r, P2, L2, O2, K2, D1, N2, N1, Q2, Uq.
    repeat split. }
  destruct Hw as [Hn|[Ht Hz]].
  - (* no hot water *)
    rewrite Hn in E. rewrite E. cbv beta iota.
    rewrite bind_unfold. unfold ret at 1. cbv beta iota. cbn [andb is_dict].
    cbv iota.
    destruct (@publish_zone_results snapshot [] (zones b) b1)
      as (b2 & E2 & T2 & P2 & O2 & _ & L2 & _).
    { left. congruence. }
    rewrite app_nil_r in E2. rewrite E2. simpl.
    unfold ret. cbv beta iota.
    apply (Fin b2 T2).
    + rewrite P2, P1. unfold hot_water_message. rewrite Hn.
      now rewrite app_nil_r.
    + congruence.
    + congruence.
  - (* hot water with its thermostat *)
    destruct (hotwater b) as [h|] eqn:Hh.
    + destruct (hotwaterThermostat b) as [t|] eqn:Htt; [|now elim Ht].
      assert (A : dict_set (zone_results (zones b) snapshot) "hotwater"
                           [("hw_state",
                             VStr (upper (hotwater_state (snapshot t))))]
                  = zone_results (zones b) snapshot
                    ++ [("hotwater",
                         [("hw_state",
                           VStr (upper (hotwater_state (snapshot t))))])]).
      { assert (G : dict_get (zone_results (zones b) snapshot) "hotwater"
                    = None).
        { apply dict_get_none_keys. now rewrite zone_results_keys. }
        revert G. generalize (zone_results (zones b) snapshot).
        induction d as [|[k0 v0] d IHd]; simpl; intros G; [reflexivity|].
        destruct (String.eqb k0 "hotwater"); [discriminate|].
        now rewrite IHd. }
      rewrite A in E. rewrite E. cbv beta iota.
      rewrite bind_unfold. unfold ret at 1. cbv beta iota. cbn [andb is_dict].
      cbv iota.
      destruct (@publish_zone_results snapshot
                  [("hotwater",
                    [("hw_state",
                      VStr (upper (hotwater_state (snapshot t))))])]
                  (zones b) b1)
        as (b2 & E2 & T2 & P2 & O2 & _ & L2 & _).
      { right. exact Hz. }
      rewrite E2.
      destruct (only_trace_config T2) as (U2 & _).
      destruct U2 as (_ & Hh2 & _).
      assert (E3 : _publish_poll_results
                     [("hotwater",
                       [("hw_state",
                         VStr (upper (hotwater_state (snapshot t))))])] b2
                   = (Ret tt,
                      set_trace
                        (trace b2
                         ++ [EvPublish hotwater_state_topic
                               (VStr (upper (hotwater_state (snapshot t))))
                               true;
                             EvLog DEBUG "Published polled hot water state"])
                        b2)).
      { unfold _publish_poll_results. rewrite bind_unfold.
        unfold get at 1. cbv beta iota. rewrite Hh2, Uh. simpl.
        unfold mqtt_publish, LOG, emit, modify, bind, ret. simpl.
        unfold set_trace. simpl. now rewrite <- app_assoc. }
      rewrite E3.
      apply Fin.
      * eapply only_trace_trans; [exact T2|apply only_trace_set].
      * simpl trace. rewrite published_app, P2, P1.
        unfold hot_water_message. rewrite Hh, Htt. simpl.
        now rewrite <- app_assoc.
      * simpl trace. rewrite error_logs_app. simpl. rewrite app_nil_r.
        congruence.
      * simpl trace. rewrite ops_called_app. simpl. rewrite app_nil_r.
        congruence.
    + (* hotwater b = None after all *)
      rewrite E. cbv beta iota.
      rewrite bind_unfold. unfold ret at 1. cbv beta iota. cbn [andb is_dict].
      cbv iota.
      destruct (@publish_zone_results snapshot [] (zones b) b1)
        as (b2 & E2 & T2 & P2 & O2 & _ & L2 & _).
      { left. congruence. }
      rewrite app_nil_r in E2. rewrite E2. simpl.
      unfold ret. cbv beta iota.
      apply (Fin b2 T2).
      * rewrite P2, P1. unfold hot_water_message. rewrite Hh.
        now rewrite app_nil_r.
      * congruence.
      * congruence.
Qed.

Lemma poll_turn_publishes_every_zone_witness :
  let b := lounge_bridge (fails_first 0) in
  exists b',
    worker_iteration (poll_entry 0) b = (Ret tt, b')
    /\ published (trace b')
       = [("home/heatmiser/lounge/state/temperature", VInt 25);
          ("home/heatmiser/lounge/state/target", VInt 21);
          ("home/heatmiser/lounge/state/mode", VStr "heat");
          ("home/heatmiser/lounge/state/action", VStr "heating")]
    /\ error_logs (trace b') = []
    /\ ops_called (trace b') = [poll_all]
    /\ _poll_pending b' = false
    /\ depth (hm_lock b') = 0
    /\ uh1_calls b' = 1
    /\ task_queue b' = [].
Proof.
  apply (@poll_turn_publishes_every_zone (lounge_bridge (fails_first 0)) 0
           (fun _ => lounge_reading)).
  - reflexivity.
  - reflexivity.
  - simpl. constructor; [intros []|constructor].
  - left. reflexivity.
Defined.

(** X14.  Hot water configured but without a thermostat (no zone has the
    hot-water zone id): every poll that the hub answers fails after its
    single call, with an error that is not retried; nothing is published
    for any zone, the failure is logged once and the poll flag is
    cleared. *)
Theorem poll_fails_without_hot_water_thermostat :
  forall b c snapshot,
    depth (hm_lock b) = 0 ->
    uh1_script b (uh1_calls b) = Reads snapshot ->
    hotwater b <> None ->
    hotwaterThermostat b = None ->
    exists b',
      worker_iteration (poll_entry c) b = (Ret tt, b')
      /\ published (trace b') = published (trace b)
      /\ error_logs (trace b')
         = error_logs (trace b) ++ [EvLog ERROR "Task '%s' failed: %s"]
      /\ ops_called (trace b') = ops_called (trace b) ++ [poll_all]
      /\ _poll_pending b' = false
      /\ depth (hm_lock b') = 0
      /\ task_queue b' = task_queue b.
Proof.
  intros b c snapshot Hd Hs Hh Ht.
  destruct (@poll_answered (announced b) snapshot Hd Hs)
    as (b1 & E & U & D1 & N1 & P1 & O1 & T1 & L1 & W1).
  change (hotwater (announced b)) with (hotwater b) in E.
  change (hotwaterThermostat (announced b)) with (hotwaterThermostat b) in E.
  cbv zeta in E. rewrite Ht in E.
  destruct (hotwater b) as [h|]; [|now elim Hh].
  destruct U as (_ & _ & _ & Uq & _).
  simpl in Uq, P1, O1, L1.
  rewrite published_app in P1. rewrite ops_called_app in O1.
  rewrite error_logs_app in L1. simpl in P1, O1, L1.
  rewrite app_nil_r in P1, O1, L1.
  rewrite worker_iteration_of_try, worker_try_unfold.
  simpl func. rewrite E. rewrite worker_finally_unfold.
  eexists. split; [reflexivity|]. simpl.
  rewrite !published_app, !error_logs_app, !ops_called_app. simpl.
  rewrite !app_nil_r, P1, L1, O1, D1, Uq. repeat split.
Qed.

Lemma poll_fails_without_hot_water_thermostat_witness :
  let b := __init__ [("lounge", lounge)] (Some {| hw_zone_id := 9 |})
                    (fails_first 0) (fun _ => true) in
  exists b',
    worker_iteration (poll_entry 0) b = (Ret tt, b')
    /\ published (trace b') = []
    /\ error_logs (trace b') = [EvLog ERROR "Task '%s' failed: %s"]
    /\ ops_called (trace b') = [poll_all]
    /\ _poll_pending b' = false
    /\ depth (hm_lock b') = 0
    /\ task_queue b' = [].
Proof.
  apply (@poll_fails_without_hot_water_thermostat
           (__init__ [("lounge", lounge)] (Some {| hw_zone_id := 9 |})
                     (fails_first 0) (fun _ => true))
           0 (fun _ => lounge_reading)).
  - reflexivity.
  - reflexivity.
  - discriminate.
  - reflexivity.
Defined.

(* ------------------------------------------------------------------ *)
(** ** A command turn and its callback                                  *)
(* ------------------------------------------------------------------ *)

(** A setter that the hub answers at once. *)
Lemma setter_answered op b snapshot :
  depth (hm_lock b) = 0 ->
  uh1_script b (uh1_calls b) = Reads snapshot ->
  op <> poll_all ->
  with_lock (run_func op) default_retries default_delay b
  = (Ret RNone, released (called op (acquired b))).
Proof.
  intros Hd Hs Hop. apply with_lock_first_returns; [exact Hd|].
  rewrite (@run_func_answered op (acquired b) snapshot Hs).
  destruct op; try reflexivity. now elim Hop.
Qed.

(** [_publish_single_state], by what the getters do. *)
Lemma publish_single_state_unfold name overrides b :
  _publish_single_state name overrides b
  = match dict_get (zones b) name with
    | None => (Raise (KeyError name), b)
    | Some _ =>
        match uh1_script b (uh1_calls b) with
        | Fails x => (Raise x, set_uh1_calls (S (uh1_calls b)) b)
        | Reads snapshot =>
            (publish_items name
               (dict_update (single_state (snapshot name)) overrides) ;;
             LOG DEBUG "Immediate MQTT update for %s")
              (set_uh1_calls (S (uh1_calls b)) b)
        end
    end.
Proof.
  unfold _publish_single_state, thermostat_getters, uh1_exchange.
  rewrite bind_unfold. unfold get at 1. cbv beta iota.
  destruct (dict_get (zones b) name); [|reflexivity].
  rewrite bind_unfold, bind_unfold. cbv beta iota.
  destruct (uh1_script b (uh1_calls b)); reflexivity.
Qed.

(** X15.  A set-target command that the hub answers, and whose callback finds
    the getters answering too: the worker publishes four retained values
    for the zone, read after the write, except the target, which is the
    value that was commanded rather than the one the thermostat
    reports. *)
Theorem target_command_published :
  forall b name val c d s1 s2,
    depth (hm_lock b) = 0 ->
    dict_get (zones b) name <> None ->
    uh1_script b (uh1_calls b) = Reads s1 ->
    uh1_script b (S (uh1_calls b)) = Reads s2 ->
    let e := {| priority := PRIORITY_COMMAND; count := c;
                body := {| func := set_target_temp name val; desc := d;
                           is_poll := false;
                           callback :=
                             Some (cb_publish_single_state
                                     name [("target", VInt val)]) |} |} in
    exists b',
      worker_iteration e b = (Ret tt, b')
      /\ published (trace b')
         = published (trace b)
           ++ [(state_topic name "temperature", air_temp (s2 name));
               (state_topic name "target", VInt val);
               (state_topic name "mode", VStr (derive_mode (s2 name)));
               (state_topic name "action", VStr (derive_action (s2 name)))]
      /\ error_logs (trace b') = error_logs (trace b)
      /\ warning_logs (trace b') = warning_logs (trace b)
      /\ ops_called (trace b') = ops_called (trace b) ++ [set_target_temp name val]
      /\ uh1_calls b' = S (S (uh1_calls b))
      /\ depth (hm_lock b') = 0
      /\ task_queue b' = task_queue b
      /\ _poll_pending b' = _poll_pending b.
Proof.
  intros b name val c d s1 s2 Hd Hz H1 H2 e.
  rewrite worker_iteration_of_try, worker_try_unfold.
  subst e. simpl func. simpl callback. simpl is_poll. simpl body.
  rewrite (@setter_answered (set_target_temp name val) (announced b) s1 Hd H1)
    by discriminate.
  cbv beta iota. rewrite bind_unfold.
  unfold try_except, run_callback.
  rewrite publish_single_state_unfold.
  change (zones (released (called (set_target_temp name val)
                                  (acquired (announced b)))))
    with (zones b).
  destruct (dict_get (zones b) name) as [z|]; [|now elim Hz].
  change (uh1_script (released (called (set_target_temp name val)
                                       (acquired (announced b))))
            (uh1_calls (released (called (set_target_temp name val)
                                         (acquired (announced b))))))
    with (uh1_script b (S (uh1_calls b))).
  rewrite H2.
  unfold dict_update, single_state. simpl fold_left.
  unfold publish_items, mqtt_publish, LOG, emit, modify, bind, ret.
  cbv beta iota. cbn [andb]. cbv beta iota.
  rewrite worker_finally_unfold.
  eexists. split; [reflexivity|].
  simpl.
  rewrite !published_app, !error_logs_app, !warning_logs_app, !ops_called_app.
  simpl. rewrite !app_nil_r.
  repeat split.
  repeat rewrite <- app_assoc. reflexivity.
Qed.

Lemma target_command_published_witness :
  let b := lounge_bridge (fails_first 0) in
  let e := {| priority := PRIORITY_COMMAND; count := 0;
              body := {| func := set_target_temp "lounge" 23;
                         desc := "lounge set target 23" ++ degrees_C;
                         is_poll := false;
                         callback :=
                           Some (cb_publish_single_state
                                   "lounge" [("target", VInt 23)]) |} |} in
  exists b',
    worker_iteration e b = (Ret tt, b')
    /\ published (trace b')
       = [("home/heatmiser/lounge/state/temperature", VInt 20);
          ("home/heatmiser/lounge/state/target", VInt 23);
          ("home/heatmiser/lounge/state/mode", VStr "heat");
          ("home/heatmiser/lounge/state/action", VStr "heating")]
    /\ error_logs (trace b') = []
    /\ warning_logs (trace b') = []
    /\ ops_called (trace b') = [set_target_temp "lounge" 23]
    /\ uh1_calls b' = 2
    /\ depth (hm_lock b') = 0
    /\ task_queue b' = []
    /\ _poll_pending b' = false.
Proof.
  apply (@target_command_published (lounge_bridge (fails_first 0)) "lounge" 23
           0 ("lounge set target 23" ++ degrees_C)
           (fun _ => lounge_reading) (fun _ => lounge_reading)).
  - reflexivity.
  - discriminate.
  - reflexivity.
  - reflexivity.
Defined.

(** X16.  A command whose operation succeeds but whose callback fails (the
    getters raise, whatever the error, or the zone is unknown): the
    failure is logged as a warning about the callback and goes no
    further.  Nothing is published, no task failure is logged, the
    operation is not called again, [task_done] is called as for any task
    and the turn ends with the lock free. *)
Theorem callback_failure_is_isolated :
  forall b e name overrides s1 x,
    depth (hm_lock b) = 0 ->
    func (body e) <> poll_all ->
    callback (body e) = Some (cb_publish_single_state name overrides) ->
    is_poll (body e) = false ->
    uh1_script b (uh1_calls b) = Reads s1 ->
    uh1_script b (S (uh1_calls b)) = Fails x ->
    exists b',
      worker_iteration e b = (Ret tt, b')
      /\ published (trace b') = published (trace b)
      /\ error_logs (trace b') = error_logs (trace b)
      /\ warning_logs (trace b')
         = warning_logs (trace b)
           ++ [EvLog WARNING "Callback for %s failed: %s"]
      /\ ops_called (trace b') = ops_called (trace b) ++ [func (body e)]
      /\ task_dones (trace b') = S (task_dones (trace b))
      /\ depth (hm_lock b') = 0
      /\ task_queue b' = task_queue b
      /\ _poll_pending b' = _poll_pending b.
Proof.
  intros b e name overrides s1 x Hd Hop Hcb Hpoll H1 H2.
  rewrite worker_iteration_of_try, worker_try_unfold.
  rewrite (@setter_answered (func (body e)) (announced b) s1 Hd H1 Hop).
  cbv beta iota. rewrite Hcb, Hpoll. rewrite bind_unfold.
  unfold try_except, run_callback.
  rewrite publish_single_state_unfold.
  change (zones (released (called (func (body e)) (acquired (announced b)))))
    with (zones b).
  change (uh1_script (released (called (func (body e))
                                       (acquired (announced b))))
            (uh1_calls (released (called (func (body e))
                                         (acquired (announced b))))))
    with (uh1_script b (S (uh1_calls b))).
  rewrite H2.
  destruct (dict_get (zones b) name) as [z|];
    unfold any_Exception, LOG, emit, modify, ret;
    cbv beta iota; cbn [andb]; cbv beta iota;
    rewrite worker_finally_unfold, Hpoll;
    (eexists; split; [reflexivity|]);
    simpl;
    rewrite !published_app, !error_logs_app, !warning_logs_app,
      !ops_called_app, !task_dones_app;
    simpl; rewrite !app_nil_r;
    repeat split; unfold task_dones; simpl; lia.
Qed.

Lemma callback_failure_is_isolated_witness :
  let b := lounge_bridge
             (fun i => if (i <? 1)%nat then Reads (fun _ => lounge_reading)
                       else Fails (OSError "read timeout")) in
  let e := {| priority := PRIORITY_COMMAND; count := 0;
              body := {| func := set_frost_protect_mode "lounge" true;
                         desc := "lounge set mode";
                         is_poll := false;
                         callback :=
                           Some (cb_publish_single_state
                                   "lounge" [("mode", VStr "off")]) |} |} in
  exists b',
    worker_iteration e b = (Ret tt, b')
    /\ published (trace b') = []
    /\ error_logs (trace b') = []
    /\ warning_logs (trace b') = [EvLog WARNING "Callback for %s failed: %s"]
    /\ ops_called (trace b') = [set_frost_protect_mode "lounge" true]
    /\ task_dones (trace b') = 1
    /\ depth (hm_lock b') = 0
    /\ task_queue b' = []
    /\ _poll_pending b' = false.
Proof.
  apply (@callback_failure_is_isolated
           (lounge_bridge
              (fun i => if (i <? 1)%nat then Reads (fun _ => lounge_reading)
                        else Fails (OSError "read timeout")))
           {| priority := PRIORITY_COMMAND; count := 0;
              body := {| func := set_frost_protect_mode "lounge" true;
                         desc := "lounge set mode";
                         is_poll := false;
                         callback :=
                           Some (cb_publish_single_state
                                   "lounge" [("mode", VStr "off")]) |} |}
           "lounge" [("mode", VStr "off")] (fun _ => lounge_reading)
           (OSError "read timeout")).
  - reflexivity.
  - discriminate.
  - reflexivity.
  - reflexivity.
  - reflexivity.
  - reflexivity.
Defined.

(* ------------------------------------------------------------------ *)
(** ** The worker loop as a whole                                       *)
(* ------------------------------------------------------------------ *)

(** X17.  The worker never dies of an exception; it stops only to wait on an
    empty queue or parked for ever on a task that was in the queue; and it
    runs out of turns only if it was given no more turns than there were
    tasks. *)
Theorem worker_thread_ends :
  forall turns b,
    match fst (worker_thread turns b) with
    | Crashed _ => False
    | Busy => turns <= List.length (task_queue b)
    | Waiting => task_queue (snd (worker_thread turns b)) = []
    | Stuck e => In e (task_queue b)
    end.
Proof.
  induction turns as [|turns IH]; intros b; simpl.
  - lia.
  - destruct (queue_get (task_queue b)) as [[e q']|] eqn:G.
    + pose proof (queue_get_perm _ G) as P.
      pose proof (queue_get_length _ G) as L.
      pose proof (worker_iteration_outcome e (set_task_queue q' b)) as O.
      cbv zeta in O.
      destruct (worker_iteration e (set_task_queue q' b)) as [[[]|x|] b'];
        simpl in O.
      * destruct O as (Q & _). specialize (IH b').
        destruct (worker_thread turns b') as [[| e' | x |] b'']; simpl in *.
        -- exact IH.
        -- rewrite Q in IH. eapply Permutation_in; [symmetry; exact P|].
           now right.
        -- exact IH.
        -- rewrite Q in IH. lia.
      * destruct O as (_ & _ & []).
      * simpl. eapply Permutation_in; [symmetry; exact P|]. now left.
    + simpl. now apply queue_get_none.
Qed.

Section Publishing.

Variable b0 : bridge.
Let I := publishing b0.

Lemma publishing_emit ev :
  ops_called [ev] = [] -> task_dones [ev] = 0 -> ensures I nowhere (emit ev).
Proof.
  intros H1 H2 b (U & L & O & D). simpl.
  unfold I, publishing. simpl.
  rewrite ops_called_app, task_dones_app, H1, H2, app_nil_r, Nat.add_0_r.
  destruct U as (U1 & U2 & U3 & U4 & U5 & U6 & U7 & U8 & U9).
  split; [apply untouched_step; simpl; auto|]. auto.
Qed.

Lemma publishing_exchange : ensures I nowhere uh1_exchange.
Proof.
  intros b (U & L & O & D). simpl. unfold I, publishing. simpl.
  destruct U as (U1 & U2 & U3 & U4 & U5 & U6 & U7 & U8 & U9).
  split; [apply untouched_step; simpl; auto|]. auto.
Qed.

Ltac publishing_step :=
  first
    [ apply ensures_ret
    | apply ensures_raise
    | apply ensures_get
    | apply publishing_exchange
    | apply publishing_emit; reflexivity
    | apply ensures_bind; [|intros ?]
    | apply ensures_try_except; [|intros ?]
    | match goal with
      | |- ensures _ _ (match ?x with _ => _ end) => destruct x
      | |- ensures _ _ (if ?x then _ else _) => destruct x
      end ].

Ltac publishing := repeat publishing_step.

Lemma publishing_publish_items name : forall state,
  ensures I nowhere (publish_items name state).
Proof.
  induction state as [|[k v] state IH]; simpl.
  - publishing.
  - unfold mqtt_publish. apply ensures_bind; [publishing|intros; exact IH].
Qed.

Lemma publishing_run_callback cb r : ensures I nowhere (run_callback cb r).
Proof.
  destruct cb as [cmd|name overrides]; simpl.
  - unfold _publish_hotwater_state, thermostat_getters, mqtt_publish,
      time_sleep, LOG.
    publishing.
  - unfold _publish_single_state, thermostat_getters, LOG. publishing.
    apply publishing_publish_items.
Qed.

Lemma publishing_poll_results : forall results,
  ensures I nowhere (_publish_poll_results results).
Proof.
  induction results as [|[name res] results IH]; simpl; [publishing|].
  apply ensures_bind; [publishing|intros hw].
  apply ensures_bind; [|intros; exact IH].
  unfold item, mqtt_publish, LOG.
  destruct (String.eqb name "hotwater" && is_some hw).
  - destruct (dict_get res "hw_state") as [[| | |]|]; publishing.
  - publishing.
Qed.

(** What follows [with_lock] in the [try] block of the worker. *)
Lemma publishing_after_with_lock t r :
  ensures I nowhere
    (match callback t with
     | Some cb =>
         try_except (run_callback cb r) any_Exception
                    (fun _ => LOG WARNING "Callback for %s failed: %s")
     | None => ret tt
     end ;;
     if is_poll t && is_dict r
     then match r with
          | RDict results => _publish_poll_results results
          | RNone => ret tt
          end
     else ret tt).
Proof.
  apply ensures_bind.
  - destruct (callback t) as [cb|]; [|publishing].
    apply ensures_try_except; [apply publishing_run_callback|].
    intros x. unfold LOG. publishing.
  - intros _. destruct (is_poll t && is_dict r); [|publishing].
    destruct r; [publishing|apply publishing_poll_results].
Qed.

End Publishing.

Lemma publishing_refl b : publishing b b.
Proof. unfold publishing. repeat split. Qed.

Lemma operation_eq_poll op : op = poll_all \/ op <> poll_all.
Proof. destruct op; (now left) || (right; discriminate). Qed.

(** [with_lock] on an operation that the hub answers. *)
Lemma with_lock_answered op b snapshot :
  depth (hm_lock b) = 0 ->
  uh1_script b (uh1_calls b) = Reads snapshot ->
  exists r b1,
    with_lock (run_func op) default_retries default_delay b = (r, b1)
    /\ r <> Block
    /\ untouched b b1
    /\ depth (hm_lock b1) = 0
    /\ ops_called (trace b1) = ops_called (trace b) ++ [op]
    /\ task_dones (trace b1) = task_dones (trace b).
Proof.
  intros Hd Hs.
  destruct (operation_eq_poll op) as [E|E].
  - subst op.
    destruct (@poll_answered b snapshot Hd Hs)
      as (b1 & E & U & D1 & _ & _ & O1 & T1 & _).
    eexists. exists b1. split; [exact E|].
    split; [|auto].
    cbv zeta. destruct (hotwater b); [|discriminate].
    destruct (hotwaterThermostat b); discriminate.
  - rewrite (@setter_answered op b snapshot Hd Hs E).
    eexists. eexists. split; [reflexivity|].
    split; [discriminate|].
    unfold released, called, acquired. simpl.
    rewrite !ops_called_app, !task_dones_app. simpl.
    rewrite !app_nil_r, !Nat.add_0_r.
    split; [apply untouched_step; reflexivity|]. repeat split.
Qed.

(** One turn of the worker when the hub answers: the operation of the
    task is called once, [task_done] once, and the lock is free again. *)
Lemma turn_with_responsive_hub e b :
  depth (hm_lock b) = 0 ->
  hub_answers b ->
  exists b',
    worker_iteration e b = (Ret tt, b')
    /\ task_queue b' = task_queue b
    /\ uh1_script b' = uh1_script b
    /\ depth (hm_lock b') = 0
    /\ ops_called (trace b') = ops_called (trace b) ++ [func (body e)]
    /\ task_dones (trace b') = S (task_dones (trace b)).
Proof.
  intros Hd Ha.
  destruct (Ha (uh1_calls b)) as (snapshot & Hs).
  destruct (@with_lock_answered (func (body e)) (announced b) snapshot Hd Hs)
    as (r & b1 & E & NB & U & D1 & O1 & T1).
  assert (Oa : ops_called (trace (announced b)) = ops_called (trace b)).
  { unfold announced. simpl. rewrite ops_called_app. simpl.
    now rewrite app_nil_r. }
  assert (Ta : task_dones (trace (announced b)) = task_dones (trace b)).
  { unfold announced. simpl. rewrite task_dones_app.
    unfold task_dones. simpl. lia. }
  rewrite Oa in O1. rewrite Ta in T1.
  destruct U as (U1 & U2 & U3 & U4 & U5 & U6 & U7 & U8 & U9).
  simpl in U4, U7.
  rewrite worker_iteration_of_try, worker_try_unfold, E.
  destruct r as [r|x|]; [| |congruence].
  - pose proof (@publishing_after_with_lock b1 (body e) r b1
                  (publishing_refl b1)) as P.
    match type of P with
    | context [fst (?m b1)] => destruct (m b1) as [[[]|x|] b2]
    end; simpl in P; [| |destruct P];
      destruct P as (V & L & O2 & T2);
      destruct V as (V1 & V2 & V3 & V4 & V5 & V6 & V7 & V8 & V9);
      rewrite worker_finally_unfold; eexists; (split; [reflexivity|]);
        simpl; rewrite ops_called_app, task_dones_app;
        try rewrite ops_called_app; try rewrite task_dones_app;
        destruct (is_poll (body e)); simpl;
          rewrite ?app_nil_r, ?L, ?O2, ?T2, ?V4, ?V7;
          repeat split; try congruence;
          unfold task_dones in *; simpl; lia.
  - rewrite worker_finally_unfold. eexists. split; [reflexivity|].
    simpl. rewrite !ops_called_app, !task_dones_app.
    destruct (is_poll (body e)); simpl;
      rewrite ?app_nil_r; repeat split; try congruence;
      unfold task_dones in *; simpl; lia.
Qed.

Lemma responsive_drain : forall n b,
  depth (hm_lock b) = 0 ->
  hub_answers b ->
  List.length (task_queue b) <= n ->
  fst (worker_thread (S n) b) = Waiting
  /\ task_queue (snd (worker_thread (S n) b)) = []
  /\ depth (hm_lock (snd (worker_thread (S n) b))) = 0
  /\ ops_called (trace (snd (worker_thread (S n) b)))
     = ops_called (trace b)
       ++ map (fun e => func (body e)) (drain n (task_queue b))
  /\ task_dones (trace (snd (worker_thread (S n) b)))
     = task_dones (trace b) + List.length (task_queue b).
Proof.
  induction n as [|n IH]; intros b Hd Ha Hl.
  - destruct (task_queue b) eqn:Q; [|simpl in Hl; lia].
    simpl. rewrite Q. simpl. rewrite Q, app_nil_r. repeat split; auto.
  - change (worker_thread (S (S n)) b)
      with (match queue_get (task_queue b) with
            | None => (Waiting, b)
            | Some (e, q') =>
                match worker_iteration e (set_task_queue q' b) with
                | (Ret _, b') => worker_thread (S n) b'
                | (Raise x, b') => (Crashed x, b')
                | (Block, b') => (Stuck e, b')
                end
            end).
    change (drain (S n) (task_queue b))
      with (match queue_get (task_queue b) with
            | None => []
            | Some (e, q') => e :: drain n q'
            end).
    destruct (queue_get (task_queue b)) as [[e q']|] eqn:G.
    + pose proof (queue_get_length _ G) as L.
      destruct (@turn_with_responsive_hub e (set_task_queue q' b) Hd Ha)
        as (b' & E & Q' & S' & D' & O' & T').
      rewrite E. simpl in Q', S', O', T'.
      assert (Ha' : hub_answers b').
      { intros i. unfold hub_answers in Ha. rewrite S'. apply Ha. }
      assert (Hl' : List.length (task_queue b') <= n) by (rewrite Q'; lia).
      destruct (IH b' D' Ha' Hl') as (W & QE & DE & OE & TE).
      rewrite W, QE, DE, OE, TE, O', T', Q', L. simpl.
      rewrite <- app_assoc. simpl. repeat split; auto; lia.
    + apply queue_get_none in G. rewrite G. simpl. rewrite app_nil_r.
      repeat split; auto.
Qed.

(** X18.  With a hub that answers every exchange and [hm_lock] free, the worker
    empties the queue and waits: it calls the operation of every queued
    task once, in dequeue order, and [task_done] once per task, whatever
    the callbacks and the publishing do; the lock is free at the end. *)
Theorem responsive_hub_drains_queue b :
  depth (hm_lock b) = 0 ->
  hub_answers b ->
  fst (worker_thread (S (List.length (task_queue b))) b) = Waiting
  /\ task_queue (snd (worker_thread (S (List.length (task_queue b))) b)) = []
  /\ depth (hm_lock (snd (worker_thread (S (List.length (task_queue b))) b)))
     = 0
  /\ ops_called (trace (snd (worker_thread (S (List.length (task_queue b))) b)))
     = ops_called (trace b)
       ++ map (fun e => func (body e)) (dequeue_order (task_queue b))
  /\ task_dones (trace (snd (worker_thread (S (List.length (task_queue b))) b)))
     = task_dones (trace b) + List.length (task_queue b).
Proof.
  intros Hd Ha. apply responsive_drain; auto.
Qed.

Lemma responsive_hub_drains_queue_witness :
  fst (worker_thread 4 (poll_then_two_commands (fails_first 0))) = Waiting
  /\ ops_called
       (trace (snd (worker_thread 4 (poll_then_two_commands (fails_first 0)))))
     = [set_target_temp "lounge" 21; set_frost_protect_mode "lounge" true;
        poll_all].
Proof.
  destruct (@responsive_hub_drains_queue
              (poll_then_two_commands (fails_first 0)))
    as (W & _ & _ & O & _).
  - reflexivity.
  - intros n. eexists. reflexivity.
  - split; [exact W|]. etransitivity; [exact O|]. vm_compute. reflexivity.
Defined.

(* ------------------------------------------------------------------ *)
(** ** The serial connection                                            *)
(* ------------------------------------------------------------------ *)

Section ConnectionProperties.

Import Connection.

Variable constants : com_constants.
Variable env : pyserial.

Lemma Serial_open_cases p w :
  (exists e, Serial_open env p w
             = (Some e, p, {| opens := S (opens w); closes := closes w;
                              log := log w |}))
  \/ Serial_open env p w
     = (None, set_is_open true p,
        {| opens := S (opens w); closes := closes w; log := log w |}).
Proof.
  unfold Serial_open. destruct (open_script env (opens w)); eauto.
Qed.

Lemma Serial_close_cases p w :
  (exists e, Serial_close env p w
             = (Some e, p, {| opens := opens w; closes := S (closes w);
                              log := log w |}))
  \/ Serial_close env p w
     = (None, set_is_open false p,
        {| opens := opens w; closes := S (closes w); log := log w |}).
Proof.
  unfold Serial_close. destruct (close_script env (closes w)); eauto.
Qed.

Lemma open_sound self w :
  status_sound self -> status_sound (snd (fst (_open env self w))).
Proof.
  unfold _open, status_sound. intros H.
  destruct (_serport self) as [p|] eqn:P; simpl; [|now rewrite P].
  destruct (status self) eqn:S; simpl; [now rewrite P, S|].
  destruct (Serial_open_cases p (logging INFO "Opening serial port (%s)." w))
    as [[e E]|E]; rewrite E.
  - destruct e; simpl; discriminate.
  - simpl. eauto.
Qed.

Lemma reopen_sound self w :
  status_sound self -> status_sound (snd (fst (reopen env self w))).
Proof.
  unfold reopen. intros H. destruct (negb (status self)).
  - now apply open_sound.
  - exact H.
Qed.

Lemma close_sound self w :
  status_sound self -> status_sound (snd (fst (close env self w))).
Proof.
  unfold close, status_sound. intros H.
  destruct (_serport self) as [p|] eqn:P; simpl; [|discriminate].
  destruct (is_open p) eqn:O; simpl; [|discriminate].
  destruct (Serial_close_cases p (logging INFO "Closing serial port." w))
    as [[e E]|E]; rewrite E.
  - destruct e; simpl; eauto.
  - simpl. discriminate.
Qed.

Lemma register_keeps_port self t w :
  status (snd (fst (registerThermostat self t w))) = status self
  /\ _serport (snd (fst (registerThermostat self t w))) = _serport self
  /\ opens (snd (registerThermostat self t w)) = opens w
  /\ closes (snd (registerThermostat self t w)) = closes w.
Proof.
  unfold registerThermostat, register, message.
  destruct (address t) as [a|]; [destruct (has_key (thermostats self) a)|];
    simpl; auto.
Qed.

Lemma call_sound m self w :
  status_sound self -> status_sound (fst (call env m self w)).
Proof.
  intros H. destruct m as [| | |t]; simpl.
  - pose proof (open_sound w H) as S.
    destruct (_open env self w) as [[r s] w']. exact S.
  - pose proof (reopen_sound w H) as S.
    destruct (reopen env self w) as [[r s] w']. exact S.
  - pose proof (close_sound w H) as S.
    destruct (close env self w) as [[r s] w']. exact S.
  - destruct (register_keeps_port self t w) as (S & P & _).
    destruct (registerThermostat self t w) as [[r s] w']. simpl in *.
    unfold status_sound in *. now rewrite S, P.
Qed.

Lemma calls_sound ms : forall self w,
  status_sound self -> status_sound (fst (calls env ms self w)).
Proof.
  induction ms as [|m ms IH]; intros self w H; simpl; [exact H|].
  pose proof (@call_sound m self w H) as S.
  destruct (call env m self w) as [s w']. now apply IH.
Qed.

(** Configuring a port neither opens it nor renames it; when no setter
    raises, the five settings are as asked. *)
Lemma configure_spec baud p :
  is_open (snd (configure constants env baud p)) = is_open p
  /\ Connection.port (snd (configure constants env baud p))
     = Connection.port p
  /\ (fst (configure constants env baud p) = None ->
      configured constants (Some baud) (snd (configure constants env baud p))).
Proof.
  unfold configure, assign, configured.
  destruct (setter_raises env "baudrate" (VInt baud)); simpl;
    [repeat split; auto; discriminate|].
  destruct (setter_raises env "bytesize" (COM_SIZE constants)); simpl;
    [repeat split; auto; discriminate|].
  destruct (setter_raises env "parity" (COM_PARITY constants)); simpl;
    [repeat split; auto; discriminate|].
  destruct (setter_raises env "stopbits" (COM_STOP constants)); simpl;
    [repeat split; auto; discriminate|].
  destruct (setter_raises env "timeout" (COM_TIMEOUT constants)); simpl;
    repeat split; auto; discriminate.
Qed.

(** What [create_port] leaves: [status] is still unset, no [open] was
    called, and a port that it hands on is closed and configured. *)
Lemma create_port_spec device ipaddress port url self w :
  status self = false ->
  _serport self = None ->
  status (snd (fst (create_port constants env device ipaddress port url
                                self w))) = false
  /\ thermostats (snd (fst (create_port constants env device ipaddress port
                                        url self w))) = thermostats self
  /\ _mode (snd (fst (create_port constants env device ipaddress port
                                  url self w))) = _mode self
  /\ opens (snd (create_port constants env device ipaddress port url self w))
     = opens w
  /\ (fst (fst (create_port constants env device ipaddress port url self w))
      = None ->
      exists p,
        _serport (snd (fst (create_port constants env device ipaddress port
                                        url self w))) = Some p
        /\ is_open p = false
        /\ configured constants (Some (_baudrate self)) p
        /\ (_mode self <> "socket" ->
            Connection.port p = Some (str device) /\ truthy device = true)).
Proof.
  intros S P. unfold create_port.
  destruct (String.eqb_spec (_mode self) "socket") as [M|M].
  - destruct (serial_for_url_do_not_open env _) as [e|].
    + destruct e; simpl; try (repeat split; auto; discriminate).
      destruct (serial_for_url env _) as [e|[|]]; simpl.
      * repeat split; auto; discriminate.
      * match goal with
        | |- context [Serial_close env ?p ?w] =>
            destruct (Serial_close_cases p w) as [[e E]|E]; rewrite E
        end; simpl.
        -- repeat split; auto; discriminate.
        -- match goal with
           | |- context [configure constants env ?b ?q] =>
               destruct (configure_spec b q) as (O & N & C)
           end.
           repeat split; auto. intros F. eexists. split; [reflexivity|].
           split; [exact O|]. split; [exact (C F)|].
           congruence.
      * match goal with
        | |- context [configure constants env ?b ?q] =>
            destruct (configure_spec b q) as (O & N & C)
        end.
        repeat split; auto. intros F. eexists. split; [reflexivity|].
        split; [exact O|]. split; [exact (C F)|].
        congruence.
    + match goal with
      | |- context [configure constants env ?b ?q] =>
          destruct (configure_spec b q) as (O & N & C)
      end.
      simpl. repeat split; auto. intros F. eexists. split; [reflexivity|].
      split; [exact O|]. split; [exact (C F)|].
      congruence.
  - destruct (truthy device) eqn:D; simpl.
    + destruct (setter_raises env "port" (VStr (str device))); simpl.
      * repeat split; auto; discriminate.
      * match goal with
        | |- context [configure constants env ?b ?q] =>
            destruct (configure_spec b q) as (O & N & C)
        end.
        repeat split; auto. intros F. eexists. split; [reflexivity|].
        split; [exact O|]. split; [exact (C F)|].
        intros _. split; [exact N|reflexivity].
    + repeat split; auto; discriminate.
Qed.

Lemma close_leftover_closed self w p :
  _serport self = Some p -> is_open p = false ->
  close_leftover env self w = (self, w).
Proof. intros P O. unfold close_leftover. now rewrite P, O. Qed.

(** The constructor, case by case. *)
Lemma init_cases device ipaddress port url mode baudrate w :
  (chosen device ipaddress port url mode = None
   /\ __init__ constants env device ipaddress port url mode baudrate w
      = (inl (ValueError
                "Must provide either device or (ipaddress and port) or url"),
         w))
  \/ (exists m self1 w1 e,
         chosen device ipaddress port url mode = Some m
         /\ __init__ constants env device ipaddress port url mode baudrate w
            = (inr self1,
               logging ERROR "Failed to initialize serial connection: %s" w1)
         /\ create_port
              constants env device ipaddress port url
              {| thermostats := []; status := false; _serport := None;
                 mode := mode;
                 _baudrate := match baudrate with
                              | Some b => b
                              | None => COM_BAUD constants
                              end;
                 _mode := m |}
              (logging INFO "HeatmiserUH1 selected mode: %s" w)
            = (Some e, self1, w1))
  \/ (exists m self1 w1 p,
         chosen device ipaddress port url mode = Some m
         /\ create_port
              constants env device ipaddress port url
              {| thermostats := []; status := false; _serport := None;
                 mode := mode;
                 _baudrate := match baudrate with
                              | Some b => b
                              | None => COM_BAUD constants
                              end;
                 _mode := m |}
              (logging INFO "HeatmiserUH1 selected mode: %s" w)
            = (None, self1, w1)
         /\ _serport self1 = Some p /\ is_open p = false
         /\ status self1 = false /\ opens w1 = opens w
         /\ thermostats self1 = []
         /\ configured constants baudrate p
         /\ (m <> "socket" ->
             Connection.port p = Some (str device) /\ truthy device = true)
         /\ __init__ constants env device ipaddress port url mode baudrate w
            = (inr (snd (fst (_open env self1 w1))), snd (_open env self1 w1))).
Proof.
  unfold __init__.
  destruct (chosen device ipaddress port url mode) as [m|]; [right|now left].
  match goal with
  | |- context [create_port _ _ _ _ _ _ ?s ?w0] =>
      pose proof (@create_port_spec device ipaddress port url s w0
                    eq_refl eq_refl) as (S & T & M & O & C);
      destruct (create_port constants env device ipaddress port url s w0)
        as [[[e|] self1] w1] eqn:E
  end.
  - left. exists m, self1, w1, e. simpl in *. auto.
  - right. simpl in S, O, C, T, M.
    destruct (C eq_refl) as (p & P & Op & Cf & Dv).
    exists m, self1, w1, p. simpl in Dv.
    rewrite (@close_leftover_closed self1 w1 p P Op).
    assert (Cf' : configured constants baudrate p)
      by (destruct baudrate; exact Cf).
    destruct Cf' as (C1 & C2 & C3 & C4 & C5).
    destruct (_open env self1 w1) as [[r s] w2]. simpl.
    repeat split; auto; apply Dv; auto.
Qed.

Lemma init_sound device ipaddress port url mode baudrate w self w' :
  __init__ constants env device ipaddress port url mode baudrate w
  = (inr self, w') ->
  status_sound self.
Proof.
  intros E.
  destruct (init_cases device ipaddress port url mode baudrate w)
    as [(_ & E1)|[(m & s1 & w1 & e & _ & E1 & C)|
                  (m & s1 & w1 & p & _ & C & P & O & S & _ & _ & _ & _ & E1)]];
    rewrite E1 in E; inversion E; subst; clear E.
  - match type of C with
    | create_port _ _ _ _ _ _ ?s ?w0 = _ =>
        pose proof (@create_port_spec device ipaddress port url s w0
                      eq_refl eq_refl) as (S & _)
    end.
    rewrite C in S. simpl in S. intros H. congruence.
  - apply open_sound. intros H. congruence.
Qed.

(** X19.  [HeatmiserUH1(...)] raises only for what it was given, never for
    what the platform does: it raises [ValueError], before touching
    anything, when [mode] is neither [device] nor [socket] and no
    device, no URL and no address-and-port pair was given; in every
    other case it returns an object, whatever goes wrong underneath. *)
Theorem constructor_raises_only_without_target
        device ipaddress port url mode baudrate w :
  match __init__ constants env device ipaddress port url mode baudrate w with
  | (inl e, w') =>
      e = ValueError "Must provide either device or (ipaddress and port) or url"
      /\ w' = w
      /\ mode <> "device" /\ mode <> "socket"
      /\ truthy device = false /\ truthy url = false
      /\ (truthy ipaddress = false \/ truthy_port port = false)
  | (inr self, w') =>
      mode = "device" \/ mode = "socket" \/ truthy device = true
      \/ truthy url = true
      \/ (truthy ipaddress = true /\ truthy_port port = true)
  end.
Proof.
  destruct (init_cases device ipaddress port url mode baudrate w)
    as [(Ch & E1)|[(m & s1 & w1 & e & Ch & E1 & _)|
                   (m & s1 & w1 & p & Ch & _ & _ & _ & _ & _ & _ & _ & _ & E1)]];
    rewrite E1; unfold chosen in Ch;
    destruct (String.eqb_spec mode "device");
    destruct (String.eqb_spec mode "socket");
    destruct (truthy device), (truthy url), (truthy ipaddress),
      (truthy_port port);
    simpl in Ch; try discriminate; repeat split; auto 6.
Qed.

(** X20.  Whatever a caller does with a connection, in any order, [status] is
    set only while the port object is open. *)
Theorem status_only_while_port_open
        device ipaddress port url mode baudrate w self w' ms :
  __init__ constants env device ipaddress port url mode baudrate w
  = (inr self, w') ->
  status_sound (fst (calls env ms self w')).
Proof.
  intros E. apply calls_sound. exact (init_sound _ _ _ _ _ _ _ E).
Qed.

Lemma portless_call m self w :
  _serport self = None -> status self = false ->
  _serport (fst (call env m self w)) = None
  /\ status (fst (call env m self w)) = false
  /\ opens (snd (call env m self w)) = opens w.
Proof.
  intros P S. destruct m as [| | |t]; simpl.
  - unfold _open. rewrite P. simpl. auto.
  - unfold reopen, _open. rewrite S, P. simpl. auto.
  - unfold close. rewrite P. simpl. auto.
  - destruct (register_keeps_port self t w) as (S' & P' & O' & _).
    destruct (registerThermostat self t w) as [[r s] w']. simpl in *.
    rewrite S', P', O'. auto.
Qed.

Lemma portless_calls ms : forall self w,
  _serport self = None -> status self = false ->
  status (fst (calls env ms self w)) = false
  /\ opens (snd (calls env ms self w)) = opens w.
Proof.
  induction ms as [|m ms IH]; intros self w P S; simpl; [auto|].
  destruct (@portless_call m self w P S) as (P' & S' & O').
  destruct (call env m self w) as [s w']. simpl in *.
  destruct (IH s w' P' S') as (S2 & O2). split; congruence.
Qed.

(** X21.  In [device] mode without a device path the constructor returns an
    object with no port, and that object can never be opened: whatever
    is called on it, [reopen] included, [status] stays unset and
    [Serial.open] is never called. *)
Theorem device_mode_without_path_never_opens
        device ipaddress port url baudrate w ms :
  truthy device = false ->
  exists self w',
    __init__ constants env device ipaddress port url "device" baudrate w
    = (inr self, w')
    /\ _serport self = None
    /\ status (fst (calls env ms self w')) = false
    /\ opens (snd (calls env ms self w')) = opens w.
Proof.
  intros D. unfold __init__, chosen, create_port. simpl. rewrite D. simpl.
  eexists. eexists. split; [reflexivity|]. split; [reflexivity|].
  match goal with
  | |- context [calls env ms ?s ?w0] =>
      destruct (@portless_calls ms s w0 eq_refl eq_refl) as (S & O)
  end.
  split; [exact S|]. rewrite O. reflexivity.
Qed.

(** X22.  [reopen] returns [True] exactly when it has just opened the port; on
    a connection that is open already it returns [False] and leaves the
    connection as it is, without calling [Serial.open]. *)
Theorem reopen_true_iff_opened_now self w :
  (fst (fst (reopen env self w)) = true
   <-> status self = false /\ status (snd (fst (reopen env self w))) = true)
  /\ (status self = true ->
      snd (fst (reopen env self w)) = self
      /\ opens (snd (reopen env self w)) = opens w
      /\ closes (snd (reopen env self w)) = closes w)
  /\ opens (snd (reopen env self w)) <= S (opens w).
Proof.
  unfold reopen, _open.
  destruct (status self) eqn:S; simpl.
  - repeat split; auto; intros; try discriminate.
    destruct H; discriminate.
  - destruct (_serport self) as [p|]; simpl.
    + destruct (Serial_open_cases p
                  (logging INFO "Opening serial port (%s)." w))
        as [[e E]|E]; rewrite E; destruct e || idtac; simpl;
        repeat split; auto; intros; try discriminate;
        try (destruct H; discriminate).
    + rewrite S. repeat split; auto; intros; try discriminate.
      destruct H; discriminate.
Qed.

(** X23.  Once [close] has returned [True], [status] is unset and the port is
    not open, and closing again returns [True] without changing
    anything or calling [Serial.close]. *)
Theorem close_twice self w self1 w1 :
  close env self w = (true, self1, w1) ->
  status self1 = false
  /\ (forall p, _serport self1 = Some p -> is_open p = false)
  /\ close env self1 w1 = (true, self1, w1).
Proof.
  unfold close at 1.
  destruct (_serport self) as [p|] eqn:P.
  - destruct (is_open p) eqn:O.
    + destruct (Serial_close_cases p (logging INFO "Closing serial port." w))
        as [[e E]|E]; rewrite E.
      * destruct e; discriminate.
      * intros H. inversion H; subst; clear H. unfold close. simpl.
        repeat split; auto. intros q Q. inversion Q; subst. reflexivity.
    + intros H. inversion H; subst; clear H. unfold close. simpl.
      rewrite P, O. repeat split; auto. intros q Q. congruence.
  - intros H. inversion H; subst; clear H. unfold close. simpl.
    rewrite P. repeat split; auto. intros q Q. congruence.
Qed.

(** X24.  A connection that comes out of the constructor with [status] set
    has an open port that was configured first, with the baud rate
    asked for (or [COM_BAUD]) and the constants of the protocol, and
    that is, in device mode, the device given; [Serial.open] was called
    once. *)
Theorem connected_port_is_configured
        device ipaddress port url mode baudrate w self w' :
  __init__ constants env device ipaddress port url mode baudrate w
  = (inr self, w') ->
  status self = true ->
  exists p,
    _serport self = Some p
    /\ is_open p = true
    /\ configured constants baudrate p
    /\ (_mode self <> "socket" ->
        Connection.port p = Some (str device) /\ truthy device = true)
    /\ opens w' = S (opens w).
Proof.
  intros E S.
  destruct (init_cases device ipaddress port url mode baudrate w)
    as [(_ & E1)|[(m & s1 & w1 & e & _ & E1 & C)|
                  (m & s1 & w1 & p & _ & C & P & O & S1 & O1 & _ & Cf & Dv
                   & E1)]];
    rewrite E1 in E; inversion E; subst; clear E.
  - match type of C with
    | create_port _ _ _ _ _ _ ?s ?w0 = _ =>
        pose proof (@create_port_spec device ipaddress port url s w0
                      eq_refl eq_refl) as (S' & _)
    end.
    rewrite C in S'. simpl in S'. congruence.
  - assert (M : _mode s1 = m).
    { match type of C with
      | create_port _ _ _ _ _ _ ?s ?w0 = _ =>
          pose proof (@create_port_spec device ipaddress port url s w0
                        eq_refl eq_refl) as (_ & _ & M & _)
      end.
      rewrite C in M. exact M. }
    revert S. unfold _open. rewrite P, S1. simpl.
    destruct (Serial_open_cases p
                (logging INFO "Opening serial port (%s)." w1))
      as [[e E]|E]; rewrite E.
    + destruct e; simpl; discriminate.
    + simpl. intros _. eexists. split; [reflexivity|].
      destruct Cf as (C1 & C2 & C3 & C4 & C5).
      repeat split; auto; try (apply Dv; congruence); now rewrite O1.
Qed.

(** X25.  Whether a later construction raises depends on its arguments only:
    if the constructor returned an object once, then with the same
    arguments it returns one again, on any platform and at any time.
    ([reconnect] of the bridge builds its new connection with the
    arguments of start-up.) *)
Theorem reconstruction_never_raises
        device ipaddress port url mode baudrate w self w'
        (constants2 : com_constants) (env2 : pyserial) (w2 : world) :
  __init__ constants env device ipaddress port url mode baudrate w
  = (inr self, w') ->
  exists self2 w2',
    __init__ constants2 env2 device ipaddress port url mode baudrate w2
    = (inr self2, w2').
Proof.
  unfold __init__.
  destruct (chosen device ipaddress port url mode) as [m|]; [|discriminate].
  intros _.
  match goal with
  | |- context [create_port ?c ?e ?a1 ?a2 ?a3 ?a4 ?s ?w0] =>
      destruct (create_port c e a1 a2 a3 a4 s w0) as [[[x|] s1] w1]
  end.
  - eauto.
  - destruct (close_leftover env2 s1 w1) as [s2 w3].
    destruct (_open env2 s2 w3) as [[r s3] w4]. eauto.
Qed.

End ConnectionProperties.

Section Registry.

Import Connection.

Lemma lookup_app ts1 : forall ts2 a,
  lookup (ts1 ++ ts2) a
  = match lookup ts1 a with
    | Some t => Some t
    | None => lookup ts2 a
    end.
Proof.
  induction ts1 as [|[a' t] ts1 IH]; intros ts2 a; simpl; [reflexivity|].
  destruct (a' =? a)%Z; auto.
Qed.

(** X26.  The first thermostat registered under an address keeps it: a later
    registration under the same address is dropped without a word, the
    other addresses are not touched, and the port is returned either
    way. *)
Theorem first_registration_wins self t a w :
  address t = Some a ->
  exists self',
    registerThermostat self t w = (inr (_serport self), self', w)
    /\ lookup (thermostats self') a
       = Some (match lookup (thermostats self) a with
               | Some t0 => t0
               | None => t
               end)
    /\ (forall a', a' <> a ->
                   lookup (thermostats self') a' = lookup (thermostats self) a')
    /\ listThermostats self' = Some (thermostats self').
Proof.
  intros A. unfold registerThermostat, register, has_key. rewrite A.
  destruct (lookup (thermostats self) a) as [t0|] eqn:L.
  - exists self. repeat split; auto.
    unfold listThermostats. destruct (thermostats self); [discriminate|].
    reflexivity.
  - eexists. split; [reflexivity|]. simpl. rewrite !lookup_app, L. simpl.
    rewrite Z.eqb_refl. repeat split.
    + intros a' N. rewrite lookup_app. simpl.
      destruct (Z.eqb_spec a a'); [congruence|].
      now destruct (lookup (thermostats self) a').
    + unfold listThermostats. simpl.
      destruct (thermostats self); reflexivity.
Qed.

(** X28.  Whatever is called on a connection, a thermostat once registered
    under an address stays the one registered there. *)
Theorem registered_thermostat_stays (env : pyserial) ms :
  forall self w a t,
    lookup (thermostats self) a = Some t ->
    lookup (thermostats (fst (calls env ms self w))) a = Some t.
Proof.
  induction ms as [|m ms IH]; intros self w a t L; simpl; [exact L|].
  assert (L' : lookup (thermostats (fst (call env m self w))) a = Some t).
  { destruct m as [| | |t']; simpl.
    - unfold _open. destruct (_serport self) as [p|]; simpl; auto.
      destruct (negb (status self)); simpl; auto.
      destruct (Serial_open env p _) as [[[e|] p'] w']; [destruct e|];
        simpl; auto.
    - unfold reopen, _open. destruct (negb (status self)); simpl; auto.
      destruct (_serport self) as [p|]; simpl; auto.
      destruct (Serial_open env p _) as [[[e|] p'] w']; [destruct e|];
        simpl; auto.
    - unfold close. destruct (_serport self) as [p|]; simpl; auto.
      destruct (is_open p); simpl; auto.
      destruct (Serial_close env p _) as [[[e|] p'] w']; [destruct e|];
        simpl; auto.
    - unfold registerThermostat, register, message.
      destruct (address t') as [a'|]; simpl; auto.
      destruct (has_key (thermostats self) a'); simpl; auto.
      now rewrite lookup_app, L. }
  destruct (call env m self w) as [s w']. now apply IH.
Qed.

End Registry.

Lemma status_only_while_port_open_witness :
  exists self w',
    Connection.__init__ Connection.sample_constants Connection.working
                        (Some "/dev/ttyUSB0") None None None "auto" None
                        Connection.fresh_world
    = (inr self, w')
    /\ Connection.status_sound
         (fst (Connection.calls
                 Connection.working
                 [Connection.call_reopen; Connection.call_close;
                  Connection.call_reopen]
                 self w')).
Proof.
  eexists. eexists. split; [vm_compute; reflexivity|].
  apply (@status_only_while_port_open
           Connection.sample_constants Connection.working
           (Some "/dev/ttyUSB0") None None None "auto" None
           Connection.fresh_world).
  vm_compute. reflexivity.
Defined.

Lemma device_mode_without_path_never_opens_witness :
  exists self w',
    Connection.__init__ Connection.sample_constants Connection.working
                        None (Some "192.168.1.57")
                        (Some (Connection.PortInt 1024)) None "device" None
                        Connection.fresh_world
    = (inr self, w')
    /\ Connection._serport self = None
    /\ Connection.status
         (fst (Connection.calls
                 Connection.working
                 [Connection.call_reopen; Connection.call_open] self w'))
       = false
    /\ Connection.opens
         (snd (Connection.calls
                 Connection.working
                 [Connection.call_reopen; Connection.call_open] self w'))
       = Connection.opens Connection.fresh_world.
Proof.
  apply (@device_mode_without_path_never_opens
           Connection.sample_constants Connection.working
           None (Some "192.168.1.57") (Some (Connection.PortInt 1024)) None
           None Connection.fresh_world
           [Connection.call_reopen; Connection.call_open]).
  reflexivity.
Defined.

Lemma close_twice_witness :
  exists self w' self1 w1,
    Connection.__init__ Connection.sample_constants Connection.working
                        (Some "/dev/ttyUSB0") None None None "auto" None
                        Connection.fresh_world
    = (inr self, w')
    /\ Connection.close Connection.working self w' = (true, self1, w1)
    /\ Connection.status self1 = false
    /\ Connection.close Connection.working self1 w1 = (true, self1, w1).
Proof.
  eexists. eexists. eexists. eexists.
  split; [vm_compute; reflexivity|].
  split; [vm_compute; reflexivity|].
  match goal with
  | |- _ /\ Connection.close _ ?s1 ?w1 = _ =>
      destruct (@close_twice
                  Connection.working
                  {| Connection.thermostats := [];
                     Connection.status := true;
                     Connection._serport :=
                       Some {| Connection.port := Some "/dev/ttyUSB0";
                               Connection.is_open := true;
                               Connection.baudrate := 4800;
                               Connection.bytesize := VInt 8;
                               Connection.parity := VStr "N";
                               Connection.stopbits := VInt 1;
                               Connection.timeout := VInt 3 |};
                     Connection.mode := "auto";
                     Connection._baudrate := 4800;
                     Connection._mode := "device" |}
                  {| Connection.opens := 1; Connection.closes := 0;
                     Connection.log :=
                       [(INFO, "HeatmiserUH1 selected mode: %s");
                        (INFO, "Opening serial port (%s).");
                        (INFO, "Serial port opened successfully.")] |}
                  s1 w1)
        as (S & _ & C)
  end.
  - vm_compute. reflexivity.
  - split; [exact S|exact C].
Defined.

Lemma connected_port_is_configured_witness :
  exists self w' p,
    Connection.__init__ Connection.sample_constants Connection.working
                        None (Some "192.168.1.57")
                        (Some (Connection.PortInt 1024)) None "auto"
                        (Some 9600%Z) Connection.fresh_world
    = (inr self, w')
    /\ Connection._serport self = Some p
    /\ Connection.is_open p = true
    /\ Connection.configured Connection.sample_constants (Some 9600%Z) p
    /\ Connection.opens w' = 1.
Proof.
  eexists. eexists.
  match goal with
  | |- exists p, ?i = (inr ?s, ?w1) /\ _ =>
      assert (E : i = (inr s, w1)) by (vm_compute; reflexivity);
      destruct (@connected_port_is_configured
                  Connection.sample_constants Connection.working
                  None (Some "192.168.1.57") (Some (Connection.PortInt 1024))
                  None "auto" (Some 9600%Z) Connection.fresh_world s w1 E
                  eq_refl)
        as (p & P & O & C & _ & N)
  end.
  exists p. repeat split; auto; apply C.
Defined.

Lemma reconstruction_never_raises_witness :
  exists self2 w2',
    Connection.__init__ Connection.sample_constants Connection.unplugged
                        None (Some "192.168.1.57")
                        (Some (Connection.PortStr "1024")) None "auto" None
                        Connection.fresh_world
    = (inr self2, w2').
Proof.
  eapply (@reconstruction_never_raises
            Connection.sample_constants Connection.working
            None (Some "192.168.1.57") (Some (Connection.PortStr "1024")) None
            "auto" None Connection.fresh_world).
  vm_compute. reflexivity.
Defined.

Lemma first_registration_wins_witness :
  exists self self',
    Connection.lookup (Connection.thermostats self) 1 = Some Connection.hall
    /\ Connection.registerThermostat self Connection.landing
                                     Connection.fresh_world
       = (inr (Connection._serport self), self', Connection.fresh_world)
    /\ Connection.lookup (Connection.thermostats self') 1
       = Some Connection.hall.
Proof.
  exists {| Connection.thermostats := [(1%Z, Connection.hall)];
            Connection.status := false; Connection._serport := None;
            Connection.mode := "auto"; Connection._baudrate := 4800;
            Connection._mode := "device" |}.
  destruct (@first_registration_wins
              {| Connection.thermostats := [(1%Z, Connection.hall)];
                 Connection.status := false; Connection._serport := None;
                 Connection.mode := "auto"; Connection._baudrate := 4800;
                 Connection._mode := "device" |}
              Connection.landing 1 Connection.fresh_world eq_refl)
    as (self' & R & L & _).
  exists self'. split; [reflexivity|]. split; [exact R|exact L].
Defined.

Lemma registered_thermostat_stays_witness :
  Connection.lookup
    (Connection.thermostats
       (fst (Connection.calls
               Connection.working
               [Connection.call_registerThermostat Connection.landing;
                Connection.call_close;
                Connection.call_registerThermostat Connection.stranger;
                Connection.call_reopen]
               {| Connection.thermostats := [(1%Z, Connection.hall)];
                  Connection.status := false; Connection._serport := None;
                  Connection.mode := "auto"; Connection._baudrate := 4800;
                  Connection._mode := "device" |}
               Connection.fresh_world)))
    1
  = Some Connection.hall.
Proof.
  apply (@registered_thermostat_stays
           Connection.working
           [Connection.call_registerThermostat Connection.landing;
            Connection.call_close;
            Connection.call_registerThermostat Connection.stranger;
            Connection.call_reopen]).
  reflexivity.
Defined.
